(** * Sage ORM: a shallow embedding of the query builders, the CRUD executor,
      the relationship engine, nested persistence, the migration manager
      and the schema builder.

    The Go sources are embedded as Rocq functions.  Everything the code
    obtains from outside its own text is made explicit:
    - the database (package database/sql and the driver behind it) is a
      record [Driver] of statement semantics over an abstract [Store];
    - pointers are locations of a heap kept in the [World], so that writes
      through a pointer are seen by every holder of that pointer;
    - the order in which a [range] loop enumerates a Go map is chosen by
      the runtime: every such loop receives the enumeration as a list that
      is a permutation of the map's entries;
    - strings are byte strings; case conversions are the ASCII ones. *)

From Stdlib Require Import ZArith Ascii String List Lia.
From stdpp Require Import base option list gmap strings pretty fin_maps.

Set Warnings "-register-all".

Open Scope Z_scope.

(** ** Strings *)

Module Str.

(** The double quote character, and one-character strings. *)
Definition dq_char : ascii := ascii_of_nat 34.
Definition dq : string := String dq_char EmptyString.
Definition bq_char : ascii := ascii_of_nat 96.
Definition bq : string := String bq_char EmptyString.
Definition nl : string := String (ascii_of_nat 10) EmptyString.
Definition tab : string := String (ascii_of_nat 9) EmptyString.

(** [strings.Join]. *)
Definition Join (l : list string) (sep : string) : string := String.concat sep l.

(** [strings.Split] for a separator of one byte: [n] occurrences of the
    separator give [n + 1] parts, the empty string gives one empty part. *)
Fixpoint Split (s : string) (sep : ascii) : list string :=
  match s with
  | EmptyString => [EmptyString]
  | String a s' =>
      if decide (a = sep) then EmptyString :: Split s' sep
      else match Split s' sep with
           | [] => [String a EmptyString]
           | p :: ps => String a p :: ps
           end
  end.

(** [strings.Contains] for a one-byte needle. *)
Fixpoint Contains (s : string) (c : ascii) : bool :=
  match s with
  | EmptyString => false
  | String a s' => if decide (a = c) then true else Contains s' c
  end.

(** [strings.Replace(s, old, new, -1)] for a one-byte [old]. *)
Fixpoint Replace (s : string) (old : ascii) (new : string) : string :=
  match s with
  | EmptyString => EmptyString
  | String a s' =>
      if decide (a = old) then new +:+ Replace s' old new
      else String a (Replace s' old new)
  end.

Definition is_upper (a : ascii) : bool :=
  let n := nat_of_ascii a in (65 <=? n)%nat && (n <=? 90)%nat.
Definition is_lower (a : ascii) : bool :=
  let n := nat_of_ascii a in (97 <=? n)%nat && (n <=? 122)%nat.
Definition is_digit (a : ascii) : bool :=
  let n := nat_of_ascii a in (48 <=? n)%nat && (n <=? 57)%nat.
Definition lower_char (a : ascii) : ascii :=
  if is_upper a then ascii_of_nat (nat_of_ascii a + 32) else a.
Definition upper_char (a : ascii) : ascii :=
  if is_lower a then ascii_of_nat (nat_of_ascii a - 32) else a.

(** [strings.ToLower] on ASCII. *)
Fixpoint ToLower (s : string) : string :=
  match s with
  | EmptyString => EmptyString
  | String a s' => String (lower_char a) (ToLower s')
  end.

(** [strings.EqualFold] on ASCII. *)
Definition EqualFold (s t : string) : bool :=
  bool_decide (ToLower s = ToLower t).

(** [strings.Title] on ASCII: a letter is upper-cased when it starts the
    string or follows a separator; letters, digits, the underscore and
    bytes outside ASCII are not separators. *)
Definition is_separator (a : ascii) : bool :=
  let n := nat_of_ascii a in
  if (128 <=? n)%nat then false
  else negb (is_upper a || is_lower a || is_digit a || bool_decide (n = 95%nat)).

Fixpoint Title_go (prev_sep : bool) (s : string) : string :=
  match s with
  | EmptyString => EmptyString
  | String a s' =>
      String (if prev_sep then upper_char a else a) (Title_go (is_separator a) s')
  end.
Definition Title (s : string) : string := Title_go true s.

(** [fmt.Sprintf("%d", n)]. *)
Definition itoa (n : Z) : string := pretty n.

End Str.

(** ** Go values

    The part of Go's value universe the ORM touches through [reflect]:
    64-bit integers, strings, booleans, interface-typed slots,
    pointers, slices and structs.  A struct type carries its declaration:
    its name, whether it implements the [Model] interface (and with which
    receiver), and its fields with their [db] tags.  Type identity of
    structs is by name, as for Go's defined types. *)

Definition loc := nat.

(** [Model] interface: [TableName()] and [PrimaryKey()], declared on the
    struct itself or on its pointer. *)
Inductive ModelImpl : Type :=
| NoModel
| ModelByValue (tableName primaryKey : string)
| ModelByPtr (tableName primaryKey : string).

Record FieldDecl_ (T : Type) : Type := mkField {
  fname : string;
  ftype : T;
  ftag : string  (* the value of the [db] key of the struct tag, empty when absent *)
}.
Arguments mkField {T}.
Arguments fname {T}.
Arguments ftype {T}.
Arguments ftag {T}.

Record StructDecl_ (T : Type) : Type := mkStruct {
  sname : string;
  smodel : ModelImpl;
  sfields : list (FieldDecl_ T)
}.
Arguments mkStruct {T}.
Arguments sname {T}.
Arguments smodel {T}.
Arguments sfields {T}.

Inductive GoType : Type :=
| TInt64 | TString | TBool | TAny
| TPtr (t : GoType)
| TSlice (t : GoType)
| TStruct (d : StructDecl_ GoType).

Abbreviation FieldDecl := (FieldDecl_ GoType).
Abbreviation StructDecl := (StructDecl_ GoType).

Inductive Value : Type :=
| VInt (n : Z)
| VStr (s : string)
| VBool (b : bool)
| VAny (v : option Value)                    (* an interface-typed slot; [None] is the nil interface *)
| VPtr (t : GoType) (p : option loc)         (* pointer to [t]; [None] is the nil pointer *)
| VSlice (t : GoType) (s : option (list Value)) (* slice of [t]; [None] is the nil slice *)
| VStruct (d : StructDecl) (vals : list Value).

(** A Go [interface{}] holding a value, or nil. *)
Abbreviation any := (option Value).

(** ** Dialects (package dialect) *)

Record Dialect : Type := mkDialect {
  Name : string;
  Quote : string -> string;
  Placeholder : Z -> string
}.

Definition PostgresDialect : Dialect := {|
  Name := "postgres";
  Quote := fun identifier =>
    Str.dq +:+ Str.Replace identifier Str.dq_char (Str.dq +:+ Str.dq) +:+ Str.dq;
  Placeholder := fun position => "$" +:+ Str.itoa position
|}.

Definition MySQLDialect : Dialect := {|
  Name := "mysql";
  Quote := fun identifier =>
    Str.bq +:+ Str.Replace identifier Str.bq_char (Str.bq +:+ Str.bq) +:+ Str.bq;
  Placeholder := fun _ => "?"
|}.

Definition SQLiteDialect : Dialect := {|
  Name := "sqlite";
  Quote := fun identifier =>
    Str.dq +:+ Str.Replace identifier Str.dq_char (Str.dq +:+ Str.dq) +:+ Str.dq;
  Placeholder := fun _ => "?"
|}.

Definition GetDialect (name : string) : option Dialect :=
  if decide (name = "postgres") then Some PostgresDialect
  else if decide (name = "mysql") then Some MySQLDialect
  else if decide (name = "sqlite") then Some SQLiteDialect
  else None.

(** ** Enumeration of a Go map

    [for k, v := range m] visits every entry once, in an order the runtime
    picks anew for every loop. *)
Definition map_range {V : Type} (m : gmap string V) (rng : list (string * V)) : Prop :=
  rng ≡ₚ map_to_list m.

(** ** QueryBuilder (package sage) *)

Module QueryBuilder.

Record t : Type := mk {
  table : string;
  columns : list string;
  whereClause : list string;
  whereArgs : list any;
  orderBy : list string;
  limit : Z;
  offset : Z;
  joins : list string;
  groupBy : list string;
  havingClause : list string;
  havingArgs : list any;
  operation : string;
  values : gmap string any
}.

Definition NewQueryBuilder (table : string) : t :=
  mk table [] [] [] [] 0 0 [] [] [] [] "" ∅.

Definition Select (qb : t) (cols : list string) : t :=
  mk (table qb) cols (whereClause qb) (whereArgs qb) (orderBy qb) (limit qb)
     (offset qb) (joins qb) (groupBy qb) (havingClause qb) (havingArgs qb)
     "SELECT" (values qb).

Definition set_operation (qb : t) (op : string) : t :=
  mk (table qb) (columns qb) (whereClause qb) (whereArgs qb) (orderBy qb) (limit qb)
     (offset qb) (joins qb) (groupBy qb) (havingClause qb) (havingArgs qb)
     op (values qb).

Definition Insert (qb : t) : t := set_operation qb "INSERT".
Definition Update (qb : t) : t := set_operation qb "UPDATE".
Definition Delete (qb : t) : t := set_operation qb "DELETE".

Definition Where (qb : t) (condition : string) (args : list any) : t :=
  mk (table qb) (columns qb) (whereClause qb ++ [condition]) (whereArgs qb ++ args)
     (orderBy qb) (limit qb) (offset qb) (joins qb) (groupBy qb)
     (havingClause qb) (havingArgs qb) (operation qb) (values qb).

Definition OrderBy (qb : t) (cols : list string) : t :=
  mk (table qb) (columns qb) (whereClause qb) (whereArgs qb)
     (orderBy qb ++ cols) (limit qb) (offset qb) (joins qb) (groupBy qb)
     (havingClause qb) (havingArgs qb) (operation qb) (values qb).

Definition Limit (qb : t) (n : Z) : t :=
  mk (table qb) (columns qb) (whereClause qb) (whereArgs qb) (orderBy qb) n
     (offset qb) (joins qb) (groupBy qb) (havingClause qb) (havingArgs qb)
     (operation qb) (values qb).

Definition Offset (qb : t) (n : Z) : t :=
  mk (table qb) (columns qb) (whereClause qb) (whereArgs qb) (orderBy qb) (limit qb)
     n (joins qb) (groupBy qb) (havingClause qb) (havingArgs qb)
     (operation qb) (values qb).

Definition Join (qb : t) (join : string) : t :=
  mk (table qb) (columns qb) (whereClause qb) (whereArgs qb) (orderBy qb) (limit qb)
     (offset qb) (joins qb ++ [join]) (groupBy qb) (havingClause qb) (havingArgs qb)
     (operation qb) (values qb).

Definition GroupBy (qb : t) (cols : list string) : t :=
  mk (table qb) (columns qb) (whereClause qb) (whereArgs qb) (orderBy qb) (limit qb)
     (offset qb) (joins qb) (groupBy qb ++ cols) (havingClause qb) (havingArgs qb)
     (operation qb) (values qb).

Definition Having (qb : t) (condition : string) (args : list any) : t :=
  mk (table qb) (columns qb) (whereClause qb) (whereArgs qb) (orderBy qb) (limit qb)
     (offset qb) (joins qb) (groupBy qb) (havingClause qb ++ [condition])
     (havingArgs qb ++ args) (operation qb) (values qb).

Definition Set_ (qb : t) (column : string) (value : any) : t :=
  mk (table qb) (columns qb) (whereClause qb) (whereArgs qb) (orderBy qb) (limit qb)
     (offset qb) (joins qb) (groupBy qb) (havingClause qb) (havingArgs qb)
     (operation qb) (<[column := value]> (values qb)).

(** The WHERE fragment shared by the SELECT, UPDATE and DELETE cases. *)
Definition where_sql (qb : t) : string * list any :=
  match whereClause qb with
  | [] => ("", [])
  | _ => (" WHERE " +:+ Str.Join (whereClause qb) " AND ", whereArgs qb)
  end.

Definition select_sql (qb : t) : string * list any :=
  let cols := match columns qb with [] => "*" | _ => Str.Join (columns qb) ", " end in
  let js := String.concat "" (map (fun j => " " +:+ j) (joins qb)) in
  let '(w, wargs) := where_sql qb in
  let g := match groupBy qb with [] => "" | _ => " GROUP BY " +:+ Str.Join (groupBy qb) ", " end in
  let '(h, hargs) :=
    match havingClause qb with
    | [] => ("", [])
    | _ => (" HAVING " +:+ Str.Join (havingClause qb) " AND ", havingArgs qb)
    end in
  let o := match orderBy qb with [] => "" | _ => " ORDER BY " +:+ Str.Join (orderBy qb) ", " end in
  let l := if bool_decide (limit qb > 0) then " LIMIT " +:+ Str.itoa (limit qb) else "" in
  let f := if bool_decide (offset qb > 0) then " OFFSET " +:+ Str.itoa (offset qb) else "" in
  ("SELECT " +:+ cols +:+ " FROM " +:+ table qb +:+ js +:+ w +:+ g +:+ h +:+ o +:+ l +:+ f,
   wargs ++ hargs).

(** [Build], given the enumeration [rng] of [qb.values] that the two
    [range] loops of the INSERT and UPDATE cases perform. *)
Definition Build (qb : t) (rng : list (string * any)) : string * list any :=
  if decide (operation qb = "SELECT") then select_sql qb
  else if decide (operation qb = "INSERT") then
    ("INSERT INTO " +:+ table qb +:+ " (" +:+ Str.Join (map fst rng) ", "
       +:+ ") VALUES (" +:+ Str.Join (map (fun _ => "?") rng) ", " +:+ ")",
     map snd rng)
  else if decide (operation qb = "UPDATE") then
    let '(w, wargs) := where_sql qb in
    ("UPDATE " +:+ table qb +:+ " SET "
       +:+ Str.Join (map (fun cv => fst cv +:+ " = ?") rng) ", " +:+ w,
     map snd rng ++ wargs)
  else if decide (operation qb = "DELETE") then
    let '(w, wargs) := where_sql qb in
    ("DELETE FROM " +:+ table qb +:+ w, wargs)
  else ("", []).

End QueryBuilder.

(** ** Builder (package query), the dialect-aware builder *)

Module Builder.

Record t : Type := mk {
  dialect : Dialect;
  table : string;
  columns : list string;
  where_ : list string;
  whereArgs : list any;
  orderBy : list string;
  limit : Z;
  offset : Z;
  joins : list string;
  groupBy : list string;
  having : list string;
  havingArgs : list any;
  operation : string;
  values : gmap string any;
  returning : list string
}.

Definition NewBuilder (d : Dialect) (table : string) : t :=
  mk d table [] [] [] [] 0 0 [] [] [] [] "" ∅ [].

Definition Select (b : t) (cols : list string) : t :=
  mk (dialect b) (table b)
     (map (fun col => if decide (col = "*") then col else Quote (dialect b) col) cols)
     (where_ b) (whereArgs b) (orderBy b) (limit b) (offset b) (joins b)
     (groupBy b) (having b) (havingArgs b) "SELECT" (values b) (returning b).

Definition set_operation (b : t) (op : string) : t :=
  mk (dialect b) (table b) (columns b) (where_ b) (whereArgs b) (orderBy b)
     (limit b) (offset b) (joins b) (groupBy b) (having b) (havingArgs b)
     op (values b) (returning b).

Definition Insert (b : t) : t := set_operation b "INSERT".
Definition Update (b : t) : t := set_operation b "UPDATE".
Definition Delete (b : t) : t := set_operation b "DELETE".

(** The rewriting of the generic [?] tokens of a WHERE or HAVING
    condition: the i-th token becomes the dialect's placeholder for
    position [n + i], where [n] arguments are already recorded. *)
Fixpoint number_parts (d : Dialect) (n : Z) (i : Z) (parts : list string) : string :=
  match parts with
  | [] => ""
  | p :: ps => Placeholder d (n + i) +:+ p +:+ number_parts d n (i + 1) ps
  end.

Definition rewrite_placeholders (d : Dialect) (n : Z) (condition : string) : string :=
  if Str.Contains condition "?"%char then
    match Str.Split condition "?"%char with
    | [] => condition
    | p0 :: ps => p0 +:+ number_parts d n 1 ps
    end
  else condition.

Definition Where (b : t) (condition : string) (args : list any) : t :=
  let condition := rewrite_placeholders (dialect b) (Z.of_nat (length (whereArgs b))) condition in
  mk (dialect b) (table b) (columns b) (where_ b ++ [condition]) (whereArgs b ++ args)
     (orderBy b) (limit b) (offset b) (joins b) (groupBy b) (having b)
     (havingArgs b) (operation b) (values b) (returning b).

Definition Having (b : t) (condition : string) (args : list any) : t :=
  let condition := rewrite_placeholders (dialect b) (Z.of_nat (length (havingArgs b))) condition in
  mk (dialect b) (table b) (columns b) (where_ b) (whereArgs b)
     (orderBy b) (limit b) (offset b) (joins b) (groupBy b) (having b ++ [condition])
     (havingArgs b ++ args) (operation b) (values b) (returning b).

Definition Limit (b : t) (n : Z) : t :=
  mk (dialect b) (table b) (columns b) (where_ b) (whereArgs b) (orderBy b)
     n (offset b) (joins b) (groupBy b) (having b) (havingArgs b)
     (operation b) (values b) (returning b).

Definition Offset (b : t) (n : Z) : t :=
  mk (dialect b) (table b) (columns b) (where_ b) (whereArgs b) (orderBy b)
     (limit b) n (joins b) (groupBy b) (having b) (havingArgs b)
     (operation b) (values b) (returning b).

Definition GroupBy (b : t) (cols : list string) : t :=
  mk (dialect b) (table b) (columns b) (where_ b) (whereArgs b) (orderBy b)
     (limit b) (offset b) (joins b) (groupBy b ++ map (Quote (dialect b)) cols)
     (having b) (havingArgs b) (operation b) (values b) (returning b).

Definition Set_ (b : t) (column : string) (value : any) : t :=
  mk (dialect b) (table b) (columns b) (where_ b) (whereArgs b) (orderBy b)
     (limit b) (offset b) (joins b) (groupBy b) (having b) (havingArgs b)
     (operation b) (<[column := value]> (values b)) (returning b).

Definition Returning (b : t) (cols : list string) : t :=
  mk (dialect b) (table b) (columns b) (where_ b) (whereArgs b) (orderBy b)
     (limit b) (offset b) (joins b) (groupBy b) (having b) (havingArgs b)
     (operation b) (values b) (map (Quote (dialect b)) cols).

Definition where_sql (b : t) : string :=
  match where_ b with
  | [] => ""
  | _ => " WHERE " +:+ Str.Join (where_ b) " AND "
  end.

Definition returning_sql (b : t) : string :=
  match returning b with
  | [] => ""
  | _ => if decide (Name (dialect b) = "postgres")
         then " RETURNING " +:+ Str.Join (returning b) ", " else ""
  end.

Definition select_sql (b : t) : string * list any :=
  let cols := match columns b with [] => "*" | _ => Str.Join (columns b) ", " end in
  let js := String.concat "" (map (fun j => " " +:+ j) (joins b)) in
  let wargs := match where_ b with [] => [] | _ => whereArgs b end in
  let g := match groupBy b with [] => "" | _ => " GROUP BY " +:+ Str.Join (groupBy b) ", " end in
  let '(h, hargs) :=
    match having b with
    | [] => ("", [])
    | _ => (" HAVING " +:+ Str.Join (having b) " AND ", havingArgs b)
    end in
  let o := match orderBy b with [] => "" | _ => " ORDER BY " +:+ Str.Join (orderBy b) ", " end in
  let l := if bool_decide (limit b > 0) then " LIMIT " +:+ Str.itoa (limit b) else "" in
  let f := if bool_decide (offset b > 0) then " OFFSET " +:+ Str.itoa (offset b) else "" in
  ("SELECT " +:+ cols +:+ " FROM " +:+ Quote (dialect b) (table b) +:+ js
     +:+ where_sql b +:+ g +:+ h +:+ o +:+ l +:+ f,
   wargs ++ hargs).

(** The i-th entry of the enumeration, counted from [i]. *)
Fixpoint numbered {A : Type} (i : Z) (l : list A) : list (Z * A) :=
  match l with
  | [] => []
  | x :: l' => (i, x) :: numbered (i + 1) l'
  end.

(** [Build], given the enumeration [rng] of [b.values]. *)
Definition Build (b : t) (rng : list (string * any)) : string * list any :=
  let d := dialect b in
  let quotedTable := Quote d (table b) in
  if decide (operation b = "SELECT") then select_sql b
  else if decide (operation b = "INSERT") then
    ("INSERT INTO " +:+ quotedTable +:+ " ("
       +:+ Str.Join (map (fun cv => Quote d (fst cv)) rng) ", "
       +:+ ") VALUES ("
       +:+ Str.Join (map (fun icv => Placeholder d (fst icv)) (numbered 1 rng)) ", "
       +:+ ")" +:+ returning_sql b,
     map snd rng)
  else if decide (operation b = "UPDATE") then
    ("UPDATE " +:+ quotedTable +:+ " SET "
       +:+ Str.Join (map (fun icv => Quote d (fst (snd icv)) +:+ " = " +:+ Placeholder d (fst icv))
                         (numbered 1 rng)) ", "
       +:+ where_sql b +:+ returning_sql b,
     map snd rng ++ whereArgs b)
  else if decide (operation b = "DELETE") then
    ("DELETE FROM " +:+ quotedTable +:+ where_sql b +:+ returning_sql b, whereArgs b)
  else ("", []).

End Builder.

(** ** Errors and outcomes *)

Inductive error : Type :=
| ErrNotFound                      (* sage.ErrNotFound *)
| ErrNotAStruct                    (* sage.ErrNotAStruct *)
| ErrNoID                          (* sage.ErrNoID *)
| ErrNoRows                        (* sql.ErrNoRows *)
| ErrTxDone                        (* sql.ErrTxDone *)
| ErrNew (msg : string)            (* errors.New, fmt.Errorf without %w *)
| ErrWrap (msg : string) (e : error) (* fmt.Errorf("msg: %w", e) *)
| ErrDriver (msg : string).        (* an error reported by the driver *)

(** [err.Error()]. *)
Fixpoint Error (e : error) : string :=
  match e with
  | ErrNotFound => "record not found"
  | ErrNotAStruct => "model must be a struct"
  | ErrNoID => "model does not have an ID field"
  | ErrNoRows => "sql: no rows in result set"
  | ErrTxDone => "sql: transaction has already been committed or rolled back"
  | ErrNew msg => msg
  | ErrWrap msg e' => msg +:+ ": " +:+ Error e'
  | ErrDriver msg => msg
  end.

(** A call returns normally with a value, returns a non-nil error, or panics. *)
Inductive Out (A : Type) : Type :=
| Ok (a : A)
| Err (e : error)
| Panic (msg : string).
Arguments Ok {A}.
Arguments Err {A}.
Arguments Panic {A}.

(** What a library call hands back: a value or an error. *)
Inductive res (A : Type) : Type :=
| Good (a : A)
| Bad (e : error).
Arguments Good {A}.
Arguments Bad {A}.

(** ** Types of values *)

Definition typeOf (v : Value) : GoType :=
  match v with
  | VInt _ => TInt64
  | VStr _ => TString
  | VBool _ => TBool
  | VAny _ => TAny
  | VPtr t _ => TPtr t
  | VSlice t _ => TSlice t
  | VStruct d _ => TStruct d
  end.

(** Identity of types; struct types are identical when they have the same name. *)
Fixpoint type_eqb (t1 t2 : GoType) : bool :=
  match t1, t2 with
  | TInt64, TInt64 | TString, TString | TBool, TBool | TAny, TAny => true
  | TPtr a, TPtr b => type_eqb a b
  | TSlice a, TSlice b => type_eqb a b
  | TStruct d1, TStruct d2 => bool_decide (sname d1 = sname d2)
  | _, _ => false
  end.

(** The zero value of a type ([reflect.Zero], and what [reflect.New] points to). *)
Fixpoint zero (t : GoType) : Value :=
  match t with
  | TInt64 => VInt 0
  | TString => VStr ""
  | TBool => VBool false
  | TAny => VAny None
  | TPtr t' => VPtr t' None
  | TSlice t' => VSlice t' None
  | TStruct d => VStruct d (map (fun f => zero (ftype f)) (sfields d))
  end.

(** [time.Time] is a struct without exported fields; its instant is kept in
    the one field of the model. *)
Definition TimeDecl : StructDecl :=
  mkStruct "Time" NoModel [mkField "wall" TInt64 ""].
Definition Time (t : Z) : Value := VStruct TimeDecl [VInt t].

(** ** The database

    [database/sql] and the driver behind it.  A statement runs against a
    [Store]; a transaction works on its own copy of the store, which
    [Commit] installs and [Rollback] drops.  The reflective conversions of
    the [reflect] package, the clock and the runtime's choice of map
    enumeration orders are part of the same record of outside behaviour. *)

Record ExecResult : Type := mkResult {
  LastInsertId : res Z;
  RowsAffected : res Z
}.

Record Rows : Type := mkRows {
  Columns : res (list string);
  records : list (list any);
  rowsErr : option error     (* what [rows.Err()] reports after the last record *)
}.

(** Database migration (package schema). *)
Module Migration.
Record t : Type := mk {
  ID : Z;
  Name : string;
  Description : string;
  Up : string;
  Down : string;
  CreatedAt : Z;
  AppliedAt : option Z
}.
End Migration.

Record Driver : Type := mkDriver {
  Store : Type;
  run_exec : string -> list any -> Store -> res (ExecResult * Store);
  run_query : string -> list any -> Store -> res Rows;
  begin_err : Store -> option error;
  commit_err : Store -> option error;
  (** [rows.Scan] into a destination of the given type. *)
  convertAssign : any -> GoType -> res Value;
  (** [rows.Scan] of a ledger row into the seven fields of a [Migration]. *)
  scanMigration : list any -> res Migration.t;
  (** [reflect]: [ConvertibleTo] and [Convert]; [None] when not convertible. *)
  Convert : Value -> GoType -> option Value;
  Convert_same : forall v, Convert v (typeOf v) = Some v;
  (** [time.Now()] at the n-th consultation of the outside world. *)
  time_at : nat -> Z;
  (** the enumeration order of the map ranged over at the n-th consultation. *)
  range_order : forall A : Type, nat -> list A -> list A;
  range_order_perm : forall (A : Type) (n : nat) (l : list A), range_order A n l ≡ₚ l
}.
Arguments range_order d {A}.

Inductive Handle : Type :=
| OnDB
| OnTx (id : nat).

(** What the program asks of the database, in order. *)
Inductive Event : Type :=
| EvExec (h : Handle) (query : string) (args : list any)
| EvQuery (h : Handle) (query : string) (args : list any)
| EvBegin (id : nat)
| EvCommit (id : nat)
| EvRollback (id : nat).

Section WithDriver.

Context (D : Driver).

Record World : Type := mkWorld {
  heap : gmap loc Value;
  trace : list Event;
  store : Store D;
  txs : gmap nat (Store D);
  next_tx : nat;
  ticks : nat
}.

Definition M (A : Type) : Type := World -> Out A * World.

Definition ret {A : Type} (a : A) : M A := fun w => (Ok a, w).
Definition fail {A : Type} (e : error) : M A := fun w => (Err e, w).
Definition panic {A : Type} (msg : string) : M A := fun w => (Panic msg, w).

(** Sequencing: an error is returned to the caller at once
    ([if err != nil { return err }]), a panic unwinds. *)
Definition bind {A B : Type} (m : M A) (k : A -> M B) : M B :=
  fun w =>
    match m w with
    | (Ok a, w') => k a w'
    | (Err e, w') => (Err e, w')
    | (Panic p, w') => (Panic p, w')
    end.

(** [defer d]: [d] runs when [body] is left, however it is left; the
    deferred calls of this code base do not change the result. *)
Definition defer {A B : Type} (d : M B) (body : M A) : M A :=
  fun w =>
    let '(r, w1) := body w in
    let '(_, w2) := d w1 in
    (r, w2).

(** Lifting of library results. *)
Definition lift {A : Type} (r : res A) : M A :=
  match r with
  | Good a => ret a
  | Bad e => fail e
  end.

Definition set_heap (h : gmap loc Value) (w : World) : World :=
  mkWorld h (trace w) (store w) (txs w) (next_tx w) (ticks w).
Definition log (ev : Event) (w : World) : World :=
  mkWorld (heap w) (trace w ++ [ev]) (store w) (txs w) (next_tx w) (ticks w).
Definition set_store (s : Store D) (w : World) : World :=
  mkWorld (heap w) (trace w) s (txs w) (next_tx w) (ticks w).
Definition set_txs (t : gmap nat (Store D)) (w : World) : World :=
  mkWorld (heap w) (trace w) (store w) t (next_tx w) (ticks w).
Definition tick (w : World) : World :=
  mkWorld (heap w) (trace w) (store w) (txs w) (next_tx w) (S (ticks w)).

(** *** Heap *)

Definition load (l : loc) : M Value :=
  fun w => match heap w !! l with
           | Some v => (Ok v, w)
           | None => (Panic "invalid memory address or nil pointer dereference", w)
           end.

Definition store_at (l : loc) (v : Value) : M unit :=
  fun w => (Ok tt, set_heap (<[l := v]> (heap w)) w).

(** [reflect.New]: a fresh location holding the given value. *)
Definition alloc (v : Value) : M loc :=
  fun w => let l := fresh (dom (heap w)) in
           (Ok l, set_heap (<[l := v]> (heap w)) w).

(** *** Outside world *)

Definition time_Now : M Value :=
  fun w => (Ok (Time (time_at D (ticks w))), tick w).

Definition range {A : Type} (entries : list A) : M (list A) :=
  fun w => (Ok (range_order D (ticks w) entries), tick w).

(** *** database/sql *)

(** [db.ExecContext]: the statement runs on the store itself. *)
Definition DB_ExecContext (query : string) (args : list any) : M ExecResult :=
  fun w =>
    let w1 := log (EvExec OnDB query args) w in
    match run_exec D query args (store w1) with
    | Good (r, s') => (Ok r, set_store s' w1)
    | Bad e => (Err e, w1)
    end.

(** [db.QueryContext]. *)
Definition DB_QueryContext (query : string) (args : list any) : M Rows :=
  fun w =>
    let w1 := log (EvQuery OnDB query args) w in
    match run_query D query args (store w1) with
    | Good rs => (Ok rs, w1)
    | Bad e => (Err e, w1)
    end.

(** [db.BeginTx]. *)
Definition DB_BeginTx : M nat :=
  fun w =>
    match begin_err D (store w) with
    | Some e => (Err e, w)
    | None =>
        let id := next_tx w in
        (Ok id,
         log (EvBegin id)
             (mkWorld (heap w) (trace w) (store w) (<[id := store w]> (txs w))
                      (S id) (ticks w)))
    end.

(** [tx.ExecContext]: the statement runs on the transaction's copy. *)
Definition Tx_ExecContext (tx : nat) (query : string) (args : list any) : M ExecResult :=
  fun w =>
    let w1 := log (EvExec (OnTx tx) query args) w in
    match txs w1 !! tx with
    | None => (Err ErrTxDone, w1)
    | Some s =>
        match run_exec D query args s with
        | Good (r, s') => (Ok r, set_txs (<[tx := s']> (txs w1)) w1)
        | Bad e => (Err e, w1)
        end
    end.

Definition Tx_QueryContext (tx : nat) (query : string) (args : list any) : M Rows :=
  fun w =>
    let w1 := log (EvQuery (OnTx tx) query args) w in
    match txs w1 !! tx with
    | None => (Err ErrTxDone, w1)
    | Some s =>
        match run_query D query args s with
        | Good rs => (Ok rs, w1)
        | Bad e => (Err e, w1)
        end
    end.

(** [tx.Commit]: installs the transaction's copy; a finished transaction
    answers [ErrTxDone]. *)
Definition Tx_Commit (tx : nat) : M unit :=
  fun w =>
    let w1 := log (EvCommit tx) w in
    match txs w1 !! tx with
    | None => (Err ErrTxDone, w1)
    | Some s =>
        match commit_err D s with
        | Some e => (Err e, set_txs (delete tx (txs w1)) w1)
        | None => (Ok tt, set_store s (set_txs (delete tx (txs w1)) w1))
        end
    end.

(** [tx.Rollback]: drops the transaction's copy; a finished transaction
    answers [ErrTxDone] and nothing changes. *)
Definition Tx_Rollback (tx : nat) : M unit :=
  fun w =>
    let w1 := log (EvRollback tx) w in
    match txs w1 !! tx with
    | None => (Err ErrTxDone, w1)
    | Some _ => (Ok tt, set_txs (delete tx (txs w1)) w1)
    end.

End WithDriver.

Arguments heap {D}.
Arguments trace {D}.
Arguments store {D}.
Arguments txs {D}.
Arguments next_tx {D}.
Arguments ticks {D}.
Arguments ret {D A}.
Arguments fail {D A}.
Arguments panic {D A}.
Arguments bind {D A B}.
Arguments defer {D A B}.
Arguments lift {D A}.
Arguments load {D}.
Arguments store_at {D}.
Arguments alloc {D}.
Arguments range {D A}.

Declare Scope go_scope.
Delimit Scope go_scope with go.
Notation "x <- m ;; k" := (bind m (fun x => k))
  (at level 100, m at next level, right associativity) : go_scope.
Notation "m ;;; k" := (bind m (fun _ => k))
  (at level 100, right associativity) : go_scope.
Open Scope go_scope.

(** ** Model metadata (package sage, model.go) *)

Module FieldInfo.
(** The fields of [FieldInfo] read by the operations below; [Type],
    [Nullable], [Unique], [Index], [Size], [Precision], [Scale] and
    [Tags] are filled in by the source and never read by them. *)
Record t : Type := mk {
  Name : string;
  DBName : string;
  IsKey : bool;
  IsAuto : bool
}.
End FieldInfo.

Module ModelInfo.
Record t : Type := mk {
  TableName : string;
  PrimaryKey : string;
  Fields : list FieldInfo.t
}.
End ModelInfo.

(** [toSnakeCase]: an underscore before every upper-case letter but the
    first byte, then lower case. *)
Fixpoint snake_go (first : bool) (s : string) : string :=
  match s with
  | EmptyString => EmptyString
  | String a s' =>
      if negb first && Str.is_upper a
      then String "_"%char (String a (snake_go false s'))
      else String a (snake_go false s')
  end.
Definition toSnakeCase (s : string) : string := Str.ToLower (snake_go true s).

(** [toFieldName]: snake_case column name to CamelCase field name. *)
Definition toFieldName (columnName : string) : string :=
  Str.Join (map Str.Title (Str.Split columnName "_"%char)) "".

(** [reflect.StructField.IsExported]. *)
Definition IsExported (f : FieldDecl) : bool :=
  match fname f with
  | EmptyString => false
  | String a _ => Str.is_upper a
  end.

(** The loop over the options of a [db] tag, after the column name. *)
Fixpoint tag_options (opts : list string) (dbName : string)
    (acc : bool * bool * option string) : bool * bool * option string :=
  match opts with
  | [] => acc
  | opt :: rest =>
      let '(isKey, isAuto, pk) := acc in
      if decide (opt = "pk") then tag_options rest dbName (true, isAuto, Some dbName)
      else if decide (opt = "auto") then tag_options rest dbName (isKey, true, pk)
      else tag_options rest dbName acc
  end.

(** The loop over the struct fields of [extractModelInfo]. *)
Fixpoint model_fields (fs : list FieldDecl) (primaryKey : string)
    (acc : list FieldInfo.t) : string * list FieldInfo.t :=
  match fs with
  | [] => (primaryKey, acc)
  | field :: rest =>
      if negb (IsExported field) then model_fields rest primaryKey acc
      else if decide (ftag field = "-") then model_fields rest primaryKey acc
      else
        let tagParts := Str.Split (ftag field) ","%char in
        let dbName :=
          match tagParts with
          | p0 :: _ => if decide (p0 = "") then toSnakeCase (fname field) else p0
          | [] => toSnakeCase (fname field)
          end in
        let '(isKey, isAuto, pk) := tag_options (tail tagParts) dbName (false, false, None) in
        model_fields rest (default primaryKey pk)
                     (acc ++ [FieldInfo.mk (fname field) dbName isKey isAuto])
  end.

(** [model.(Model)]: the dynamic type of [model] has the two methods. *)
Definition asModel (model : Value) (d : StructDecl) : option (string * string) :=
  match model, smodel d with
  | VPtr _ _, ModelByValue tn pk => Some (tn, pk)
  | VPtr _ _, ModelByPtr tn pk => Some (tn, pk)
  | VStruct _ _, ModelByValue tn pk => Some (tn, pk)
  | _, _ => None
  end.

(** The metadata [extractModelInfo] derives for a struct [d] handed over
    as [model]: table name and primary key from the [Model] interface when
    it is implemented, else the snake-cased type name and [id]; a field
    tagged [pk] overrides the primary key. *)
Definition modelInfoOf (model : Value) (d : StructDecl) : ModelInfo.t :=
  let tp :=
    match asModel model d with
    | Some tp => tp
    | None => (toSnakeCase (sname d), "id")
    end in
  let pf := model_fields (sfields d) (snd tp) [] in
  ModelInfo.mk (fst tp) (fst pf) (snd pf).

(** [Connection] (connection.go); the pool settings play no part here. *)
Module ConnectionOptions.
Record t : Type := mk {
  Driver : string;
  DSN : string
}.
End ConnectionOptions.

Record Connection : Type := mkConnection {
  options : ConnectionOptions.t
}.

(** A [reflect.Value] after [reflect.ValueOf(x)] and the optional [Elem]:
    the zero Value, a copy of a value, or the variable a pointer points to
    (addressable; it is read when it is used). *)
Inductive RValue : Type :=
| RInvalid
| RVal (v : Value)
| RRef (l : loc).

(** A [reflect.Value] for a struct field: the struct it belongs to, its
    position and its declaration. *)
Record Field : Type := mkFieldValue {
  f_of : RValue;
  f_index : nat;
  f_decl : FieldDecl
}.

Fixpoint lookup_field (name : string) (fs : list FieldDecl) (i : nat)
    : option (nat * FieldDecl) :=
  match fs with
  | [] => None
  | f :: fs' =>
      if decide (fname f = name) then Some (i, f)
      else lookup_field name fs' (S i)
  end.

(** [v.Interface()] for a value held in a variable or a field: the content
    of an interface-typed slot, the value itself otherwise. *)
Definition ifaceOf (v : Value) : any :=
  match v with
  | VAny o => o
  | _ => Some v
  end.

(** [reflect.ValueOf(model)] followed by
    [if v.Kind() == reflect.Ptr { v = v.Elem() }]. *)
Definition indirect (model : any) : RValue :=
  match model with
  | None => RInvalid
  | Some (VPtr _ None) => RInvalid
  | Some (VPtr _ (Some l)) => RRef l
  | Some v => RVal v
  end.

(** Comparison with the zero value of the value's own type, which is what
    [reflect.DeepEqual(v.Interface(), reflect.Zero(v.Type()).Interface())]
    decides. *)
Fixpoint is_zero (v : Value) : bool :=
  match v with
  | VInt n => bool_decide (n = 0)
  | VStr s => bool_decide (s = "")
  | VBool b => negb b
  | VAny o => match o with None => true | Some _ => false end
  | VPtr _ p => match p with None => true | Some _ => false end
  | VSlice _ s => match s with None => true | Some _ => false end
  | VStruct _ vals => forallb is_zero vals
  end.

Section CRUD.

Context (D : Driver).
Abbreviation M := (M D).

(** The value a [reflect.Value] stands for at this moment. *)
Definition current (rv : RValue) : M (option Value) :=
  match rv with
  | RInvalid => ret None
  | RVal v => ret (Some v)
  | RRef l => v <- load l ;; ret (Some v)
  end.

Definition extractModelInfo (model : any) : M ModelInfo.t :=
  v <- current (indirect model) ;;
  match model, v with
  | Some m, Some (VStruct d _) => ret (modelInfoOf m d)
  | _, _ => fail ErrNotAStruct
  end.

(** [v.FieldByName(name)]; [None] is the zero [reflect.Value].  The call
    panics when [v] is not a struct. *)
Definition FieldByName (v : RValue) (name : string) : M (option Field) :=
  c <- current v ;;
  match c with
  | Some (VStruct d _) =>
      match lookup_field name (sfields d) 0 with
      | Some (i, f) => ret (Some (mkFieldValue v i f))
      | None => ret None
      end
  | _ => panic "reflect: call of reflect.Value.FieldByName on non-struct Value"
  end.

(** The value a field holds at this moment. *)
Definition field_value (f : Field) : M Value :=
  c <- current (f_of f) ;;
  match c with
  | Some (VStruct _ vals) =>
      match vals !! f_index f with
      | Some x => ret x
      | None => panic "reflect: Field index out of range"
      end
  | _ => panic "reflect: call of reflect.Value.Field on non-struct Value"
  end.

(** [fieldValue.Interface()]: panics on the zero Value and on a value
    obtained from an unexported field. *)
Definition Interface (f : option Field) : M any :=
  match f with
  | Some fv =>
      if IsExported (f_decl fv) then x <- field_value fv ;; ret (ifaceOf x)
      else panic "reflect.Value.Interface: cannot return value obtained from unexported field or method"
  | None => panic "reflect: call of reflect.Value.Interface on zero Value"
  end.

Definition CanSet (f : option Field) : bool :=
  match f with
  | Some fv =>
      match f_of fv with
      | RRef _ => IsExported (f_decl fv)
      | _ => false
      end
  | None => false
  end.

(** Writing position [i] of the struct at [l]. *)
Definition write_field (l : loc) (i : nat) (x : Value) : M unit :=
  s <- load l ;;
  match s with
  | VStruct d vals => store_at l (VStruct d (<[i := x]> vals))
  | _ => panic "reflect: call of reflect.Value.Field on non-struct Value"
  end.

(** [fieldValue.Set(x)]: panics unless the field can be set and the type
    of [x] is assignable to the field's type; a concrete value stored in
    an interface-typed field is wrapped. *)
Definition Set_ (f : option Field) (x : Value) : M unit :=
  match f with
  | Some fv =>
      match f_of fv with
      | RRef l =>
          if negb (IsExported (f_decl fv))
          then panic "reflect.Value.Set using value obtained using unexported field"
          else if type_eqb (typeOf x) (ftype (f_decl fv)) then write_field l (f_index fv) x
          else if type_eqb (ftype (f_decl fv)) TAny then write_field l (f_index fv) (VAny (Some x))
          else panic "reflect.Set: value is not assignable to type"
      | _ => panic "reflect.Value.Set using unaddressable value"
      end
  | None => panic "reflect: call of reflect.Value.Set on zero Value"
  end.

(** [v.IsNil()] on a value: defined for pointers, slices and interfaces. *)
Definition IsNil (x : Value) : M bool :=
  match x with
  | VPtr _ p => ret (bool_decide (p = None))
  | VSlice _ s => ret (bool_decide (s = None))
  | VAny o => ret (bool_decide (o = None))
  | _ => panic "reflect: call of reflect.Value.IsNil on a value that cannot be nil"
  end.

(** [v.Elem()] on a value: defined for pointers and interfaces. *)
Definition Elem (x : Value) : M RValue :=
  match x with
  | VPtr _ (Some l) => ret (RRef l)
  | VPtr _ None => ret RInvalid
  | VAny (Some v) => ret (RVal v)
  | VAny None => ret RInvalid
  | _ => panic "reflect: call of reflect.Value.Elem on a value that is neither pointer nor interface"
  end.

(** [qb.Build()] within a run: the INSERT and UPDATE cases range over
    the map of values. *)
Definition QB_Build (qb : QueryBuilder.t) : M (string * list any) :=
  if decide (QueryBuilder.operation qb = "SELECT") then ret (QueryBuilder.Build qb [])
  else if decide (QueryBuilder.operation qb = "INSERT"
                  ∨ QueryBuilder.operation qb = "UPDATE") then
    rng <- range (map_to_list (QueryBuilder.values qb)) ;;
    ret (QueryBuilder.Build qb rng)
  else ret (QueryBuilder.Build qb []).

(** *** Create *)

(** The first loop of [Create]: every field but an auto-increment key is
    recorded with [Set]. *)
Fixpoint create_sets (v : RValue) (fields : list FieldInfo.t)
    (qb : QueryBuilder.t) : M QueryBuilder.t :=
  match fields with
  | [] => ret qb
  | field :: rest =>
      if FieldInfo.IsKey field && FieldInfo.IsAuto field then create_sets v rest qb
      else
        fieldValue <- FieldByName v (FieldInfo.Name field) ;;
        x <- Interface fieldValue ;;
        create_sets v rest (QueryBuilder.Set_ qb (FieldInfo.DBName field) x)
  end.

(** The second loop of [Create]: the first auto-increment key field
    receives the identifier, converted to the field's type. *)
Fixpoint set_generated_id (v : RValue) (fields : list FieldInfo.t) (id : Z) : M unit :=
  match fields with
  | [] => ret tt
  | field :: rest =>
      if FieldInfo.IsKey field && FieldInfo.IsAuto field then
        idField <- FieldByName v (FieldInfo.Name field) ;;
        if CanSet idField then
          match idField with
          | Some fv =>
              match Convert D (VInt id) (ftype (f_decl fv)) with
              | Some x => Set_ idField x
              | None => panic "reflect.Value.Convert: value of type int64 cannot be converted"
              end
          | None => ret tt
          end
        else ret tt
      else set_generated_id v rest id
  end.

Definition Create (c : Connection) (model : any) : M unit :=
  info <- extractModelInfo model ;;
  let qb := QueryBuilder.Insert (QueryBuilder.NewQueryBuilder (ModelInfo.TableName info)) in
  let v := indirect model in
  qb <- create_sets v (ModelInfo.Fields info) qb ;;
  qa <- QB_Build qb ;;
  result <- DB_ExecContext D (fst qa) (snd qa) ;;
  match LastInsertId result with
  | Good id => set_generated_id v (ModelInfo.Fields info) id
  | Bad _ => ret tt
  end.

(** *** Find *)

(** [scanFields]: the settable fields, in declaration order. *)
Fixpoint settable_fields (fs : list FieldDecl) (i : nat) : list (nat * FieldDecl) :=
  match fs with
  | [] => []
  | f :: fs' =>
      if IsExported f then (i, f) :: settable_fields fs' (S i)
      else settable_fields fs' (S i)
  end.

(** [rows.Scan(dest...)]: the columns are converted and stored one after
    the other; the first failing conversion ends the scan.  (The texts of
    the messages of database/sql are abridged.) *)
Fixpoint scan_into (l : loc) (dests : list (nat * FieldDecl)) (cols : list any)
    (i : nat) : M unit :=
  match dests, cols with
  | (ix, f) :: dests', col :: cols' =>
      match convertAssign D col (ftype f) with
      | Good x => write_field l ix x ;;; scan_into l dests' cols' (S i)
      | Bad e => fail (ErrWrap ("sql: Scan error on column index " +:+ pretty i) e)
      end
  | _, _ => ret tt
  end.

(** [row.Scan(dest...)] on the result of [QueryRowContext]. *)
Definition Row_Scan (row : res Rows) (l : loc) (dests : list (nat * FieldDecl))
    : M unit :=
  match row with
  | Bad e => fail e
  | Good rs =>
      match records rs with
      | [] =>
          match rowsErr rs with
          | Some e => fail e
          | None => fail ErrNoRows
          end
      | cols :: _ =>
          if bool_decide (length dests = length cols) then scan_into l dests cols 0
          else fail (ErrNew ("sql: expected " +:+ pretty (length cols)
                               +:+ " destination arguments in Scan, not "
                               +:+ pretty (length dests)))
      end
  end.

(** [db.QueryRowContext]: the error of the query is kept for [Scan]. *)
Definition DB_QueryRowContext (query : string) (args : list any) : M (res Rows) :=
  fun w =>
    match DB_QueryContext D query args w with
    | (Ok rs, w1) => (Ok (Good rs), w1)
    | (Err e, w1) => (Ok (Bad e), w1)
    | (Panic p, w1) => (Panic p, w1)
    end.

(** [if err == sql.ErrNoRows { return ErrNotFound }; return err]. *)
Definition no_rows_is_not_found (r : Out unit) : Out unit :=
  match r with
  | Err ErrNoRows => Err ErrNotFound
  | _ => r
  end.

Definition scanRow (c : Connection) (model : any) (query : string) (args : list any)
    : M unit :=
  match model with
  | Some (VPtr _ (Some l)) =>
      row <- DB_QueryRowContext query args ;;
      v <- load l ;;
      match v with
      | VStruct d _ =>
          fun w =>
            let '(r, w1) := Row_Scan row l (settable_fields (sfields d) 0) w in
            (no_rows_is_not_found r, w1)
      | _ => fail ErrNotAStruct
      end
  | _ => fail (ErrNew "model must be a non-nil pointer")
  end.

Definition Find (c : Connection) (model : any) (id : any) : M unit :=
  info <- extractModelInfo model ;;
  let qb := QueryBuilder.Select (QueryBuilder.NewQueryBuilder (ModelInfo.TableName info)) [] in
  let qb := QueryBuilder.Where qb (ModelInfo.PrimaryKey info +:+ " = ?") [id] in
  qa <- QB_Build qb ;;
  scanRow c model (fst qa) (snd qa).

(** *** Update *)

(** The loop of [Update]: a key field gives [idValue], any other field is
    recorded with [Set]. *)
Fixpoint update_sets (v : RValue) (fields : list FieldInfo.t)
    (idValue : any) (qb : QueryBuilder.t) : M (any * QueryBuilder.t) :=
  match fields with
  | [] => ret (idValue, qb)
  | field :: rest =>
      fieldValue <- FieldByName v (FieldInfo.Name field) ;;
      x <- Interface fieldValue ;;
      if FieldInfo.IsKey field then update_sets v rest x qb
      else update_sets v rest idValue (QueryBuilder.Set_ qb (FieldInfo.DBName field) x)
  end.

(** The common end of [Update] and [Delete]. *)
Definition exec_affecting (query : string) (args : list any) : M unit :=
  result <- DB_ExecContext D query args ;;
  affected <- lift (RowsAffected result) ;;
  if bool_decide (affected = 0) then fail ErrNotFound else ret tt.

Definition Update (c : Connection) (model : any) : M unit :=
  info <- extractModelInfo model ;;
  let qb := QueryBuilder.Update (QueryBuilder.NewQueryBuilder (ModelInfo.TableName info)) in
  let v := indirect model in
  iq <- update_sets v (ModelInfo.Fields info) None qb ;;
  match fst iq with
  | None => fail ErrNoID
  | Some idValue =>
      let qb := QueryBuilder.Where (snd iq) (ModelInfo.PrimaryKey info +:+ " = ?") [Some idValue] in
      qa <- QB_Build qb ;;
      exec_affecting (fst qa) (snd qa)
  end.

(** *** Delete *)

(** The loop of [Delete]: the first key field gives [idValue]. *)
Fixpoint delete_key (v : RValue) (fields : list FieldInfo.t) : M any :=
  match fields with
  | [] => ret None
  | field :: rest =>
      if FieldInfo.IsKey field then
        fieldValue <- FieldByName v (FieldInfo.Name field) ;;
        Interface fieldValue
      else delete_key v rest
  end.

Definition Delete (c : Connection) (model : any) : M unit :=
  info <- extractModelInfo model ;;
  let v := indirect model in
  idValue <- delete_key v (ModelInfo.Fields info) ;;
  match idValue with
  | None => fail ErrNoID
  | Some x =>
      let qb := QueryBuilder.Delete (QueryBuilder.NewQueryBuilder (ModelInfo.TableName info)) in
      let qb := QueryBuilder.Where qb (ModelInfo.PrimaryKey info +:+ " = ?") [Some x] in
      qa <- QB_Build qb ;;
      exec_affecting (fst qa) (snd qa)
  end.

(** ** Transactions (transaction.go) *)

(** [Connection.WithTransaction]: the deferred closure rolls back when
    the body panicked (and panics again), or when the body returned an
    error; otherwise the result is that of [Commit]. *)
Definition WithTransaction (c : Connection) (fn : nat -> M unit) : M unit :=
  tx <- DB_BeginTx D ;;
  fun w1 =>
    match fn tx w1 with
    | (Panic p, w2) => let '(_, w3) := Tx_Rollback D tx w2 in (Panic p, w3)
    | (Err e, w2) => let '(_, w3) := Tx_Rollback D tx w2 in (Err e, w3)
    | (Ok _, w2) =>
        match Tx_Commit D tx w2 with
        | (Panic p, w3) => let '(_, w4) := Tx_Rollback D tx w3 in (Panic p, w4)
        | r => r
        end
    end.

End CRUD.

(** ** Executor (package query) *)

Module Executor.

Record t : Type := mk {
  db : bool;          (* whether the [db] handle is set *)
  tx : option nat     (* the transaction, when the executor runs in one *)
}.

Definition NewExecutor : t := mk true None.
Definition NewTxExecutor (tx : nat) : t := mk false (Some tx).

Section WithDriver.

Context (D : Driver).

(** [Exec], through [getExecer]. *)
Definition Exec (e : t) (query : string) (args : list any) : M D ExecResult :=
  match tx e with
  | Some id => Tx_ExecContext D id query args
  | None =>
      if db e then DB_ExecContext D query args
      else panic "invalid memory address or nil pointer dereference"
  end.

(** [Executor.WithTransaction]: no deferred call; the transaction is
    rolled back when the function returns an error and committed when
    it returns nil. *)
Definition WithTransaction (e : t) (fn : t -> M D unit) : M D unit :=
  if db e then
    tx <- DB_BeginTx D ;;
    fun w1 =>
      match fn (NewTxExecutor tx) w1 with
      | (Err err, w2) => let '(_, w3) := Tx_Rollback D tx w2 in (Err err, w3)
      | (Ok _, w2) => Tx_Commit D tx w2
      | (Panic p, w2) => (Panic p, w2)
      end
  else panic "invalid memory address or nil pointer dereference".

End WithDriver.

End Executor.

(** ** MigrationManager (package schema) *)

Module MigrationManager.

Record t : Type := mk {
  tableName : string
}.

Definition NewMigrationManager (tableName : string) : t :=
  mk (if decide (tableName = "") then "migrations" else tableName).

Section WithDriver.

Context (D : Driver).

Definition line (s : string) : string := Str.nl +:+ Str.tab +:+ Str.tab +:+ s.

Definition createTableQuery (m : t) : string :=
  "CREATE TABLE IF NOT EXISTS " +:+ tableName m +:+ " ("
    +:+ line "id SERIAL PRIMARY KEY,"
    +:+ line "name VARCHAR(255) NOT NULL UNIQUE,"
    +:+ line "description TEXT,"
    +:+ line "up TEXT NOT NULL,"
    +:+ line "down TEXT,"
    +:+ line "created_at TIMESTAMP NOT NULL DEFAULT CURRENT_TIMESTAMP,"
    +:+ line "applied_at TIMESTAMP"
    +:+ Str.nl +:+ Str.tab +:+ ")".

Definition pendingQuery (m : t) : string :=
  "SELECT id, name, description, up, down, created_at, applied_at"
    +:+ line "FROM " +:+ tableName m
    +:+ line "WHERE applied_at IS NULL"
    +:+ line "ORDER BY id ASC".

Definition appliedQuery (m : t) : string :=
  "SELECT id, name, description, up, down, created_at, applied_at"
    +:+ line "FROM " +:+ tableName m
    +:+ line "WHERE applied_at IS NOT NULL"
    +:+ line "ORDER BY id DESC".

Definition markAppliedQuery (m : t) : string :=
  "UPDATE " +:+ tableName m +:+ " SET applied_at = $1 WHERE id = $2".

Definition markUnappliedQuery (m : t) : string :=
  "UPDATE " +:+ tableName m +:+ " SET applied_at = NULL WHERE id = $1".

Definition CreateMigrationsTable (m : t) : M D unit :=
  DB_ExecContext D (createTableQuery m) [] ;;; ret tt.

(** The loop [for rows.Next() { rows.Scan(...) }] over ledger rows. *)
Fixpoint scan_migrations (rs : list (list any)) : res (list Migration.t) :=
  match rs with
  | [] => Good []
  | r :: rs' =>
      match scanMigration D r with
      | Bad e => Bad e
      | Good mg =>
          match scan_migrations rs' with
          | Bad e => Bad e
          | Good mgs => Good (mg :: mgs)
          end
      end
  end.

Definition load_migrations (query : string) : M D (list Migration.t) :=
  rows <- DB_QueryContext D query [] ;;
  migrations <- lift (scan_migrations (records rows)) ;;
  match rowsErr rows with
  | Some e => fail e
  | None => ret migrations
  end.

Definition GetPendingMigrations (m : t) : M D (list Migration.t) :=
  load_migrations (pendingQuery m).

Definition GetAppliedMigrations (m : t) : M D (list Migration.t) :=
  load_migrations (appliedQuery m).

(** [fmt.Errorf("msg: %w", err)] around a failing call. *)
Definition wrapping {A : Type} (msg : string) (m : M D A) : M D A :=
  fun w =>
    match m w with
    | (Err e, w1) => (Err (ErrWrap msg e), w1)
    | r => r
    end.

(** The body of the loop of [MigrateUp]. *)
Definition apply_migration (m : t) (tx : nat) (migration : Migration.t) : M D unit :=
  wrapping ("failed to apply migration " +:+ Migration.Name migration)
           (Tx_ExecContext D tx (Migration.Up migration) []) ;;;
  now <- time_Now D ;;
  wrapping ("failed to mark migration " +:+ Migration.Name migration +:+ " as applied")
           (Tx_ExecContext D tx (markAppliedQuery m)
                           [Some now; Some (VInt (Migration.ID migration))]) ;;;
  ret tt.

Fixpoint apply_migrations (m : t) (tx : nat) (migrations : list Migration.t) : M D unit :=
  match migrations with
  | [] => ret tt
  | migration :: rest => apply_migration m tx migration ;;; apply_migrations m tx rest
  end.

Definition MigrateUp (m : t) : M D unit :=
  CreateMigrationsTable m ;;;
  migrations <- GetPendingMigrations m ;;
  tx <- DB_BeginTx D ;;
  defer (Tx_Rollback D tx)
        (apply_migrations m tx migrations ;;; Tx_Commit D tx).

Definition MigrateDown (m : t) : M D unit :=
  migrations <- GetAppliedMigrations m ;;
  match migrations with
  | [] => fail (ErrNew "no migrations to revert")
  | lastMigration :: _ =>
      tx <- DB_BeginTx D ;;
      defer (Tx_Rollback D tx)
            (wrapping ("failed to revert migration " +:+ Migration.Name lastMigration)
                      (Tx_ExecContext D tx (Migration.Down lastMigration) []) ;;;
             wrapping ("failed to mark migration " +:+ Migration.Name lastMigration
                         +:+ " as unapplied")
                      (Tx_ExecContext D tx (markUnappliedQuery m)
                                      [Some (VInt (Migration.ID lastMigration))]) ;;;
             Tx_Commit D tx)
  end.

End WithDriver.

End MigrationManager.

(** ** Relationships (package sage, relationships.go) *)

Definition HasOne : Z := 0.
Definition BelongsTo : Z := 1.
Definition HasMany : Z := 2.
Definition ManyToMany : Z := 3.

Module Relationship.
Record t : Type := mk {
  Type_ : Z;
  Model : any;
  ForeignKey : string;
  ReferenceKey : string;
  JoinTable : string;
  JoinForeignKey : string;
  JoinRefKey : string;
  Preload : bool
}.
End Relationship.

Module NestedOption.
Record t : Type := mk {
  AutoSave : bool;
  AutoDelete : bool;
  SkipValidation : bool;
  NullifyOnDelete : bool;
  Preload : bool
}.
End NestedOption.

Definition DefaultNestedOption : NestedOption.t :=
  NestedOption.mk true false false false false.

Section Relationships.

Context (D : Driver).
Abbreviation M := (M D).

Definition validateRelationship (rel : Relationship.t) : M unit :=
  match Relationship.Model rel with
  | None => fail (ErrNew "model is required for relationship")
  | Some _ =>
      let ty := Relationship.Type_ rel in
      if decide (ty = HasOne ∨ ty = BelongsTo ∨ ty = HasMany) then
        if decide (Relationship.ForeignKey rel = "")
        then fail (ErrNew "foreign key is required for HasOne, BelongsTo, and HasMany relationships")
        else if decide (Relationship.ReferenceKey rel = "")
        then fail (ErrNew "reference key is required for HasOne, BelongsTo, and HasMany relationships")
        else ret tt
      else if decide (ty = ManyToMany) then
        if decide (Relationship.JoinTable rel = "")
        then fail (ErrNew "join table is required for ManyToMany relationship")
        else if decide (Relationship.JoinForeignKey rel = "")
        then fail (ErrNew "join foreign key is required for ManyToMany relationship")
        else if decide (Relationship.JoinRefKey rel = "")
        then fail (ErrNew "join reference key is required for ManyToMany relationship")
        else ret tt
      else fail (ErrNew ("invalid relationship type: " +:+ Str.itoa ty))
  end.

(** [relType := reflect.TypeOf(rel.Model)], dereferenced when it is a
    pointer type; a nil [rel.Model] has no type and the first use of it
    panics. *)
Definition relTypeOf (rel : Relationship.t) : M GoType :=
  match Relationship.Model rel with
  | Some v => ret (match typeOf v with TPtr t => t | t => t end)
  | None => panic "invalid memory address or nil pointer dereference"
  end.

(** [reflect.New(t).Interface()]. *)
Definition new_model (t : GoType) : M any :=
  l <- alloc (zero t) ;; ret (Some (VPtr t (Some l))).

(** The inner loop of the row mapping: the first field whose column name
    matches [col] without regard to case receives the value, when the
    value converts to the field's type. *)
Fixpoint map_column (relValue : RValue) (fields : list FieldInfo.t)
    (col : string) (x : any) : M unit :=
  match fields with
  | [] => ret tt
  | field :: rest =>
      if Str.EqualFold (FieldInfo.DBName field) col then
        fValue <- FieldByName D relValue (FieldInfo.Name field) ;;
        if CanSet fValue then
          match x, fValue with
          | None, _ => panic "reflect: call of reflect.Value.Type on zero Value"
          | Some val, Some fv =>
              match Convert D val (ftype (f_decl fv)) with
              | Some y => Set_ D fValue y
              | None => ret tt
              end
          | Some _, None => ret tt
          end
        else ret tt
      else map_column relValue rest col x
  end.

Fixpoint map_columns (relValue : RValue) (fields : list FieldInfo.t)
    (columns : list string) (values : list any) : M unit :=
  match columns, values with
  | col :: columns', x :: values' =>
      map_column relValue fields col x ;;; map_columns relValue fields columns' values'
  | _, _ => ret tt
  end.

(** One row into a fresh related record: [reflect.New(relType).Elem()],
    [rows.Scan(values...)], then the mapping of the columns. *)
Definition scan_related (relType : GoType) (relInfo : ModelInfo.t)
    (columns : list string) (row : list any) : M loc :=
  l <- alloc (zero relType) ;;
  if bool_decide (length row = length columns) then
    map_columns (RRef l) (ModelInfo.Fields relInfo) columns row ;;; ret l
  else fail (ErrNew ("sql: expected " +:+ pretty (length row)
                       +:+ " destination arguments in Scan, not "
                       +:+ pretty (length columns))).

(** The loop [for rows.Next()] of the two collection preloads. *)
Fixpoint collect (relType : GoType) (relInfo : ModelInfo.t) (columns : list string)
    (elemT : GoType) (rs : list (list any)) (newSlice : list Value) : M (list Value) :=
  match rs with
  | [] => ret newSlice
  | row :: rs' =>
      l <- scan_related relType relInfo columns row ;;
      x <- (match elemT with
            | TPtr _ => ret (VPtr relType (Some l))
            | _ => load l
            end) ;;
      if type_eqb (typeOf x) elemT
      then collect relType relInfo columns elemT rs' (newSlice ++ [x])
      else if type_eqb elemT TAny
      then collect relType relInfo columns elemT rs' (newSlice ++ [VAny (Some x)])
      else panic "reflect.Append: value is not assignable to the element type"
  end.

(** The end shared by [preloadHasMany] and [preloadManyToMany], from
    [rows.Columns()] on. *)
Definition fill_collection (sourceValue : RValue) (field : string)
    (relType : GoType) (relInfo : ModelInfo.t) (rows : Rows) : M unit :=
  columns <- lift (Columns rows) ;;
  fieldValue <- FieldByName D sourceValue field ;;
  if negb (CanSet fieldValue) then fail (ErrNew ("field " +:+ field +:+ " is not settable"))
  else
    match fieldValue with
    | Some fv =>
        match ftype (f_decl fv) with
        | TSlice elemT =>
            newSlice <- collect relType relInfo columns elemT (records rows) [] ;;
            Set_ D fieldValue (VSlice elemT (Some newSlice)) ;;;
            match rowsErr rows with
            | Some e => fail e
            | None => ret tt
            end
        | TPtr _ => panic "reflect.MakeSlice of non-slice type"
        | _ => panic "reflect: Elem of invalid type"
        end
    | None => ret tt
    end.

(** The end shared by [preloadHasOne] and [preloadBelongsTo], from
    [rows.Next()] on. *)
Definition fill_single (sourceValue : RValue) (field : string)
    (relType : GoType) (relInfo : ModelInfo.t) (rows : Rows) : M unit :=
  match records rows with
  | [] => ret tt
  | row :: _ =>
      columns <- lift (Columns rows) ;;
      l <- scan_related relType relInfo columns row ;;
      fieldValue <- FieldByName D sourceValue field ;;
      if negb (CanSet fieldValue) then fail (ErrNew ("field " +:+ field +:+ " is not settable"))
      else Set_ D fieldValue (VPtr relType (Some l))
  end.

(** The check [sourceValue.Kind() != reflect.Struct] of the preloads. *)
Definition require_struct (sourceValue : RValue) : M unit :=
  sv <- current D sourceValue ;;
  match sv with
  | Some (VStruct _ _) => ret tt
  | _ => fail (ErrNew "source must be a struct or pointer to struct")
  end.

(** The search of the source's primary key field. *)
Definition source_key (source : any) (sourceValue : RValue) : M Field :=
  sourceInfo <- extractModelInfo D source ;;
  pkField <- FieldByName D sourceValue (toFieldName (ModelInfo.PrimaryKey sourceInfo)) ;;
  match pkField with
  | Some f => ret f
  | None => fail (ErrNew ("primary key field " +:+ ModelInfo.PrimaryKey sourceInfo
                            +:+ " not found in source model"))
  end.

(** The query [SELECT * FROM table WHERE column = ?] of three preloads. *)
Definition select_related (relInfo : ModelInfo.t) (column : string) (key : any) : M Rows :=
  let builder :=
    QueryBuilder.Where
      (QueryBuilder.Select (QueryBuilder.NewQueryBuilder (ModelInfo.TableName relInfo)) [])
      (column +:+ " = ?") [key] in
  qa <- QB_Build D builder ;;
  DB_QueryContext D (fst qa) (snd qa).

Definition preloadHasOne (c : Connection) (source : any) (field : string)
    (rel : Relationship.t) : M unit :=
  let sourceValue := indirect source in
  require_struct sourceValue ;;;
  pkField <- source_key source sourceValue ;;
  relType <- relTypeOf rel ;;
  relModel <- new_model relType ;;
  relInfo <- extractModelInfo D relModel ;;
  key <- Interface D (Some pkField) ;;
  rows <- select_related relInfo (Relationship.ForeignKey rel) key ;;
  fill_single sourceValue field relType relInfo rows.

Definition preloadBelongsTo (c : Connection) (source : any) (field : string)
    (rel : Relationship.t) : M unit :=
  let sourceValue := indirect source in
  require_struct sourceValue ;;;
  fkField <- FieldByName D sourceValue (toFieldName (Relationship.ForeignKey rel)) ;;
  match fkField with
  | None => fail (ErrNew ("foreign key field " +:+ Relationship.ForeignKey rel
                            +:+ " not found in source model"))
  | Some _ =>
      relType <- relTypeOf rel ;;
      relModel <- new_model relType ;;
      relInfo <- extractModelInfo D relModel ;;
      key <- Interface D fkField ;;
      rows <- select_related relInfo (Relationship.ReferenceKey rel) key ;;
      fill_single sourceValue field relType relInfo rows
  end.

Definition preloadHasMany (c : Connection) (source : any) (field : string)
    (rel : Relationship.t) : M unit :=
  let sourceValue := indirect source in
  require_struct sourceValue ;;;
  pkField <- source_key source sourceValue ;;
  relType <- relTypeOf rel ;;
  relModel <- new_model relType ;;
  relInfo <- extractModelInfo D relModel ;;
  key <- Interface D (Some pkField) ;;
  rows <- select_related relInfo (Relationship.ForeignKey rel) key ;;
  fill_collection sourceValue field relType relInfo rows.

Definition manyToManyQuery (relInfo : ModelInfo.t) (rel : Relationship.t) : string :=
  "SELECT r.* FROM " +:+ ModelInfo.TableName relInfo +:+ " r INNER JOIN "
    +:+ Relationship.JoinTable rel +:+ " j ON r." +:+ Relationship.ReferenceKey rel
    +:+ " = j." +:+ Relationship.JoinRefKey rel +:+ " WHERE j."
    +:+ Relationship.JoinForeignKey rel +:+ " = ?".

Definition preloadManyToMany (c : Connection) (source : any) (field : string)
    (rel : Relationship.t) : M unit :=
  let sourceValue := indirect source in
  require_struct sourceValue ;;;
  pkField <- source_key source sourceValue ;;
  relType <- relTypeOf rel ;;
  relModel <- new_model relType ;;
  relInfo <- extractModelInfo D relModel ;;
  key <- Interface D (Some pkField) ;;
  rows <- DB_QueryContext D (manyToManyQuery relInfo rel) [key] ;;
  fill_collection sourceValue field relType relInfo rows.

(** The loop of [Preload] over the relationships, in the order [rels] in
    which the map is enumerated. *)
Fixpoint preload_rels (c : Connection) (source : any) (sourceValue : RValue)
    (rels : list (string * Relationship.t)) : M unit :=
  match rels with
  | [] => ret tt
  | (field, rel) :: rest =>
      validateRelationship rel ;;;
      fieldValue <- FieldByName D sourceValue field ;;
      match fieldValue with
      | None => fail (ErrNew ("field " +:+ field +:+ " does not exist in model"))
      | Some _ =>
          let ty := Relationship.Type_ rel in
          (if decide (ty = HasOne) then preloadHasOne c source field rel
           else if decide (ty = BelongsTo) then preloadBelongsTo c source field rel
           else if decide (ty = HasMany) then preloadHasMany c source field rel
           else if decide (ty = ManyToMany) then preloadManyToMany c source field rel
           else fail (ErrNew ("unsupported relationship type: " +:+ Str.itoa ty))) ;;;
          preload_rels c source sourceValue rest
      end
  end.

(** [Preload] of one record: the part of [Preload] after the slice case. *)
Definition preload_record (c : Connection) (source : any)
    (relationships : gmap string Relationship.t) : M unit :=
  rels <- range (map_to_list relationships) ;;
  preload_rels c source (indirect source) rels.

(** The loop of [Preload] over the elements of a slice.  An element that
    is a pointer is preloaded as it is; any other element is copied to a
    new variable, and the copy is preloaded.  (An element of a slice whose
    element type is a struct or a pointer to a struct is never itself a
    slice, so the recursive call is the one-record case.) *)
Fixpoint preload_elems (c : Connection) (elemType : GoType)
    (relationships : gmap string Relationship.t) (elems : list Value) : M unit :=
  match elems with
  | [] => ret tt
  | elem :: rest =>
      match elem with
      | VPtr _ _ => preload_record c (Some elem) relationships
      | _ =>
          ptr <- alloc elem ;;
          preload_record c (Some (VPtr elemType (Some ptr))) relationships
      end ;;;
      preload_elems c elemType relationships rest
  end.

Definition Preload (c : Connection) (source : any)
    (relationships : gmap string Relationship.t) : M unit :=
  match source with
  | None => fail (ErrNew "source cannot be nil")
  | Some s =>
      match (match typeOf s with TPtr t => t | t => t end) with
      | TSlice elemT =>
          let elemType := match elemT with TPtr t => t | t => t end in
          match elemType with
          | TStruct _ =>
              sv <- current D (indirect source) ;;
              match sv with
              | Some (VSlice _ (Some elems)) => preload_elems c elemType relationships elems
              | Some (VSlice _ None) => ret tt
              | _ => panic "reflect: call of reflect.Value.Len on zero Value"
              end
          | _ => fail (ErrNew "source slice must contain structs or pointers to structs")
          end
      | _ => preload_record c source relationships
      end
  end.

(** [Associate]: one row of the join table. *)
Definition Associate (c : Connection) (source : any) (field : string) (target : any)
    (rel : Relationship.t) : M unit :=
  if negb (bool_decide (Relationship.Type_ rel = ManyToMany))
  then fail (ErrNew "associate can only be used with ManyToMany relationships")
  else
    let sourceValue := indirect source in
    let targetValue := indirect target in
    sourceInfo <- extractModelInfo D source ;;
    targetInfo <- extractModelInfo D target ;;
    sourcePkField <- FieldByName D sourceValue (toFieldName (ModelInfo.PrimaryKey sourceInfo)) ;;
    match sourcePkField with
    | None => fail (ErrNew ("primary key field " +:+ ModelInfo.PrimaryKey sourceInfo
                              +:+ " not found in source model"))
    | Some _ =>
        targetPkField <- FieldByName D targetValue (toFieldName (ModelInfo.PrimaryKey targetInfo)) ;;
        match targetPkField with
        | None => fail (ErrNew ("primary key field " +:+ ModelInfo.PrimaryKey targetInfo
                                  +:+ " not found in target model"))
        | Some _ =>
            let query := "INSERT INTO " +:+ Relationship.JoinTable rel +:+ " ("
                           +:+ Relationship.JoinForeignKey rel +:+ ", "
                           +:+ Relationship.JoinRefKey rel +:+ ") VALUES (?, ?)" in
            s <- Interface D sourcePkField ;;
            t <- Interface D targetPkField ;;
            DB_ExecContext D query [s; t] ;;; ret tt
        end
    end.

End Relationships.

(** ** Nested persistence (package sage, nested.go) *)

Section Nested.

Context (D : Driver).
Abbreviation M := (M D).

(** [sourceValue.FieldByName(field)] with the check [IsValid]. *)
Definition relationship_field (sourceValue : RValue) (field : string) : M Field :=
  fieldValue <- FieldByName D sourceValue field ;;
  match fieldValue with
  | Some f => ret f
  | None => fail (ErrNew ("field " +:+ field +:+ " does not exist in model"))
  end.

(** [if fkField.IsValid() && fkField.CanSet() { fkField.Set(pkField) }]. *)
Definition copy_key (fkField : option Field) (pkField : Field) : M unit :=
  if CanSet fkField then
    pk <- field_value D pkField ;;
    Set_ D fkField pk
  else ret tt.

(** The search of the primary key field of a related record. *)
Definition related_key (relModel : any) (relValue : RValue) : M Field :=
  relInfo <- extractModelInfo D relModel ;;
  pkField <- FieldByName D relValue (toFieldName (ModelInfo.PrimaryKey relInfo)) ;;
  match pkField with
  | Some f => ret f
  | None => fail (ErrNew ("primary key field " +:+ ModelInfo.PrimaryKey relInfo
                            +:+ " not found in related model"))
  end.

Definition nestedCreateHasOne (c : Connection) (source : any) (field : string)
    (rel : Relationship.t) (opts : NestedOption.t) : M unit :=
  let sourceValue := indirect source in
  fieldValue <- relationship_field sourceValue field ;;
  x <- field_value D fieldValue ;;
  isNil <- IsNil D x ;;
  if isNil then ret tt
  else
    pkField <- source_key D source sourceValue ;;
    x <- field_value D fieldValue ;;
    relValue <- Elem D x ;;
    fkField <- FieldByName D relValue (toFieldName (Relationship.ForeignKey rel)) ;;
    copy_key fkField pkField ;;;
    relModel <- Interface D (Some fieldValue) ;;
    Create D c relModel.

Definition nestedCreateBelongsTo (c : Connection) (source : any) (field : string)
    (rel : Relationship.t) (opts : NestedOption.t) : M unit :=
  let sourceValue := indirect source in
  fieldValue <- relationship_field sourceValue field ;;
  x <- field_value D fieldValue ;;
  isNil <- IsNil D x ;;
  if isNil then ret tt
  else
    relModel <- Interface D (Some fieldValue) ;;
    Create D c relModel ;;;
    x <- field_value D fieldValue ;;
    relValue <- Elem D x ;;
    relModel <- Interface D (Some fieldValue) ;;
    pkField <- related_key relModel relValue ;;
    fkField <- FieldByName D sourceValue (toFieldName (Relationship.ForeignKey rel)) ;;
    copy_key fkField pkField ;;;
    Update D c source.

(** [fieldValue.IsNil() || fieldValue.Len() == 0], then the elements. *)
Definition collection_elems (x : Value) : M (list Value) :=
  isNil <- IsNil D x ;;
  if isNil then ret []
  else
    match x with
    | VSlice _ (Some elems) => ret elems
    | _ => panic "reflect: call of reflect.Value.Len on a value without length"
    end.

Fixpoint create_children (c : Connection) (rel : Relationship.t) (pkField : Field)
    (elems : list Value) : M unit :=
  match elems with
  | [] => ret tt
  | relModel :: rest =>
      isNil <- IsNil D relModel ;;
      if isNil then create_children c rel pkField rest
      else
        relValue <- Elem D relModel ;;
        fkField <- FieldByName D relValue (toFieldName (Relationship.ForeignKey rel)) ;;
        copy_key fkField pkField ;;;
        Create D c (ifaceOf relModel) ;;;
        create_children c rel pkField rest
  end.

Definition nestedCreateHasMany (c : Connection) (source : any) (field : string)
    (rel : Relationship.t) (opts : NestedOption.t) : M unit :=
  let sourceValue := indirect source in
  fieldValue <- relationship_field sourceValue field ;;
  x <- field_value D fieldValue ;;
  elems <- collection_elems x ;;
  match elems with
  | [] => ret tt
  | _ =>
      pkField <- source_key D source sourceValue ;;
      create_children c rel pkField elems
  end.

Fixpoint associate_children (c : Connection) (source : any) (field : string)
    (rel : Relationship.t) (elems : list Value) : M unit :=
  match elems with
  | [] => ret tt
  | relModel :: rest =>
      isNil <- IsNil D relModel ;;
      if isNil then associate_children c source field rel rest
      else
        relValue <- Elem D relModel ;;
        pkRelField <- related_key (ifaceOf relModel) relValue ;;
        pk <- Interface D (Some pkRelField) ;;
        pkv <- field_value D pkRelField ;;
        (if is_zero pkv then Create D c (ifaceOf relModel) else ret tt) ;;;
        Associate D c source field (ifaceOf relModel) rel ;;;
        associate_children c source field rel rest
  end.

Definition nestedCreateManyToMany (c : Connection) (source : any) (field : string)
    (rel : Relationship.t) (opts : NestedOption.t) : M unit :=
  let sourceValue := indirect source in
  fieldValue <- relationship_field sourceValue field ;;
  x <- field_value D fieldValue ;;
  elems <- collection_elems x ;;
  match elems with
  | [] => ret tt
  | _ =>
      source_key D source sourceValue ;;;
      associate_children c source field rel elems
  end.

(** The loop of [CreateNested] over the relationships, in the order in
    which the map is enumerated. *)
Fixpoint create_rels (c : Connection) (model : any) (opts : NestedOption.t)
    (rels : list (string * Relationship.t)) : M unit :=
  match rels with
  | [] => ret tt
  | (field, rel) :: rest =>
      if negb (NestedOption.AutoSave opts) then create_rels c model opts rest
      else
        let ty := Relationship.Type_ rel in
        (if decide (ty = HasOne) then nestedCreateHasOne c model field rel opts
         else if decide (ty = BelongsTo) then nestedCreateBelongsTo c model field rel opts
         else if decide (ty = HasMany) then nestedCreateHasMany c model field rel opts
         else if decide (ty = ManyToMany) then nestedCreateManyToMany c model field rel opts
         else fail (ErrNew ("unsupported relationship type: " +:+ Str.itoa ty))) ;;;
        create_rels c model opts rest
  end.

Definition CreateNested (c : Connection) (model : any)
    (relationships : gmap string Relationship.t) (opts : NestedOption.t) : M unit :=
  Create D c model ;;;
  rels <- range (map_to_list relationships) ;;
  create_rels c model opts rels.

(** *** Delete *)

Definition nullifyQuery (relInfo : ModelInfo.t) (rel : Relationship.t) : string :=
  "UPDATE " +:+ ModelInfo.TableName relInfo +:+ " SET " +:+ Relationship.ForeignKey rel
    +:+ " = NULL WHERE " +:+ Relationship.ForeignKey rel +:+ " = ?".

Definition deleteRelatedQuery (relInfo : ModelInfo.t) (rel : Relationship.t) : string :=
  "DELETE FROM " +:+ ModelInfo.TableName relInfo +:+ " WHERE "
    +:+ Relationship.ForeignKey rel +:+ " = ?".

(** [nestedDeleteHasOne] and [nestedDeleteHasMany] have the same body. *)
Definition nestedDeleteOwned (c : Connection) (source : any) (field : string)
    (rel : Relationship.t) (opts : NestedOption.t) : M unit :=
  if negb (NestedOption.AutoDelete opts) then ret tt
  else
    let sourceValue := indirect source in
    pkField <- source_key D source sourceValue ;;
    relType <- relTypeOf D rel ;;
    relModel <- new_model D relType ;;
    relInfo <- extractModelInfo D relModel ;;
    key <- Interface D (Some pkField) ;;
    if NestedOption.NullifyOnDelete opts
    then DB_ExecContext D (nullifyQuery relInfo rel) [key] ;;; ret tt
    else DB_ExecContext D (deleteRelatedQuery relInfo rel) [key] ;;; ret tt.

Definition nestedDeleteHasOne := nestedDeleteOwned.
Definition nestedDeleteHasMany := nestedDeleteOwned.

Definition deleteJoinQuery (rel : Relationship.t) : string :=
  "DELETE FROM " +:+ Relationship.JoinTable rel +:+ " WHERE "
    +:+ Relationship.JoinForeignKey rel +:+ " = ?".

Definition selectJoinQuery (rel : Relationship.t) : string :=
  "SELECT " +:+ Relationship.JoinRefKey rel +:+ " FROM " +:+ Relationship.JoinTable rel
    +:+ " WHERE " +:+ Relationship.JoinForeignKey rel +:+ " = ?".

Definition deleteRelatedInQuery (relInfo : ModelInfo.t) (ids : list any) : string :=
  "DELETE FROM " +:+ ModelInfo.TableName relInfo +:+ " WHERE "
    +:+ ModelInfo.PrimaryKey relInfo +:+ " IN ("
    +:+ Str.Join (map (fun _ => "?") ids) ", " +:+ ")".

(** The loop [for rows.Next() { rows.Scan(&id) }]. *)
Fixpoint scan_ids (rs : list (list any)) : res (list any) :=
  match rs with
  | [] => Good []
  | [id] :: rs' =>
      match scan_ids rs' with
      | Good ids => Good (id :: ids)
      | Bad e => Bad e
      end
  | row :: _ => Bad (ErrNew ("sql: expected " +:+ pretty (length row)
                               +:+ " destination arguments in Scan, not 1"))
  end.

Definition nestedDeleteManyToMany (c : Connection) (source : any) (field : string)
    (rel : Relationship.t) (opts : NestedOption.t) : M unit :=
  let sourceValue := indirect source in
  pkField <- source_key D source sourceValue ;;
  key <- Interface D (Some pkField) ;;
  DB_ExecContext D (deleteJoinQuery rel) [key] ;;;
  if NestedOption.AutoDelete opts then
    key <- Interface D (Some pkField) ;;
    rows <- DB_QueryContext D (selectJoinQuery rel) [key] ;;
    ids <- lift (scan_ids (records rows)) ;;
    match ids with
    | [] => ret tt
    | _ =>
        relType <- relTypeOf D rel ;;
        relModel <- new_model D relType ;;
        relInfo <- extractModelInfo D relModel ;;
        DB_ExecContext D (deleteRelatedInQuery relInfo ids) ids ;;; ret tt
    end
  else ret tt.

(** The loop of [DeleteNested] over the relationships. *)
Fixpoint delete_rels (c : Connection) (model : any) (opts : NestedOption.t)
    (rels : list (string * Relationship.t)) : M unit :=
  match rels with
  | [] => ret tt
  | (field, rel) :: rest =>
      let ty := Relationship.Type_ rel in
      (if decide (ty = HasOne) then nestedDeleteHasOne c model field rel opts
       else if decide (ty = HasMany) then nestedDeleteHasMany c model field rel opts
       else if decide (ty = ManyToMany) then nestedDeleteManyToMany c model field rel opts
       else ret tt) ;;;
      delete_rels c model opts rest
  end.

Definition DeleteNested (c : Connection) (model : any)
    (relationships : gmap string Relationship.t) (opts : NestedOption.t) : M unit :=
  rels <- range (map_to_list relationships) ;;
  delete_rels c model opts rels ;;;
  Delete D c model.

End Nested.

(** ** More of the executor (package sage, execute.go) *)

Section Finders.

Context (D : Driver).
Abbreviation M := (M D).

(** [First]: the conditions are added when they are not empty, and the
    query is limited to one row. *)
Definition First (c : Connection) (model : any) (conditions : string) (args : list any)
    : M unit :=
  info <- extractModelInfo D model ;;
  let qb := QueryBuilder.Select (QueryBuilder.NewQueryBuilder (ModelInfo.TableName info)) [] in
  let qb := if decide (conditions = "") then qb else QueryBuilder.Where qb conditions args in
  let qb := QueryBuilder.Limit qb 1 in
  qa <- QB_Build D qb ;;
  scanRow D c model (fst qa) (snd qa).

(** The loop [for rows.Next()] of [All]: a record is scanned into a new
    element, its columns are mapped to the fields, and the element is
    appended to the slice at [l] at once
    ([sliceValue.Set(reflect.Append(sliceValue, modelElem))]). *)
Fixpoint all_rows (l : loc) (elemType : GoType) (info : ModelInfo.t)
    (columns : list string) (rs : list (list any)) : M unit :=
  match rs with
  | [] => ret tt
  | row :: rs' =>
      le <- scan_related D elemType info columns row ;;
      x <- load le ;;
      s <- load l ;;
      match s with
      | VSlice t es =>
          store_at l (VSlice t (Some (default [] es ++ [x]))) ;;;
          all_rows l elemType info columns rs'
      | _ => panic "reflect: call of reflect.Append on a value that is not a slice"
      end
  end.

(** [All]: the destination is a non-nil pointer to a slice; the metadata
    comes from a new instance of the slice's element type. *)
Definition All (c : Connection) (models : any) (conditions : string) (args : list any)
    : M unit :=
  match models with
  | Some (VPtr (TSlice elemType) (Some l)) =>
      modelInstance <- new_model D elemType ;;
      info <- extractModelInfo D modelInstance ;;
      let qb := QueryBuilder.Select (QueryBuilder.NewQueryBuilder (ModelInfo.TableName info)) [] in
      let qb := if decide (conditions = "") then qb else QueryBuilder.Where qb conditions args in
      qa <- QB_Build D qb ;;
      rows <- DB_QueryContext D (fst qa) (snd qa) ;;
      columns <- lift (Columns rows) ;;
      all_rows l elemType info columns (records rows) ;;;
      match rowsErr rows with
      | Some e => fail e
      | None => ret tt
      end
  | _ => fail (ErrNew "models must be a pointer to a slice")
  end.

(** [FindNested], [FirstNested], [AllNested] (nested.go): the finder, then
    [Preload] on what was handed over. *)
Definition FindNested (c : Connection) (model : any) (id : any)
    (relationships : gmap string Relationship.t) : M unit :=
  Find D c model id ;;; Preload D c model relationships.

Definition FirstNested (c : Connection) (model : any)
    (relationships : gmap string Relationship.t) (conditions : string) (args : list any)
    : M unit :=
  First c model conditions args ;;; Preload D c model relationships.

Definition AllNested (c : Connection) (models : any)
    (relationships : gmap string Relationship.t) (conditions : string) (args : list any)
    : M unit :=
  All c models conditions args ;;; Preload D c models relationships.

(** [Dissociate] (relationships.go): one DELETE on the join table. *)
Definition Dissociate (c : Connection) (source : any) (field : string) (target : any)
    (rel : Relationship.t) : M unit :=
  if negb (bool_decide (Relationship.Type_ rel = ManyToMany))
  then fail (ErrNew "dissociate can only be used with ManyToMany relationships")
  else
    let sourceValue := indirect source in
    let targetValue := indirect target in
    sourceInfo <- extractModelInfo D source ;;
    targetInfo <- extractModelInfo D target ;;
    sourcePkField <- FieldByName D sourceValue (toFieldName (ModelInfo.PrimaryKey sourceInfo)) ;;
    match sourcePkField with
    | None => fail (ErrNew ("primary key field " +:+ ModelInfo.PrimaryKey sourceInfo
                              +:+ " not found in source model"))
    | Some _ =>
        targetPkField <- FieldByName D targetValue (toFieldName (ModelInfo.PrimaryKey targetInfo)) ;;
        match targetPkField with
        | None => fail (ErrNew ("primary key field " +:+ ModelInfo.PrimaryKey targetInfo
                                  +:+ " not found in target model"))
        | Some _ =>
            let query := "DELETE FROM " +:+ Relationship.JoinTable rel +:+ " WHERE "
                           +:+ Relationship.JoinForeignKey rel +:+ " = ? AND "
                           +:+ Relationship.JoinRefKey rel +:+ " = ?" in
            s <- Interface D sourcePkField ;;
            t <- Interface D targetPkField ;;
            DB_ExecContext D query [s; t] ;;; ret tt
        end
    end.

(** [isZeroValue(v)]: [v.Interface()] compared with the zero value of the
    type of [v]. *)
Definition isZeroValue (f : Field) : M bool :=
  Interface D (Some f) ;;;
  x <- field_value D f ;;
  ret (is_zero x).

(** [nestedUpdateBelongsTo] (nested.go): the child is created when its key
    is the zero value and updated otherwise; its key is then stored in the
    foreign key field of the source. *)
Definition nestedUpdateBelongsTo (c : Connection) (source : any) (field : string)
    (rel : Relationship.t) (opts : NestedOption.t) : M unit :=
  let sourceValue := indirect source in
  fieldValue <- relationship_field D sourceValue field ;;
  x <- field_value D fieldValue ;;
  isNil <- IsNil D x ;;
  if isNil then ret tt
  else
    relValue <- Elem D x ;;
    relModel <- Interface D (Some fieldValue) ;;
    pkRelField <- related_key D relModel relValue ;;
    isZero <- isZeroValue pkRelField ;;
    (if isZero
     then relModel <- Interface D (Some fieldValue) ;; Create D c relModel
     else relModel <- Interface D (Some fieldValue) ;; Update D c relModel) ;;;
    fkField <- FieldByName D sourceValue (toFieldName (Relationship.ForeignKey rel)) ;;
    copy_key D fkField pkRelField.

End Finders.

(** ** More of the Executor (package query): rows scanned into structs *)

Section ExecutorRows.

Context (D : Driver).

(** [tx.QueryRowContext]: the error of the query is kept for [Scan]. *)
Definition Tx_QueryRowContext (tx : nat) (query : string) (args : list any)
    : M D (res Rows) :=
  fun w =>
    match Tx_QueryContext D tx query args w with
    | (Ok rs, w1) => (Ok (Good rs), w1)
    | (Err e, w1) => (Ok (Bad e), w1)
    | (Panic p, w1) => (Panic p, w1)
    end.

(** [QueryRow], through [getExecer]. *)
Definition QueryRow (e : Executor.t) (query : string) (args : list any) : M D (res Rows) :=
  match Executor.tx e with
  | Some id => Tx_QueryRowContext id query args
  | None =>
      if Executor.db e then DB_QueryRowContext D query args
      else panic "invalid memory address or nil pointer dereference"
  end.

(** Every field of the struct, in declaration order. *)
Fixpoint all_fields (fs : list FieldDecl) (i : nat) : list (nat * FieldDecl) :=
  match fs with
  | [] => []
  | f :: fs' => (i, f) :: all_fields fs' (S i)
  end.

(** [scanStruct]: a pointer to each field is taken with
    [v.Field(i).Addr().Interface()], which panics on a field that is not
    exported; then the row is scanned. *)
Definition scanStruct (row : res Rows) (dest : any) : M D unit :=
  match dest with
  | Some (VPtr _ (Some l)) =>
      v <- load l ;;
      match v with
      | VStruct d _ =>
          if forallb IsExported (sfields d)
          then Row_Scan D row l (all_fields (sfields d) 0)
          else panic "reflect.Value.Interface: cannot return value obtained from unexported field or method"
      | _ => panic "reflect: NumField of non-struct type"
      end
  | _ => panic "reflect: call of reflect.Value.Type on zero Value"
  end.

Definition QueryOne (e : Executor.t) (dest : any) (query : string) (args : list any)
    : M D unit :=
  match dest with
  | Some (VPtr _ (Some l)) =>
      v <- load l ;;
      match v with
      | VStruct _ _ =>
          row <- QueryRow e query args ;;
          scanStruct row dest
      | _ => fail (ErrNew "destination must be a pointer to a struct")
      end
  | _ => fail (ErrNew "destination must be a non-nil pointer")
  end.

End ExecutorRows.

(** ** Schema (package schema, schema.go)

    Tables and columns are handled through pointers in the source; the
    functions below never write to a column or a table after it has been
    added, so they are modelled by value. *)

(** [strings.HasPrefix] and [strings.TrimPrefix]. *)
Definition HasPrefix (s pre : string) : bool := String.prefix pre s.
Fixpoint drop_bytes (n : nat) (s : string) : string :=
  match n, s with
  | O, _ => s
  | S n', String _ s' => drop_bytes n' s'
  | S _, EmptyString => EmptyString
  end.
Definition TrimPrefix (s pre : string) : string :=
  if HasPrefix s pre then drop_bytes (String.length pre) s else s.

Module Column.
Record t : Type := mk {
  Name : string;
  Type_ : string;
  Size : Z;
  Precision : Z;
  Scale : Z;
  Nullable : bool;
  Unique : bool;
  Default : string;
  IsAutoIncrement : bool;
  IsPrimaryKey : bool
}.
End Column.

Module Index.
Record t : Type := mk {
  Name : string;
  Columns : list string;
  Unique : bool
}.
End Index.

Module UniqueKey.
Record t : Type := mk {
  Name : string;
  Columns : list string
}.
End UniqueKey.

Module ForeignKey.
Record t : Type := mk {
  Name : string;
  Columns : list string;
  ReferenceTable : string;
  ReferenceColumns : list string;
  OnDelete : string;
  OnUpdate : string
}.
End ForeignKey.

Module Table.
Record t : Type := mk {
  Name : string;
  Columns : list Column.t;
  PrimaryKey : option Column.t;
  Indexes : list Index.t;
  UniqueKeys : list UniqueKey.t;
  ForeignKeys : list ForeignKey.t
}.
End Table.

(** What the schema package asks of a [dialect.Dialect] besides [Quote]
    (internal/dialect). *)
Record SchemaDialect : Type := mkSchemaDialect {
  quoting : Dialect;
  AutoIncrementKeyword : string;
  CreateTableSQL : string -> list string -> string -> string
}.

Definition create_table_if_not_exists (d : Dialect) (tableName : string)
    (columns : list string) : string :=
  "CREATE TABLE IF NOT EXISTS " +:+ Quote d tableName +:+ " (" +:+ Str.nl +:+ "  "
    +:+ Str.Join columns ("," +:+ Str.nl +:+ "  ") +:+ Str.nl +:+ ")".

Definition PostgresSchema : SchemaDialect := {|
  quoting := PostgresDialect;
  AutoIncrementKeyword := "SERIAL";
  CreateTableSQL := fun tableName columns primaryKey =>
    create_table_if_not_exists PostgresDialect tableName columns
|}.

Definition MySQLSchema : SchemaDialect := {|
  quoting := MySQLDialect;
  AutoIncrementKeyword := "AUTO_INCREMENT";
  CreateTableSQL := fun tableName columns primaryKey =>
    create_table_if_not_exists MySQLDialect tableName columns
      +:+ " ENGINE=InnoDB DEFAULT CHARSET=utf8mb4 COLLATE=utf8mb4_unicode_ci"
|}.

Definition SQLiteSchema : SchemaDialect := {|
  quoting := SQLiteDialect;
  AutoIncrementKeyword := "INTEGER PRIMARY KEY AUTOINCREMENT";
  CreateTableSQL := fun tableName columns primaryKey =>
    create_table_if_not_exists SQLiteDialect tableName columns
|}.

Definition NewTable (name : string) : Table.t := Table.mk name [] None [] [] [].

Definition AddColumn (t : Table.t) (column : Column.t) : Table.t :=
  Table.mk (Table.Name t) (Table.Columns t ++ [column])
           (if Column.IsPrimaryKey column then Some column else Table.PrimaryKey t)
           (Table.Indexes t) (Table.UniqueKeys t) (Table.ForeignKeys t).

(** [GetColumn]: the first column of that name. *)
Fixpoint find_column (name : string) (columns : list Column.t) : option Column.t :=
  match columns with
  | [] => None
  | column :: rest =>
      if decide (Column.Name column = name) then Some column else find_column name rest
  end.
Definition GetColumn (t : Table.t) (name : string) : option Column.t :=
  find_column name (Table.Columns t).

Definition AddIndex (t : Table.t) (index : Index.t) : Table.t :=
  Table.mk (Table.Name t) (Table.Columns t) (Table.PrimaryKey t)
           (Table.Indexes t ++ [index]) (Table.UniqueKeys t) (Table.ForeignKeys t).

Definition AddUniqueKey (t : Table.t) (uniqueKey : UniqueKey.t) : Table.t :=
  Table.mk (Table.Name t) (Table.Columns t) (Table.PrimaryKey t)
           (Table.Indexes t) (Table.UniqueKeys t ++ [uniqueKey]) (Table.ForeignKeys t).

Definition AddForeignKey (t : Table.t) (foreignKey : ForeignKey.t) : Table.t :=
  Table.mk (Table.Name t) (Table.Columns t) (Table.PrimaryKey t)
           (Table.Indexes t) (Table.UniqueKeys t) (Table.ForeignKeys t ++ [foreignKey]).

Definition NewColumn (name dataType : string) : Column.t :=
  Column.mk name dataType 0 0 0 false false "" false false.

Definition NewIndex (name : string) (columns : list string) (unique : bool) : Index.t :=
  Index.mk name columns unique.

Definition NewUniqueKey (name : string) (columns : list string) : UniqueKey.t :=
  UniqueKey.mk name columns.

Definition NewForeignKey (name : string) (columns : list string) (referenceTable : string)
    (referenceColumns : list string) : ForeignKey.t :=
  ForeignKey.mk name columns referenceTable referenceColumns "CASCADE" "CASCADE".

(** The definition of one column in [GenerateCreateTableSQL]. *)
Definition columnDef (d : SchemaDialect) (column : Column.t) : string :=
  let def :=
    if Column.IsAutoIncrement column
    then Quote (quoting d) (Column.Name column) +:+ " " +:+ AutoIncrementKeyword d
    else Quote (quoting d) (Column.Name column) +:+ " " +:+ Column.Type_ column in
  let def := if negb (Column.Nullable column) then def +:+ " NOT NULL" else def in
  if decide (Column.Default column = "") then def
  else def +:+ " DEFAULT " +:+ Column.Default column.

Definition uniqueKeyDef (d : SchemaDialect) (uniqueKey : UniqueKey.t) : string :=
  "CONSTRAINT " +:+ Quote (quoting d) (UniqueKey.Name uniqueKey) +:+ " UNIQUE ("
    +:+ Str.Join (map (Quote (quoting d)) (UniqueKey.Columns uniqueKey)) ", " +:+ ")".

Definition foreignKeyDef (d : SchemaDialect) (foreignKey : ForeignKey.t) : string :=
  "CONSTRAINT " +:+ Quote (quoting d) (ForeignKey.Name foreignKey) +:+ " FOREIGN KEY ("
    +:+ Str.Join (map (Quote (quoting d)) (ForeignKey.Columns foreignKey)) ", "
    +:+ ") REFERENCES " +:+ Quote (quoting d) (ForeignKey.ReferenceTable foreignKey) +:+ " ("
    +:+ Str.Join (map (Quote (quoting d)) (ForeignKey.ReferenceColumns foreignKey)) ", "
    +:+ ") ON DELETE " +:+ ForeignKey.OnDelete foreignKey
    +:+ " ON UPDATE " +:+ ForeignKey.OnUpdate foreignKey.

(** The slice [columnDefs] when [GenerateCreateTableSQL] reaches its last
    statement. *)
Definition columnDefs (t : Table.t) (d : SchemaDialect) : list string :=
  map (columnDef d) (Table.Columns t)
    ++ match Table.PrimaryKey t with
       | Some pk => ["PRIMARY KEY (" +:+ Quote (quoting d) (Column.Name pk) +:+ ")"]
       | None => []
       end
    ++ map (uniqueKeyDef d) (Table.UniqueKeys t)
    ++ map (foreignKeyDef d) (Table.ForeignKeys t).

(** [GenerateCreateTableSQL]: the last statement reads [t.PrimaryKey.Name]
    whether or not the table has a primary key. *)
Definition GenerateCreateTableSQL (t : Table.t) (d : SchemaDialect) : Out string :=
  match Table.PrimaryKey t with
  | Some pk => Ok (CreateTableSQL d (Table.Name t) (columnDefs t d) (Column.Name pk))
  | None => Panic "invalid memory address or nil pointer dereference"
  end.

(** [reflect.Kind.String]. *)
Definition kind_name (v : option Value) : string :=
  match v with
  | None => "invalid"
  | Some (VInt _) => "int64"
  | Some (VStr _) => "string"
  | Some (VBool _) => "bool"
  | Some (VAny _) => "interface"
  | Some (VPtr _ _) => "ptr"
  | Some (VSlice _ _) => "slice"
  | Some (VStruct _ _) => "struct"
  end.

Section BuildFromStruct.

Context (D : Driver).

(** [fmt.Sscanf(s, "%d", &n)]: the number that is stored in [n], or [None]
    when the scan fails and [n] is left as it was. *)
Variable Sscanf_d : string -> option Z.

(** One option of a [db] tag: the [switch] on the whole option. *)
Definition option_switch (column : Column.t) (opt : string) : Column.t :=
  if decide (opt = "pk") then
    Column.mk (Column.Name column) (Column.Type_ column) (Column.Size column)
              (Column.Precision column) (Column.Scale column) (Column.Nullable column)
              (Column.Unique column) (Column.Default column)
              (Column.IsAutoIncrement column) true
  else if decide (opt = "auto") then
    Column.mk (Column.Name column) (Column.Type_ column) (Column.Size column)
              (Column.Precision column) (Column.Scale column) (Column.Nullable column)
              (Column.Unique column) (Column.Default column)
              true (Column.IsPrimaryKey column)
  else if decide (opt = "nullable") then
    Column.mk (Column.Name column) (Column.Type_ column) (Column.Size column)
              (Column.Precision column) (Column.Scale column) true
              (Column.Unique column) (Column.Default column)
              (Column.IsAutoIncrement column) (Column.IsPrimaryKey column)
  else if decide (opt = "unique") then
    Column.mk (Column.Name column) (Column.Type_ column) (Column.Size column)
              (Column.Precision column) (Column.Scale column) (Column.Nullable column)
              true (Column.Default column)
              (Column.IsAutoIncrement column) (Column.IsPrimaryKey column)
  else column.

(** The four tests on the prefix of the option, in the order of the
    source. *)
Definition option_size (column : Column.t) (opt : string) : Column.t :=
  if HasPrefix opt "size:" then
    Column.mk (Column.Name column) (Column.Type_ column)
              (default (Column.Size column) (Sscanf_d (TrimPrefix opt "size:")))
              (Column.Precision column) (Column.Scale column) (Column.Nullable column)
              (Column.Unique column) (Column.Default column)
              (Column.IsAutoIncrement column) (Column.IsPrimaryKey column)
  else column.

Definition option_precision (column : Column.t) (opt : string) : Column.t :=
  if HasPrefix opt "precision:" then
    Column.mk (Column.Name column) (Column.Type_ column) (Column.Size column)
              (default (Column.Precision column) (Sscanf_d (TrimPrefix opt "precision:")))
              (Column.Scale column) (Column.Nullable column)
              (Column.Unique column) (Column.Default column)
              (Column.IsAutoIncrement column) (Column.IsPrimaryKey column)
  else column.

Definition option_scale (column : Column.t) (opt : string) : Column.t :=
  if HasPrefix opt "scale:" then
    Column.mk (Column.Name column) (Column.Type_ column) (Column.Size column)
              (Column.Precision column)
              (default (Column.Scale column) (Sscanf_d (TrimPrefix opt "scale:")))
              (Column.Nullable column)
              (Column.Unique column) (Column.Default column)
              (Column.IsAutoIncrement column) (Column.IsPrimaryKey column)
  else column.

Definition option_default (column : Column.t) (opt : string) : Column.t :=
  if HasPrefix opt "default:" then
    Column.mk (Column.Name column) (Column.Type_ column) (Column.Size column)
              (Column.Precision column) (Column.Scale column) (Column.Nullable column)
              (Column.Unique column) (TrimPrefix opt "default:")
              (Column.IsAutoIncrement column) (Column.IsPrimaryKey column)
  else column.

(** The body of the loop over the options of a tag. *)
Definition column_option (column : Column.t) (opt : string) : Column.t :=
  option_default
    (option_scale (option_precision (option_size (option_switch column opt) opt) opt) opt)
    opt.

(** The loop of [BuildFromStruct] over the struct fields. *)
Fixpoint build_columns (fs : list FieldDecl) (table : Table.t) : Table.t :=
  match fs with
  | [] => table
  | field :: rest =>
      if negb (IsExported field) then build_columns rest table
      else if decide (ftag field = "-") then build_columns rest table
      else
        let tagParts := Str.Split (ftag field) ","%char in
        let columnName :=
          match tagParts with
          | p0 :: _ => if decide (p0 = "") then toSnakeCase (fname field) else p0
          | [] => toSnakeCase (fname field)
          end in
        let column := fold_left column_option (tail tagParts) (NewColumn columnName "") in
        build_columns rest (AddColumn table column)
  end.

(** [BuildFromStruct]; the package's own [toSnakeCase] has the body of
    the one of package sage. *)
Definition BuildFromStruct (model : any) (tableName : string) : M D Table.t :=
  v <- current D (indirect model) ;;
  match v with
  | Some (VStruct d _) => ret (build_columns (sfields d) (NewTable tableName))
  | _ => fail (ErrNew ("model must be a struct, got " +:+ kind_name v))
  end.

End BuildFromStruct.

(** Every type is identical to itself. *)
Fixpoint type_eqb_refl (t : GoType) : type_eqb t t = true.
Proof.
  destruct t; simpl; try reflexivity; try apply type_eqb_refl.
  apply bool_decide_eq_true_2; reflexivity.
Defined.

(** ** A small database for examples

    Its store is the list of the statements executed so far.  A statement
    whose text starts with [FAIL] is refused; an UPDATE or DELETE of table
    [ghosts] affects no row; the ledger holds two pending migrations, the second of
    which has a failing up script; every other query finds no row. *)

Module Toy.

Definition exec (query : string) (args : list any) (s : list string)
    : res (ExecResult * list string) :=
  if String.prefix "FAIL" query then Bad (ErrDriver "statement refused")
  else Good (mkResult (Good (Z.of_nat (S (length s))))
                      (Good (if String.prefix "UPDATE ghosts" query
                                    || String.prefix "DELETE FROM ghosts" query
                             then 0 else 1)),
             s ++ [query]).

Definition ledger : list (list any) :=
  [ [Some (VInt 1); Some (VStr "create_users"); Some (VStr "users table");
     Some (VStr "CREATE TABLE users (id SERIAL)"); Some (VStr "DROP TABLE users");
     Some (VInt 100); None];
    [Some (VInt 2); Some (VStr "broken"); Some (VStr "cannot run");
     Some (VStr "FAIL TO ALTER"); Some (VStr "SELECT 1");
     Some (VInt 101); None] ].

Definition query (q : string) (args : list any) (s : list string) : res Rows :=
  if String.prefix "SELECT id, name, description" q
  then Good (mkRows (Good ["id"; "name"; "description"; "up"; "down"; "created_at"; "applied_at"])
                    ledger None)
  else Good (mkRows (Good ["id"]) [] None).

Definition scan (row : list any) : res Migration.t :=
  match row with
  | [Some (VInt id); Some (VStr name); Some (VStr description); Some (VStr up);
     Some (VStr down); Some (VInt created); applied] =>
      Good (Migration.mk id name description up down created
              (match applied with Some (VInt t) => Some t | _ => None end))
  | _ => Bad (ErrNew "sql: Scan error")
  end.

Definition convert (v : Value) (t : GoType) : option Value :=
  if type_eqb (typeOf v) t then Some v else None.

Definition convert_same (v : Value) : convert v (typeOf v) = Some v.
Proof. unfold convert. rewrite type_eqb_refl. reflexivity. Defined.

Definition driver : Driver := {|
  Store := list string;
  run_exec := exec;
  run_query := query;
  begin_err := fun _ => None;
  commit_err := fun _ => None;
  convertAssign := fun col t =>
    match col with
    | Some v => if type_eqb (typeOf v) t then Good v else Bad (ErrNew "unsupported Scan")
    | None => Bad (ErrNew "converting NULL is unsupported")
    end;
  scanMigration := scan;
  Convert := convert;
  Convert_same := convert_same;
  time_at := fun n => Z.of_nat n;
  range_order := fun A n l => l;
  range_order_perm := fun A n l => Permutation_refl l
|}.

Definition conn : Connection := mkConnection (ConnectionOptions.mk "postgres" "")%string.

(** [type User struct { ID int64 `db:"id,pk,auto"`; Username string `db:"username"` }]
    with [TableName() = "users"] and [PrimaryKey() = "id"] on the pointer. *)
Definition User : StructDecl :=
  mkStruct "User" (ModelByPtr "users" "id")
    [mkField "ID" TInt64 "id,pk,auto"; mkField "Username" TString "username"].

Definition world (h : gmap loc Value) : World driver := mkWorld driver h [] [] ∅ 0 0.

Definition user : any := Some (VPtr (TStruct User) (Some 1%nat)).
Definition jdoe : Value := VStruct User [VInt 0; VStr "jdoe"].

(** [type Ghost struct { ID int64 `db:"id,pk"`; Name string `db:"name"` }],
    stored in table [ghosts], which no UPDATE ever matches. *)
Definition Ghost : StructDecl :=
  mkStruct "Ghost" (ModelByPtr "ghosts" "id")
    [mkField "ID" TInt64 "id,pk"; mkField "Name" TString "name"].
Definition ghost : any := Some (VPtr (TStruct Ghost) (Some 1%nat)).
Definition casper : Value := VStruct Ghost [VInt 9; VStr "casper"].

(** [type Account struct { ID *int64 `db:"id,pk"`; Name string `db:"name"` }]:
    the key is absent as long as the pointer is nil. *)
Definition Account : StructDecl :=
  mkStruct "Account" NoModel
    [mkField "ID" (TPtr TInt64) "id,pk"; mkField "Name" TString "name"].
Definition account : any := Some (VPtr (TStruct Account) (Some 1%nat)).
Definition unsaved : Value := VStruct Account [VPtr TInt64 None; VStr "savings"].

(** [type Note struct { Text string `db:"text"` }]: no field is the key. *)
Definition Note : StructDecl :=
  mkStruct "Note" NoModel [mkField "Text" TString "text"].
Definition note : any := Some (VPtr (TStruct Note) (Some 1%nat)).
Definition memo : Value := VStruct Note [VStr "buy milk"].

(** [type Comment struct { Id int64 `db:"id,pk,auto"`; PostId int64 `db:"post_id"`;
    Body string `db:"body"` }] and
    [type Post struct { Id int64 `db:"id,pk,auto"`; Title string `db:"title"`;
    Comments []Comment `db:"-"` }]: a post has many comments. *)
Definition Comment : StructDecl :=
  mkStruct "Comment" (ModelByPtr "comments" "id")
    [mkField "Id" TInt64 "id,pk,auto"; mkField "PostId" TInt64 "post_id";
     mkField "Body" TString "body"].
Definition Post : StructDecl :=
  mkStruct "Post" (ModelByPtr "posts" "id")
    [mkField "Id" TInt64 "id,pk,auto"; mkField "Title" TString "title";
     mkField "Comments" (TSlice (TStruct Comment)) "-"].
Definition post : any := Some (VPtr (TStruct Post) (Some 1%nat)).
Definition draft : Value :=
  VStruct Post [VInt 7; VStr "draft"; VSlice (TStruct Comment) None].
Definition comments_of_post : Relationship.t :=
  Relationship.mk HasMany (Some (zero (TStruct Comment))) "post_id" "id" "" "" "" false.

(** [type Tag struct { Id int64 `db:"id,pk,auto"`; Name string `db:"name"` }]:
    posts and tags are related through the join table [post_tags]. *)
Definition Tag : StructDecl :=
  mkStruct "Tag" (ModelByPtr "tags" "id")
    [mkField "Id" TInt64 "id,pk,auto"; mkField "Name" TString "name"].
Definition tags_of_post : Relationship.t :=
  Relationship.mk ManyToMany (Some (zero (TStruct Tag))) "" "" "post_tags" "post_id" "tag_id"
                  false.
(** Options that ask for no deletion of related records, and for
    nullifying instead of deleting. *)
Definition keep_related : NestedOption.t := NestedOption.mk true false false true false.
Definition cascade : NestedOption.t := NestedOption.mk true true false false false.

(** A slice of posts held by value, behind a pointer, and the relationship
    to preload on each. *)
Definition shelf : Value := VSlice (TStruct Post) (Some [draft]).
Definition posts : any := Some (VPtr (TSlice (TStruct Post)) (Some 1%nat)).
Definition post_rels : gmap string Relationship.t := {["Comments" := comments_of_post]}.

(** [type Writer struct { Id int64 `db:"id,pk,auto"`; Name string `db:"name"` }] and
    [type Article struct { Id int64 `db:"id,pk,auto"`; AuthorId int64 `db:"author_id"`;
    Author *Writer `db:"-"` }]: an article belongs to its author. *)
Definition Writer : StructDecl :=
  mkStruct "Writer" (ModelByPtr "writers" "id")
    [mkField "Id" TInt64 "id,pk,auto"; mkField "Name" TString "name"].
Definition Article : StructDecl :=
  mkStruct "Article" (ModelByPtr "articles" "id")
    [mkField "Id" TInt64 "id,pk,auto"; mkField "AuthorId" TInt64 "author_id";
     mkField "Author" (TPtr (TStruct Writer)) "-"].
Definition article : any := Some (VPtr (TStruct Article) (Some 1%nat)).
Definition ann : any := Some (VPtr (TStruct Writer) (Some 2%nat)).
Definition newsroom : gmap loc Value :=
  {[ 1%nat := VStruct Article [VInt 5; VInt 0; VPtr (TStruct Writer) (Some 2%nat)];
     2%nat := VStruct Writer [VInt 0; VStr "ann"] ]}.
Definition author_of_article : Relationship.t :=
  Relationship.mk BelongsTo (Some (zero (TStruct Writer))) "author_id" "id" "" "" "" false.

(** The migration manager of the examples, and the stages of its run. *)
Definition manager : MigrationManager.t := MigrationManager.NewMigrationManager "".
Definition created : World driver :=
  snd (MigrationManager.CreateMigrationsTable driver manager (world ∅)).
Definition loaded : World driver :=
  snd (MigrationManager.GetPendingMigrations driver manager created).
Definition pending : list Migration.t :=
  [Migration.mk 1 "create_users" "users table" "CREATE TABLE users (id SERIAL)"
                "DROP TABLE users" 100 None;
   Migration.mk 2 "broken" "cannot run" "FAIL TO ALTER" "SELECT 1" 101 None].

(** A caller-supplied transactional function that sends one statement and
    then panics. *)
Definition insert_then_panic (e : Executor.t) : M driver unit :=
  bind (Executor.Exec driver e "INSERT INTO audit (what) VALUES (?)" [Some (VStr "login")])
       (fun _ => panic "index out of range").

(** The statements the claims of the specification quote. *)
Definition quoted_insert : string :=
  "INSERT INTO " +:+ Str.dq +:+ "users" +:+ Str.dq +:+ " (" +:+ Str.dq +:+ "username"
    +:+ Str.dq +:+ ") VALUES ($1)".
Definition quoted_select : string :=
  "SELECT * FROM " +:+ Str.dq +:+ "users" +:+ Str.dq +:+ " WHERE " +:+ Str.dq +:+ "id"
    +:+ Str.dq +:+ " = $1".

End Toy.

(** A driver in the manner of lib/pq: statements run, but their result
    cannot tell the last inserted id. *)
Module Pq.

Definition exec (query : string) (args : list any) (s : list string)
    : res (ExecResult * list string) :=
  Good (mkResult (Bad (ErrDriver "LastInsertId is not supported by this driver")) (Good 1),
        s ++ [query]).

(** The table [users] holds two rows, the table [posts] one. *)
Definition query (q : string) (args : list any) (s : list string) : res Rows :=
  if String.prefix "SELECT * FROM users" q
  then Good (mkRows (Good ["id"; "username"])
                    [ [Some (VInt 1); Some (VStr "ann")];
                      [Some (VInt 2); Some (VStr "bob")] ] None)
  else if String.prefix "SELECT * FROM posts" q
  then Good (mkRows (Good ["id"; "title"]) [ [Some (VInt 7); Some (VStr "draft")] ] None)
  else Toy.query q args s.

Definition driver : Driver := {|
  Store := list string;
  run_exec := exec;
  run_query := query;
  begin_err := fun _ => None;
  commit_err := fun _ => None;
  convertAssign := convertAssign Toy.driver;
  scanMigration := Toy.scan;
  Convert := Toy.convert;
  Convert_same := Toy.convert_same;
  time_at := fun n => Z.of_nat n;
  range_order := fun A n l => l;
  range_order_perm := fun A n l => Permutation_refl l
|}.

Definition world (h : gmap loc Value) : World driver := mkWorld driver h [] [] ∅ 0 0.

End Pq.

(** A schema example: a reader of leading decimal digits in the place of
    [fmt.Sscanf], and
    [type Product struct { ID int64 `db:"id,pk,auto"`;
    Name string `db:"name,size:80,unique"`; Price int64 `db:",default:0"`;
    secret string; Notes string `db:"-"` }]. *)
Module Shop.

Fixpoint digits (s : string) (acc : Z) (seen : bool) : option Z :=
  match s with
  | EmptyString => if seen then Some acc else None
  | String a s' =>
      if Str.is_digit a then digits s' (acc * 10 + (Z.of_nat (nat_of_ascii a) - 48)) true
      else if seen then Some acc else None
  end.
Definition Sscanf_d (s : string) : option Z := digits s 0 false.

Definition Product : StructDecl :=
  mkStruct "Product" NoModel
    [mkField "ID" TInt64 "id,pk,auto"; mkField "Name" TString "name,size:80,unique";
     mkField "Price" TInt64 ",default:0"; mkField "secret" TString "";
     mkField "Notes" TString "-"].
Definition product : any := Some (VPtr (TStruct Product) (Some 1%nat)).
Definition pen : Value :=
  VStruct Product [VInt 1; VStr "pen"; VInt 2; VStr "x"; VStr ""].

End Shop.


(** Examples for the two builders: an INSERT with two recorded pairs, and
    the two orders in which the runtime may enumerate them. *)
Module Examples.

Definition insert_two : Builder.t :=
  Builder.Set_
    (Builder.Set_ (Builder.Insert (Builder.NewBuilder PostgresDialect "users"))
                  "email" (Some (VStr "j@example.com")))
    "username" (Some (VStr "jdoe")).

Definition email_first : list (string * any) :=
  [("email", Some (VStr "j@example.com")); ("username", Some (VStr "jdoe"))].

Definition username_first : list (string * any) :=
  [("username", Some (VStr "jdoe")); ("email", Some (VStr "j@example.com"))].

Definition insert_one : Builder.t :=
  Builder.Set_ (Builder.Insert (Builder.NewBuilder PostgresDialect "users"))
               "username" (Some (VStr "jdoe")).

Definition update_one : QueryBuilder.t :=
  QueryBuilder.Where
    (QueryBuilder.Set_ (QueryBuilder.Update (QueryBuilder.NewQueryBuilder "users"))
                       "username" (Some (VStr "jdoe")))
    "id = ?" [Some (VInt 1)].

Definition username_only : list (string * any) := [("username", Some (VStr "jdoe"))].

End Examples.

(** * Assertions about runs

    The predicates in which the properties of the last part are stated. *)

Section Assertions.

Context {D : Driver}.
Implicit Types (w : World D) (I : World D -> Prop).

(** [holds I m Q]: started in a world satisfying [I], the computation [m]
    ends in a world satisfying [I], and a value it returns satisfies [Q]. *)
Definition holds {A : Type} I (m : M D A) (Q : A -> Prop) : Prop :=
  forall w r w', I w -> m w = (r, w') -> I w' /\ forall a, r = Ok a -> Q a.

(** Invariants that survive what every computation may do: consulting
    the outside world and allocating. *)
Class Stable I : Prop := {
  stable_tick : forall w, I w -> I (tick D w);
  stable_alloc : forall w v, I w -> I (set_heap D (<[fresh (dom (heap w)) := v]> (heap w)) w)
}.

(** Invariants that also survive the traffic with the database. *)
Class Open I : Prop := {
  open_stable :: Stable I;
  open_heap : forall w w', heap w' = heap w -> I w -> I w'
}.

(** Nothing was sent to the database since [w0], and what [w0] had on the
    heap is still there. *)
Definition quiet_from (w0 : World D) : World D -> Prop :=
  fun w => trace w = trace w0 /\ store w = store w0 /\ txs w = txs w0
           /\ next_tx w = next_tx w0 /\ heap w0 ⊆ heap w.

(** What [h0] holds is still on the heap, unchanged. *)
Definition above (h0 : gmap loc Value) : World D -> Prop :=
  fun w => h0 ⊆ heap w.

(** The traffic with the database is what it was in [w0]. *)
Definition same_db (w0 : World D) : World D -> Prop :=
  fun w => trace w = trace w0 /\ store w = store w0 /\ txs w = txs w0
           /\ next_tx w = next_tx w0.

(** The record a model denotes: the struct itself when it is passed by
    value, the struct a non-nil pointer points to otherwise. *)
Definition denotes w (model : Value) (d : StructDecl) (vals : list Value) : Prop :=
  model = VStruct d vals
  \/ exists t l, model = VPtr t (Some l) /\ heap w !! l = Some (VStruct d vals).

End Assertions.

(** A [reflect.Value] that does not stand for a variable of the heap [h0]. *)
Definition outside (h0 : gmap loc Value) (v : RValue) : Prop :=
  forall l, v = RRef l -> l ∉ dom h0.

(** The statements a run of [MigrateUp] sends for the migrations it has
    gone through completely: for each, its up script and then the update
    that marks it as applied, all on the transaction [tx]. *)
Inductive script_events (m : MigrationManager.t) (tx : nat)
    : list Migration.t -> list Event -> Prop :=
| script_nil : script_events m tx [] []
| script_cons (mg : Migration.t) (rest : list Migration.t) (now : Value) (evs : list Event) :
    script_events m tx rest evs ->
    script_events m tx (mg :: rest)
      (EvExec (OnTx tx) (Migration.Up mg) []
       :: EvExec (OnTx tx) (MigrationManager.markAppliedQuery m)
                 [Some now; Some (VInt (Migration.ID mg))]
       :: evs).

(** How a run of the loop of [MigrateUp] over [migs] can end, with the
    events [evs] it sent: all migrations went through, or the up script or
    the marking update of one of them, [mg], failed after the ones before
    it went through. *)
Definition loop_outcome (m : MigrationManager.t) (tx : nat) (migs : list Migration.t)
    (out : Out unit) (evs : list Event) : Prop :=
  match out with
  | Ok _ => script_events m tx migs evs
  | Err e =>
      exists pre mg post sevs e0,
        migs = pre ++ mg :: post
        /\ script_events m tx pre sevs
        /\ ((evs = sevs ++ [EvExec (OnTx tx) (Migration.Up mg) []]
             /\ e = ErrWrap ("failed to apply migration " +:+ Migration.Name mg) e0)
            \/ (exists now,
                 evs = sevs ++ [EvExec (OnTx tx) (Migration.Up mg) [];
                                EvExec (OnTx tx) (MigrationManager.markAppliedQuery m)
                                       [Some now; Some (VInt (Migration.ID mg))]]
                 /\ e = ErrWrap ("failed to mark migration " +:+ Migration.Name mg
                                   +:+ " as applied") e0))
  | Panic _ => False
  end.

(** ** More assertions *)

Section MoreAssertions.

Context {D : Driver}.
Implicit Types w : World D.

(** A model that is nil, a nil pointer, a value that is not a struct, or a
    pointer to such a value. *)
Definition not_a_record w (model : any) : Prop :=
  match model with
  | None => True
  | Some (VStruct _ _) => False
  | Some (VPtr _ None) => True
  | Some (VPtr _ (Some l)) =>
      exists x, heap w !! l = Some x /\ forall d vals, x <> VStruct d vals
  | Some _ => True
  end.

(** The variable [l] holds a record of the struct [d]. *)
Definition record_at (l : loc) (d : StructDecl) : World D -> Prop :=
  fun w => exists vals, heap w !! l = Some (VStruct d vals).

End MoreAssertions.

(** The query of [All] for records of the struct [d]. *)
Definition all_query (d : StructDecl) (conditions : string) (args : list any)
    : string * list any :=
  let info := modelInfoOf (VPtr (TStruct d) None) d in
  let qb := QueryBuilder.Select (QueryBuilder.NewQueryBuilder (ModelInfo.TableName info)) [] in
  QueryBuilder.Build (if decide (conditions = "") then qb
                      else QueryBuilder.Where qb conditions args) [].

(** A name made of ASCII letters and digits. *)
Definition is_alnum (a : ascii) : bool :=
  Str.is_upper a || Str.is_lower a || Str.is_digit a.
Fixpoint all_alnum (s : string) : bool :=
  match s with
  | EmptyString => true
  | String a s' => is_alnum a && all_alnum s'
  end.

(** What relates a table under construction to the metadata under
    construction. *)
Definition agree (table : Table.t) (pk : string) (acc : list FieldInfo.t) : Prop :=
  map Column.Name (Table.Columns table) = map FieldInfo.DBName acc
  /\ map Column.IsPrimaryKey (Table.Columns table) = map FieldInfo.IsKey acc
  /\ map Column.IsAutoIncrement (Table.Columns table) = map FieldInfo.IsAuto acc
  /\ Forall (fun c => Column.Type_ c = "") (Table.Columns table)
  /\ (forall c, Table.PrimaryKey table = Some c -> Column.Name c = pk).

Section Counting.

Context {D : Driver}.


(** [keeps_heap m]: however it ends, a run of [m] leaves every variable
    as it was, and makes no new one. *)
Definition keeps_heap {A : Type} (m : M D A) : Prop :=
  forall (w : World D) (out : Out A) (w' : World D), m w = (out, w') -> heap w' = heap w.

End Counting.

(** * Properties *)

(** ** Determinism of [Build] *)

Lemma perm_short {A : Type} (l1 l2 : list A) :
  l1 ≡ₚ l2 -> (length l1 <= 1)%nat -> l1 = l2.
Proof.
  intros Hp Hl.
  destruct l1 as [|x [|y l1]]; simpl in Hl; try lia.
  - symmetry. apply Permutation_nil. exact Hp.
  - apply Permutation_singleton_l in Hp. exact Hp.
Qed.

Lemma map_range_short {V : Type} (m : gmap string V) (rng1 rng2 : list (string * V)) :
  map_range m rng1 -> map_range m rng2 -> (size m <= 1)%nat -> rng1 = rng2.
Proof.
  unfold map_range. intros H1 H2 Hs.
  apply perm_short.
  - rewrite H1, H2. reflexivity.
  - rewrite (Permutation_length H1), length_map_to_list. exact Hs.
Qed.

Lemma Builder_Build_other (b : Builder.t) (rng1 rng2 : list (string * any)) :
  Builder.operation b <> "INSERT" -> Builder.operation b <> "UPDATE" ->
  Builder.Build b rng1 = Builder.Build b rng2.
Proof.
  intros Hi Hu. unfold Builder.Build.
  repeat case_decide; try reflexivity; contradiction.
Qed.

Lemma QueryBuilder_Build_other (qb : QueryBuilder.t) (rng1 rng2 : list (string * any)) :
  QueryBuilder.operation qb <> "INSERT" -> QueryBuilder.operation qb <> "UPDATE" ->
  QueryBuilder.Build qb rng1 = QueryBuilder.Build qb rng2.
Proof.
  intros Hi Hu. unfold QueryBuilder.Build.
  repeat case_decide; try reflexivity; contradiction.
Qed.

(** C1, as the code has it: two invocations of [Build] on the same state
    agree when the statement is not an INSERT or UPDATE, or when at most
    one column/value pair was recorded with [Set]; this holds for the
    dialect-aware [Builder] under every dialect and for [QueryBuilder].
    (With more pairs the text follows the enumeration of the map.) *)
Theorem Build_deterministic_up_to_enumeration
    (b : Builder.t) (qb : QueryBuilder.t) (r1 r2 q1 q2 : list (string * any)) :
  map_range (Builder.values b) r1 -> map_range (Builder.values b) r2 ->
  map_range (QueryBuilder.values qb) q1 -> map_range (QueryBuilder.values qb) q2 ->
  (Builder.operation b <> "INSERT" /\ Builder.operation b <> "UPDATE")
    \/ (size (Builder.values b) <= 1)%nat ->
  (QueryBuilder.operation qb <> "INSERT" /\ QueryBuilder.operation qb <> "UPDATE")
    \/ (size (QueryBuilder.values qb) <= 1)%nat ->
  Builder.Build b r1 = Builder.Build b r2
  /\ QueryBuilder.Build qb q1 = QueryBuilder.Build qb q2.
Proof.
  intros Hr1 Hr2 Hq1 Hq2 Hb Hqb. split.
  - destruct Hb as [[Hi Hu]|Hs].
    + apply Builder_Build_other; assumption.
    + rewrite (map_range_short _ _ _ Hr1 Hr2 Hs). reflexivity.
  - destruct Hqb as [[Hi Hu]|Hs].
    + apply QueryBuilder_Build_other; assumption.
    + rewrite (map_range_short _ _ _ Hq1 Hq2 Hs). reflexivity.
Qed.

Lemma Build_deterministic_up_to_enumeration_witness :
  Builder.Build Examples.insert_one Examples.username_only
    = Builder.Build Examples.insert_one Examples.username_only
  /\ QueryBuilder.Build Examples.update_one Examples.username_only
    = QueryBuilder.Build Examples.update_one Examples.username_only.
Proof.
  apply (Build_deterministic_up_to_enumeration
           Examples.insert_one Examples.update_one
           Examples.username_only Examples.username_only
           Examples.username_only Examples.username_only).
  - vm_compute. reflexivity.
  - vm_compute. reflexivity.
  - vm_compute. reflexivity.
  - vm_compute. reflexivity.
  - right. vm_compute. lia.
  - right. vm_compute. lia.
Defined.

(** C1, as stated, fails: the same INSERT state with two recorded pairs
    yields two different texts and argument lists under the two orders in
    which the map may be enumerated. *)
Lemma Build_two_enumerations_differ :
  map_range (Builder.values Examples.insert_two) Examples.email_first
  /\ map_range (Builder.values Examples.insert_two) Examples.username_first
  /\ Builder.Build Examples.insert_two Examples.email_first
       <> Builder.Build Examples.insert_two Examples.username_first.
Proof.
  split; [|split].
  - vm_compute. first [reflexivity | apply perm_swap].
  - vm_compute. first [reflexivity | apply perm_swap].
  - vm_compute. discriminate.
Qed.

(** ** Reasoning about runs *)

Section Logic.

Context {D : Driver}.
Implicit Types (w : World D) (I : World D -> Prop).

Lemma bind_inv {A B : Type} (m : M D A) (k : A -> M D B) w (r : Out B) w' :
  bind m k w = (r, w') ->
  (exists a w1, m w = (Ok a, w1) /\ k a w1 = (r, w'))
  \/ (exists e, m w = (Err e, w') /\ r = Err e)
  \/ (exists p, m w = (Panic p, w') /\ r = Panic p).
Proof.
  unfold bind. destruct (m w) as [[a|e|p] w1]; intros H.
  - left. eauto.
  - right. left. inversion H; subst. eauto.
  - right. right. inversion H; subst. eauto.
Qed.

Lemma bind_ok {A B : Type} (m : M D A) (k : A -> M D B) w a w1 :
  m w = (Ok a, w1) -> bind m k w = k a w1.
Proof. unfold bind. intros ->. reflexivity. Qed.

Lemma bind_err {A B : Type} (m : M D A) (k : A -> M D B) w e w1 :
  m w = (Err e, w1) -> bind m k w = (Err e, w1).
Proof. unfold bind. intros ->. reflexivity. Qed.

Lemma holds_ret {A : Type} I (a : A) (Q : A -> Prop) : Q a -> holds I (ret a) Q.
Proof. intros HQ w r w' HI H. inversion H; subst. split; [assumption|]. intros ? [= <-]. assumption. Qed.

Lemma holds_fail {A : Type} I (e : error) (Q : A -> Prop) : holds I (fail e) Q.
Proof. intros w r w' HI H. inversion H; subst. split; [assumption|]. discriminate. Qed.

Lemma holds_panic {A : Type} I (p : string) (Q : A -> Prop) : holds I (panic p) Q.
Proof. intros w r w' HI H. inversion H; subst. split; [assumption|]. discriminate. Qed.

Lemma holds_bind {A B : Type} I (m : M D A) (k : A -> M D B) (Q : A -> Prop) (Q' : B -> Prop) :
  holds I m Q -> (forall a, Q a -> holds I (k a) Q') -> holds I (bind m k) Q'.
Proof.
  intros Hm Hk w r w' HI H.
  apply bind_inv in H as [(a & w1 & Hmw & Hkw)|[(e & Hmw & ->)|(p & Hmw & ->)]].
  - destruct (Hm _ _ _ HI Hmw) as [HI1 HQ]. eapply Hk; eauto.
  - destruct (Hm _ _ _ HI Hmw) as [HI1 _]. split; [assumption|discriminate].
  - destruct (Hm _ _ _ HI Hmw) as [HI1 _]. split; [assumption|discriminate].
Qed.

Lemma holds_weaken {A : Type} I (m : M D A) (Q Q' : A -> Prop) :
  holds I m Q -> (forall a, Q a -> Q' a) -> holds I m Q'.
Proof. intros Hm HQ w r w' HI H. destruct (Hm _ _ _ HI H) as [? ?]. split; auto. Qed.

Lemma holds_true {A : Type} I (m : M D A) (Q : A -> Prop) :
  holds I m Q -> holds I m (fun _ => True).
Proof. intros Hm. eapply holds_weaken; eauto. Qed.

Lemma holds_lift {A : Type} I (r : res A) : holds I (lift r) (fun _ => True).
Proof. destruct r; [apply holds_ret; exact Logic.I | apply holds_fail]. Qed.

Lemma fresh_insert_subseteq (h0 h : gmap loc Value) (v : Value) :
  h0 ⊆ h -> h0 ⊆ <[fresh (dom h) := v]> h.
Proof.
  intros Hs. etransitivity; [exact Hs|].
  apply insert_subseteq. apply not_elem_of_dom. apply is_fresh.
Qed.

Global Instance quiet_from_stable w0 : Stable (quiet_from w0).
Proof.
  split.
  - intros w (? & ? & ? & ? & ?). repeat split; assumption.
  - intros w v (? & ? & ? & ? & ?). repeat split; try assumption.
    simpl. apply fresh_insert_subseteq. assumption.
Qed.

Global Instance above_stable h0 : Stable (above (D:=D) h0).
Proof.
  split.
  - intros w H. exact H.
  - intros w v H. unfold above in *. simpl. apply fresh_insert_subseteq. assumption.
Qed.

Global Instance above_open h0 : Open (above (D:=D) h0).
Proof.
  split; [apply _|].
  intros w w' Hh H. unfold above in *. rewrite Hh. exact H.
Qed.

Lemma quiet_from_refl w : quiet_from w w.
Proof. repeat split; reflexivity. Qed.

Section StableInv.

Context I `{!Stable I}.

Lemma holds_load l : holds I (load l) (fun _ => True).
Proof.
  intros w r w' HI H. unfold load in H.
  destruct (heap w !! l); inversion H; subst; split; auto; discriminate.
Qed.

Lemma holds_alloc v : holds I (alloc v) (fun _ => True).
Proof.
  intros w r w' HI H. unfold alloc in H. inversion H; subst.
  split; [apply stable_alloc; assumption|auto].
Qed.

Lemma holds_range {A : Type} (entries : list A) :
  holds I (range entries) (fun rng => rng ≡ₚ entries).
Proof.
  intros w r w' HI H. unfold range in H. inversion H; subst.
  split; [apply stable_tick; assumption|].
  intros a [= <-]. apply range_order_perm.
Qed.

Lemma holds_time_Now : holds I (time_Now D) (fun _ => True).
Proof.
  intros w r w' HI H. unfold time_Now in H. inversion H; subst.
  split; [apply stable_tick; assumption|auto].
Qed.

End StableInv.

Section OpenInv.

Context I `{!Open I}.

Lemma holds_DB_ExecContext q args : holds I (DB_ExecContext D q args) (fun _ => True).
Proof.
  intros w r w' HI H. unfold DB_ExecContext in H.
  destruct (run_exec D q args _) as [[r0 s']|e]; inversion H; subst;
    (split; [eapply open_heap; [|exact HI]; reflexivity | auto; discriminate]).
Qed.

Lemma holds_DB_QueryContext q args : holds I (DB_QueryContext D q args) (fun _ => True).
Proof.
  intros w r w' HI H. unfold DB_QueryContext in H.
  destruct (run_query D q args _) as [rs|e]; inversion H; subst;
    (split; [eapply open_heap; [|exact HI]; reflexivity | auto; discriminate]).
Qed.

End OpenInv.

End Logic.

Create HintDb hoare discriminated.

#[export] Hint Resolve holds_load holds_alloc holds_time_Now holds_lift : hoare.
#[export] Hint Resolve holds_DB_ExecContext holds_DB_QueryContext : hoare.

(** One step of a proof that a computation keeps an invariant: a leaf, a
    sequencing whose first part is a known computation, or a case split. *)
Ltac hoare_step :=
  first
    [ apply holds_ret; try exact Logic.I
    | apply holds_fail
    | apply holds_panic
    | eapply holds_bind; [ solve [eauto with hoare typeclass_instances] | intros ? ? ]
    | match goal with
      | |- holds _ (match ?x with _ => _ end) _ => destruct x
      | |- holds _ (if ?b then _ else _) _ => destruct b
      end
    | solve [eauto with hoare typeclass_instances]
    | eapply holds_true; solve [eauto with hoare typeclass_instances] ].

Ltac hoare := repeat hoare_step.

Section Readers.

Context {D : Driver} (I : World D -> Prop) `{!Stable I}.

Lemma holds_range_true {A : Type} (entries : list A) :
  holds I (range entries) (fun _ => True).
Proof. eapply holds_true. apply holds_range. assumption. Qed.

Lemma holds_current rv : holds I (current D rv) (fun _ => True).
Proof. unfold current. hoare. Qed.
Hint Resolve holds_current : hoare.

Lemma holds_extractModelInfo model : holds I (extractModelInfo D model) (fun _ => True).
Proof. unfold extractModelInfo. hoare. Qed.

Lemma holds_FieldByName v name :
  holds I (FieldByName D v name) (fun fo => forall f, fo = Some f -> f_of f = v).
Proof.
  unfold FieldByName. eapply holds_bind; [apply holds_current|].
  intros c _. destruct c as [[]|]; try apply holds_panic.
  destruct (lookup_field _ _ _) as [[i f]|]; apply holds_ret.
  - intros ? [= <-]. reflexivity.
  - discriminate.
Qed.

Lemma holds_field_value f : holds I (field_value D f) (fun _ => True).
Proof. unfold field_value. hoare. Qed.
Hint Resolve holds_field_value : hoare.

Lemma holds_Interface fo : holds I (Interface D fo) (fun _ => True).
Proof. unfold Interface. hoare. Qed.

Lemma holds_IsNil x : holds I (IsNil D x) (fun _ => True).
Proof. unfold IsNil. hoare. Qed.

Lemma holds_Elem x : holds I (Elem D x) (fun _ => True).
Proof. unfold Elem. hoare. Qed.

Lemma holds_QB_Build qb : holds I (QB_Build D qb) (fun _ => True).
Proof.
  unfold QB_Build. repeat case_decide; hoare.
  eapply holds_bind; [apply holds_range_true|]. intros; hoare.
Qed.

Hint Resolve holds_extractModelInfo holds_FieldByName holds_Interface
  holds_IsNil holds_Elem holds_QB_Build holds_range_true : hoare.

Lemma holds_create_sets v fields qb : holds I (create_sets D v fields qb) (fun _ => True).
Proof.
  revert qb. induction fields as [|field rest IH]; intros qb; simpl; hoare.
Qed.

Lemma holds_update_sets v fields idValue qb :
  holds I (update_sets D v fields idValue qb) (fun _ => True).
Proof.
  revert idValue qb. induction fields as [|field rest IH]; intros idValue qb; simpl; hoare.
Qed.

Lemma holds_delete_key v fields : holds I (delete_key D v fields) (fun _ => True).
Proof. induction fields as [|field rest IH]; simpl; hoare. Qed.

Lemma holds_relTypeOf rel : holds I (relTypeOf D rel) (fun _ => True).
Proof. unfold relTypeOf. hoare. Qed.

Lemma holds_new_model t : holds I (new_model D t) (fun _ => True).
Proof. unfold new_model. hoare. Qed.

Lemma holds_require_struct v : holds I (require_struct D v) (fun _ => True).
Proof. unfold require_struct. hoare. Qed.

Lemma holds_source_key source v :
  holds I (source_key D source v) (fun f => f_of f = v).
Proof.
  unfold source_key.
  eapply holds_bind; [apply holds_extractModelInfo|]. intros info _.
  eapply holds_bind; [apply holds_FieldByName|]. intros fo Hfo.
  destruct fo as [f|]; [apply holds_ret; auto | apply holds_fail].
Qed.

End Readers.

#[export] Hint Resolve holds_current holds_field_value holds_extractModelInfo
  holds_FieldByName holds_Interface holds_IsNil holds_Elem holds_QB_Build
  holds_range_true holds_create_sets holds_update_sets holds_delete_key
  holds_relTypeOf holds_new_model holds_require_struct holds_source_key : hoare.

(** ** Update and Delete: zero affected rows *)

Ltac quiet_fact Hm HI :=
  let Hq := fresh "Hq" in
  match type of HI with
  | quiet_from ?w0 _ =>
      match type of Hm with
      | ?m _ = _ =>
          assert (Hq : holds (quiet_from w0) m (fun _ => True))
            by (first [ solve [eauto with hoare typeclass_instances]
                      | eapply holds_true; solve [eauto with hoare typeclass_instances] ]);
          destruct (Hq _ _ _ HI Hm) as [? _]; clear Hq
      end
  end.

Ltac quiet_prefix H HI :=
  let a := fresh "a" in
  let w1 := fresh "w1" in
  let Hm := fresh "Hm" in
  apply bind_inv in H as [(a & w1 & Hm & H)|[(? & Hm & ->)|(? & Hm & ->)]];
  quiet_fact Hm HI.

Section ZeroRows.

Context {D : Driver}.
Implicit Types w : World D.

Lemma quiet_no_event w w' (evs : list Event) :
  quiet_from w w' -> trace w' = trace w ++ evs -> evs = [].
Proof.
  intros (Ht & _) H. rewrite Ht in H.
  rewrite <- (app_nil_r (trace w)) in H at 1.
  apply app_inv_head in H. symmetry. exact H.
Qed.

(** A computation that sends nothing to the database and then ends the
    run cannot have extended the trace. *)
Lemma exec_affecting_zero w w1 q' args' q args r s' (out : Out unit) w' :
  quiet_from w w1 ->
  exec_affecting D q' args' w1 = (out, w') ->
  trace w' = trace w ++ [EvExec OnDB q args] ->
  run_exec D q args (store w) = Good (r, s') ->
  RowsAffected r = Good 0 ->
  out = Err ErrNotFound.
Proof.
  intros (Ht & Hs & _) H Htr Hrun Hzero.
  unfold exec_affecting, bind, DB_ExecContext in H. simpl in H.
  assert (Hev : q' = q /\ args' = args).
  { destruct (run_exec D q' args' (store w1)) as [[r0 s0]|e]; simpl in H.
    - destruct (lift (RowsAffected r0) _) as [[n|e|p] w2] eqn:Hl;
        unfold lift in Hl; destruct (RowsAffected r0); inversion Hl; subst;
        try (destruct (bool_decide _)); inversion H; subst; simpl in Htr;
        rewrite Ht in Htr; apply app_inv_head in Htr; inversion Htr; auto.
    - inversion H; subst. simpl in Htr.
      rewrite Ht in Htr; apply app_inv_head in Htr; inversion Htr; auto. }
  destruct Hev as [-> ->]. rewrite Hs, Hrun in H. simpl in H.
  unfold lift in H. rewrite Hzero in H. simpl in H. inversion H. reflexivity.
Qed.

Lemma Update_zero_rows c model w q args r s' out w' :
  run_exec D q args (store w) = Good (r, s') ->
  RowsAffected r = Good 0 ->
  Update D c model w = (out, w') ->
  trace w' = trace w ++ [EvExec OnDB q args] ->
  out = Err ErrNotFound.
Proof.
  intros Hrun Hzero H Htr.
  pose proof (quiet_from_refl w) as HI.
  unfold Update in H.
  quiet_prefix H HI; try (apply quiet_no_event in Htr; [discriminate|assumption]).
  quiet_prefix H H0; try (apply quiet_no_event in Htr; [discriminate|assumption]).
  destruct (fst a0) as [idValue|].
  2:{ inversion H; subst. apply quiet_no_event in Htr; [discriminate|assumption]. }
  quiet_prefix H H1; try (apply quiet_no_event in Htr; [discriminate|assumption]).
  eapply exec_affecting_zero; eauto.
Qed.

Lemma Delete_zero_rows c model w q args r s' out w' :
  run_exec D q args (store w) = Good (r, s') ->
  RowsAffected r = Good 0 ->
  Delete D c model w = (out, w') ->
  trace w' = trace w ++ [EvExec OnDB q args] ->
  out = Err ErrNotFound.
Proof.
  intros Hrun Hzero H Htr.
  pose proof (quiet_from_refl w) as HI.
  unfold Delete in H.
  quiet_prefix H HI; try (apply quiet_no_event in Htr; [discriminate|assumption]).
  quiet_prefix H H0; try (apply quiet_no_event in Htr; [discriminate|assumption]).
  destruct a0 as [x|].
  2:{ inversion H; subst. apply quiet_no_event in Htr; [discriminate|assumption]. }
  quiet_prefix H H1; try (apply quiet_no_event in Htr; [discriminate|assumption]).
  eapply exec_affecting_zero; eauto.
Qed.

End ZeroRows.

(** C4: an [Update] or a [Delete] whose statement [q] with arguments
    [args] is executed successfully by the database and affects zero rows
    returns [ErrNotFound]. *)
Theorem zero_rows_affected_is_NotFound
    (D : Driver) (c : Connection) (model : any) (w : World D)
    (q : string) (args : list any) (r : ExecResult) (s' : Store D)
    (out : Out unit) (w' : World D) :
  Update D c model w = (out, w') \/ Delete D c model w = (out, w') ->
  trace w' = trace w ++ [EvExec OnDB q args] ->
  run_exec D q args (store w) = Good (r, s') ->
  RowsAffected r = Good 0 ->
  out = Err ErrNotFound.
Proof.
  intros [H|H] Htr Hrun Hzero.
  - eapply Update_zero_rows; eauto.
  - eapply Delete_zero_rows; eauto.
Qed.

Lemma zero_rows_affected_is_NotFound_witness :
  fst (Update Toy.driver Toy.conn Toy.ghost (Toy.world {[1%nat := Toy.casper]}))
  = Err ErrNotFound.
Proof.
  apply (zero_rows_affected_is_NotFound Toy.driver Toy.conn Toy.ghost
           (Toy.world {[1%nat := Toy.casper]})
           "UPDATE ghosts SET name = ? WHERE id = ?"
           [Some (VStr "casper"); Some (VInt 9)]
           (mkResult (Good 1) (Good 0))
           ["UPDATE ghosts SET name = ? WHERE id = ?"]
           (fst (Update Toy.driver Toy.conn Toy.ghost (Toy.world {[1%nat := Toy.casper]})))
           (snd (Update Toy.driver Toy.conn Toy.ghost (Toy.world {[1%nat := Toy.casper]})))).
  - left. apply surjective_pairing.
  - vm_compute. reflexivity.
  - vm_compute. reflexivity.
  - reflexivity.
Defined.

(** On the example database the UPDATE of a ghost is executed and reports
    [ErrNotFound]. *)
Example Update_ghost :
  let r := Update Toy.driver Toy.conn Toy.ghost (Toy.world {[1%nat := Toy.casper]}) in
  fst r = Err ErrNotFound
  /\ trace (snd r) = [EvExec OnDB "UPDATE ghosts SET name = ? WHERE id = ?"
                             [Some (VStr "casper"); Some (VInt 9)]].
Proof. vm_compute. split; reflexivity. Qed.

(** So does the DELETE of a ghost. *)
Example Delete_ghost :
  let r := Delete Toy.driver Toy.conn Toy.ghost (Toy.world {[1%nat := Toy.casper]}) in
  fst r = Err ErrNotFound
  /\ trace (snd r) = [EvExec OnDB "DELETE FROM ghosts WHERE id = ?" [Some (VInt 9)]].
Proof. vm_compute. split; reflexivity. Qed.

(** ** Single steps on a known heap *)

Section Steps.

Context {D : Driver}.
Implicit Types w : World D.

Lemma load_some w l v : heap w !! l = Some v -> load l w = (Ok v, w).
Proof. unfold load. intros ->. reflexivity. Qed.

Lemma current_ref w l v : heap w !! l = Some v -> current D (RRef l) w = (Ok (Some v), w).
Proof. intros H. unfold current, bind. rewrite (load_some _ _ _ H). reflexivity. Qed.

Lemma current_denotes w model d vals :
  denotes w model d vals ->
  current D (indirect (Some model)) w = (Ok (Some (VStruct d vals)), w).
Proof.
  intros [->|(t & l & -> & H)]; simpl.
  - reflexivity.
  - apply current_ref. exact H.
Qed.

Lemma extractModelInfo_denotes w model d vals :
  denotes w model d vals ->
  extractModelInfo D (Some model) w = (Ok (modelInfoOf model d), w).
Proof.
  intros H. unfold extractModelInfo, bind.
  rewrite (current_denotes _ _ _ _ H). reflexivity.
Qed.

Lemma FieldByName_denotes w model d vals name :
  denotes w model d vals ->
  FieldByName D (indirect (Some model)) name w
  = (Ok (match lookup_field name (sfields d) 0 with
         | Some (i, f) => Some (mkFieldValue (indirect (Some model)) i f)
         | None => None
         end), w).
Proof.
  intros H. unfold FieldByName, bind.
  rewrite (current_denotes _ _ _ _ H).
  destruct (lookup_field name (sfields d) 0) as [[i f]|]; reflexivity.
Qed.

Lemma field_value_denotes w model d vals i f x :
  denotes w model d vals -> vals !! i = Some x ->
  field_value D (mkFieldValue (indirect (Some model)) i f) w = (Ok x, w).
Proof.
  intros H Hx. unfold field_value, bind. cbn [f_of f_index f_decl].
  rewrite (current_denotes _ _ _ _ H). rewrite Hx. reflexivity.
Qed.

Lemma Interface_denotes w model d vals i f x :
  denotes w model d vals -> vals !! i = Some x -> IsExported f = true ->
  Interface D (Some (mkFieldValue (indirect (Some model)) i f)) w = (Ok (ifaceOf x), w).
Proof.
  intros H Hx He. unfold Interface. cbn [f_of f_index f_decl]. rewrite He. unfold bind.
  rewrite (field_value_denotes _ _ _ _ _ _ _ H Hx). reflexivity.
Qed.

(** Names and positions of declared fields. *)

Lemma lookup_field_spec name fs k i f :
  lookup_field name fs k = Some (i, f) ->
  fname f = name /\ (k <= i)%nat /\ fs !! (i - k)%nat = Some f.
Proof.
  revert k. induction fs as [|g fs IH]; intros k H; simpl in H; [discriminate|].
  case_decide.
  - inversion H; subst. rewrite Nat.sub_diag. auto.
  - apply IH in H as (? & ? & Hl). repeat split; [assumption|lia|].
    replace (i - k)%nat with (S (i - S k)) by lia. exact Hl.
Qed.

Lemma lookup_field_found name fs k :
  (exists f, f ∈ fs /\ fname f = name) ->
  exists i f, lookup_field name fs k = Some (i, f).
Proof.
  revert k. induction fs as [|g fs IH]; intros k (f & Hin & Hn).
  - inversion Hin.
  - simpl. case_decide; [eauto|].
    apply IH. exists f. split; [|assumption].
    apply elem_of_cons in Hin as [->|]; [contradiction|assumption].
Qed.

Lemma IsExported_name (f g : FieldDecl) : fname f = fname g -> IsExported f = IsExported g.
Proof. unfold IsExported. intros ->. reflexivity. Qed.

(** Every field [model_fields] adds names an exported declared field. *)
Lemma model_fields_names fs pk acc fi :
  fi ∈ (model_fields fs pk acc).2 ->
  fi ∈ acc \/ exists f, f ∈ fs /\ fname f = FieldInfo.Name fi /\ IsExported f = true.
Proof.
  revert pk acc. induction fs as [|f fs IH]; intros pk acc H; simpl in H.
  - left. exact H.
  - destruct (IsExported f) eqn:He; simpl in H.
    + case_decide.
      * apply IH in H as [?|(g & ? & ? & ?)]; [left; assumption|].
        right. exists g. split; [apply elem_of_cons; right; assumption|auto].
      * destruct (tag_options _ _ _) as [[isKey isAuto] pk'].
        apply IH in H as [H|(g & ? & ? & ?)].
        -- apply elem_of_app in H as [?|H]; [left; assumption|].
           apply list_elem_of_singleton in H. subst fi. simpl.
           right. exists f. split; [apply elem_of_cons; left; reflexivity|auto].
        -- right. exists g. split; [apply elem_of_cons; right; assumption|auto].
    + apply IH in H as [?|(g & ? & ? & ?)]; [left; assumption|].
      right. exists g. split; [apply elem_of_cons; right; assumption|auto].
Qed.

(** In a well-formed record every field of the metadata is found, is
    exported and holds a value. *)
Lemma info_field_resolves (model : Value) (d : StructDecl) (vals : list Value) fi :
  length vals = length (sfields d) ->
  fi ∈ ModelInfo.Fields (modelInfoOf model d) ->
  exists i f x, lookup_field (FieldInfo.Name fi) (sfields d) 0 = Some (i, f)
                /\ IsExported f = true /\ vals !! i = Some x.
Proof.
  intros Hlen Hin. unfold modelInfoOf in Hin. simpl in Hin.
  apply model_fields_names in Hin as [Hin|(g & Hg & Hn & He)]; [inversion Hin|].
  destruct (lookup_field_found (FieldInfo.Name fi) (sfields d) 0) as (i & f & Hl).
  { eauto. }
  pose proof (lookup_field_spec _ _ _ _ _ Hl) as (Hf & _ & Hi).
  rewrite Nat.sub_0_r in Hi.
  destruct (lookup_lt_is_Some_2 vals i) as [x Hx].
  { rewrite Hlen. eapply lookup_lt_Some. exact Hi. }
  exists i, f, x. repeat split; try assumption.
  rewrite <- He. apply IsExported_name. congruence.
Qed.

End Steps.

(** ** Update and the missing key *)

Section MissingKey.

Context {D : Driver}.
Implicit Types w : World D.

Lemma update_sets_nil_key w (model : Value) (d : StructDecl) (vals : list Value)
    (fields : list FieldInfo.t) :
  denotes w model d vals ->
  (forall fi, fi ∈ fields ->
     exists i f x, lookup_field (FieldInfo.Name fi) (sfields d) 0 = Some (i, f)
                   /\ IsExported f = true /\ vals !! i = Some x
                   /\ (FieldInfo.IsKey fi = true -> x = VAny None)) ->
  forall qb, exists qb',
    update_sets D (indirect (Some model)) fields None qb w = (Ok (None, qb'), w).
Proof.
  intros Hd. induction fields as [|field rest IH]; intros Hf qb; simpl.
  - eexists. reflexivity.
  - destruct (Hf field) as (i & f & x & Hl & He & Hx & Hk).
    { apply elem_of_cons. left. reflexivity. }
    unfold bind at 1. rewrite (FieldByName_denotes _ _ _ _ _ Hd), Hl.
    unfold bind at 1. rewrite (Interface_denotes _ _ _ _ _ _ _ Hd Hx He).
    destruct (FieldInfo.IsKey field) eqn:Hkey.
    + rewrite (Hk eq_refl). simpl. apply IH.
      intros fi Hin. apply Hf. apply elem_of_cons. right. exact Hin.
    + apply IH.
      intros fi Hin. apply Hf. apply elem_of_cons. right. exact Hin.
Qed.

End MissingKey.

(** C3, as the code has it: [Update] fails with [ErrNoID] and sends no
    statement when the loop over the fields leaves [idValue] nil, that is,
    when no field of the record is tagged as the key, or when every key
    field is interface-typed and holds nil.  (A key field of pointer type
    holding a nil pointer is not such a record.) *)
Theorem Update_without_key_value
    (D : Driver) (c : Connection) (model : Value) (d : StructDecl) (vals : list Value)
    (w : World D) :
  denotes w model d vals ->
  length vals = length (sfields d) ->
  (forall fi i f,
      fi ∈ ModelInfo.Fields (modelInfoOf model d) ->
      FieldInfo.IsKey fi = true ->
      lookup_field (FieldInfo.Name fi) (sfields d) 0 = Some (i, f) ->
      vals !! i = Some (VAny None)) ->
  Update D c (Some model) w = (Err ErrNoID, w).
Proof.
  intros Hd Hlen Hkey. unfold Update.
  rewrite (bind_ok _ _ _ _ _ (extractModelInfo_denotes _ _ _ _ Hd)).
  destruct (update_sets_nil_key w model d vals
              (ModelInfo.Fields (modelInfoOf model d)) Hd) with
    (qb := QueryBuilder.Update
             (QueryBuilder.NewQueryBuilder (ModelInfo.TableName (modelInfoOf model d))))
    as [qb' Hu].
  { intros fi Hin.
    destruct (info_field_resolves model d vals fi Hlen Hin) as (i & f & x & Hl & He & Hx).
    exists i, f, x. repeat split; try assumption.
    intros Hk. specialize (Hkey fi i f Hin Hk Hl). congruence. }
  rewrite (bind_ok _ _ _ _ _ Hu). reflexivity.
Qed.

Lemma Update_without_key_value_witness :
  Update Toy.driver Toy.conn Toy.note (Toy.world {[1%nat := Toy.memo]})
  = (Err ErrNoID, Toy.world {[1%nat := Toy.memo]}).
Proof.
  apply (Update_without_key_value Toy.driver Toy.conn
           (VPtr (TStruct Toy.Note) (Some 1%nat)) Toy.Note [VStr "buy milk"]
           (Toy.world {[1%nat := Toy.memo]})).
  - right. exists (TStruct Toy.Note), 1%nat. split; reflexivity.
  - reflexivity.
  - intros fi i f Hin Hk. vm_compute in Hin.
    apply list_elem_of_singleton in Hin. subst fi. discriminate Hk.
Defined.

(** C3, as stated, fails: the key field of the record holds a nil pointer,
    an absent value, and [Update] sends the UPDATE with that nil pointer as
    the key instead of failing with [ErrNoID]. *)
Lemma Update_nil_pointer_key_is_sent :
  denotes (Toy.world {[1%nat := Toy.unsaved]}) (VPtr (TStruct Toy.Account) (Some 1%nat))
          Toy.Account [VPtr TInt64 None; VStr "savings"]
  /\ fst (Update Toy.driver Toy.conn Toy.account (Toy.world {[1%nat := Toy.unsaved]}))
       <> Err ErrNoID
  /\ trace (snd (Update Toy.driver Toy.conn Toy.account (Toy.world {[1%nat := Toy.unsaved]})))
     = [EvExec OnDB "UPDATE account SET name = ? WHERE id = ?"
               [Some (VStr "savings"); Some (VPtr TInt64 None)]].
Proof.
  split; [|split].
  - right. exists (TStruct Toy.Account), 1%nat. split; reflexivity.
  - vm_compute. discriminate.
  - vm_compute. reflexivity.
Qed.

(** ** Running a computation step by step *)

Section Run.

Context {D : Driver}.
Implicit Types w : World D.

Lemma bind_assoc {A B C : Type} (m : M D A) (f : A -> M D B) (g : B -> M D C) w :
  bind (bind m f) g w = bind m (fun x => bind (f x) g) w.
Proof. unfold bind. destruct (m w) as [[a|e|p] w1]; reflexivity. Qed.

Lemma bind_ret {A B : Type} (a : A) (k : A -> M D B) w : bind (ret a) k w = k a w.
Proof. reflexivity. Qed.

Lemma ret_run {A : Type} (a : A) w : ret (D:=D) a w = (Ok a, w).
Proof. reflexivity. Qed.

Lemma range_single {A : Type} (x : A) w : range [x] w = (Ok [x], tick D w).
Proof.
  unfold range. f_equal. f_equal.
  apply Permutation_singleton_r. apply range_order_perm.
Qed.

Lemma range_nil {A : Type} w : range (@nil A) w = (Ok [], tick D w).
Proof.
  unfold range. f_equal. f_equal.
  apply Permutation_nil. symmetry. apply range_order_perm.
Qed.

Lemma denotes_ref w t l d vals :
  heap w !! l = Some (VStruct d vals) -> denotes w (VPtr t (Some l)) d vals.
Proof. intros H. right. eauto. Qed.

Lemma extractModelInfo_ref w t l d vals :
  heap w !! l = Some (VStruct d vals) ->
  extractModelInfo D (Some (VPtr t (Some l))) w = (Ok (modelInfoOf (VPtr t (Some l)) d), w).
Proof. intros H. apply (extractModelInfo_denotes w _ d vals). apply denotes_ref. exact H. Qed.

Lemma FieldByName_ref w l d vals name i f :
  heap w !! l = Some (VStruct d vals) ->
  lookup_field name (sfields d) 0 = Some (i, f) ->
  FieldByName D (RRef l) name w = (Ok (Some (mkFieldValue (RRef l) i f)), w).
Proof.
  intros H Hl.
  pose proof (FieldByName_denotes w (VPtr TAny (Some l)) d vals name
                (denotes_ref _ _ _ _ _ H)) as E.
  cbn [indirect] in E. rewrite E, Hl. reflexivity.
Qed.

Lemma FieldByName_ref_none w l d vals name :
  heap w !! l = Some (VStruct d vals) ->
  lookup_field name (sfields d) 0 = None ->
  FieldByName D (RRef l) name w = (Ok None, w).
Proof.
  intros H Hl.
  pose proof (FieldByName_denotes w (VPtr TAny (Some l)) d vals name
                (denotes_ref _ _ _ _ _ H)) as E.
  cbn [indirect] in E. rewrite E, Hl. reflexivity.
Qed.

Lemma field_value_ref w l d vals i f x :
  heap w !! l = Some (VStruct d vals) -> vals !! i = Some x ->
  field_value D (mkFieldValue (RRef l) i f) w = (Ok x, w).
Proof.
  intros H Hx.
  apply (field_value_denotes w (VPtr TAny (Some l)) d vals i f x
           (denotes_ref _ _ _ _ _ H) Hx).
Qed.

Lemma Interface_ref w l d vals i f x :
  heap w !! l = Some (VStruct d vals) -> vals !! i = Some x -> IsExported f = true ->
  Interface D (Some (mkFieldValue (RRef l) i f)) w = (Ok (ifaceOf x), w).
Proof.
  intros H Hx He.
  apply (Interface_denotes w (VPtr TAny (Some l)) d vals i f x
           (denotes_ref _ _ _ _ _ H) Hx He).
Qed.

Lemma write_field_ref w l d vals i x :
  heap w !! l = Some (VStruct d vals) ->
  write_field D l i x w
  = (Ok tt, set_heap D (<[l := VStruct d (<[i := x]> vals)]> (heap w)) w).
Proof.
  intros H. unfold write_field, bind. rewrite (load_some _ _ _ H). reflexivity.
Qed.

Lemma Set_ref w l d vals i f x :
  heap w !! l = Some (VStruct d vals) ->
  IsExported f = true ->
  type_eqb (typeOf x) (ftype f) = true ->
  Set_ D (Some (mkFieldValue (RRef l) i f)) x w
  = (Ok tt, set_heap D (<[l := VStruct d (<[i := x]> vals)]> (heap w)) w).
Proof.
  intros H He Ht. unfold Set_. cbn [f_of f_decl f_index].
  rewrite He, Ht. simpl. apply write_field_ref. exact H.
Qed.

(** [Build] for an INSERT or UPDATE with one recorded pair. *)
Lemma QB_Build_single qb k v w :
  QueryBuilder.operation qb = "INSERT" \/ QueryBuilder.operation qb = "UPDATE" ->
  QueryBuilder.values qb = {[k := v]} ->
  QB_Build D qb w = (Ok (QueryBuilder.Build qb [(k, v)]), tick D w).
Proof.
  intros Hop Hv. unfold QB_Build.
  case_decide as Hs.
  { destruct Hop as [Ho|Ho]; rewrite Ho in Hs; discriminate. }
  case_decide as Hiu; [|contradiction].
  rewrite Hv, map_to_list_singleton.
  unfold bind. rewrite range_single. reflexivity.
Qed.

(** [Build] for a SELECT or DELETE. *)
Lemma QB_Build_select qb w :
  QueryBuilder.operation qb = "SELECT" ->
  QB_Build D qb w = (Ok (QueryBuilder.Build qb []), w).
Proof. intros Hop. unfold QB_Build. case_decide; [reflexivity|contradiction]. Qed.

Lemma QB_Build_delete qb w :
  QueryBuilder.operation qb = "DELETE" ->
  QB_Build D qb w = (Ok (QueryBuilder.Build qb []), w).
Proof.
  intros Hop. unfold QB_Build.
  case_decide as Hs; [rewrite Hop in Hs; discriminate|].
  case_decide as Hiu; [destruct Hiu as [Ho|Ho]; rewrite Hop in Ho; discriminate|].
  reflexivity.
Qed.

End Run.

Create HintDb run discriminated.

#[export] Hint Resolve ret_run range_single range_nil extractModelInfo_ref
  FieldByName_ref FieldByName_ref_none field_value_ref Interface_ref
  load_some write_field_ref Set_ref : run.
#[export] Hint Extern 1 (heap _ !! _ = Some _) => simpl; eassumption : run.
#[export] Hint Extern 1 (_ !! _ = Some _) => reflexivity : run.
#[export] Hint Extern 1 (lookup_field _ _ _ = _) => reflexivity : run.
#[export] Hint Extern 1 (IsExported _ = true) => reflexivity : run.
#[export] Hint Extern 1 (type_eqb _ _ = true) => reflexivity : run.

#[local] Arguments bind : simpl never.
#[local] Arguments ret : simpl never.
#[local] Arguments fail : simpl never.
#[local] Arguments panic : simpl never.
#[local] Arguments FieldByName : simpl never.
#[local] Arguments Interface : simpl never.
#[local] Arguments field_value : simpl never.
#[local] Arguments extractModelInfo : simpl never.
#[local] Arguments range : simpl never.
#[local] Arguments DB_ExecContext : simpl never.
#[local] Arguments DB_QueryContext : simpl never.
#[local] Arguments QB_Build : simpl never.
#[local] Arguments Set_ : simpl never.
#[local] Arguments write_field : simpl never.
#[local] Arguments load : simpl never.
#[local] Arguments alloc : simpl never.
#[local] Arguments current : simpl never.
#[local] Arguments QueryBuilder.Build : simpl never.

(** One step: the first computation of a sequence is replaced by its
    result, found among the known steps. *)
Ltac run1 :=
  repeat rewrite bind_assoc;
  repeat rewrite bind_ret;
  match goal with
  | |- context [bind ?m ?k ?w] =>
      erewrite (bind_ok m k w) by (eauto with run)
  end; simpl.

(** ** Writes to records leave the database alone *)

Section HeapWrites.

Context {D : Driver}.
Implicit Types w : World D.

Global Instance same_db_stable w0 : Stable (same_db w0).
Proof.
  split.
  - intros w (? & ? & ? & ?). repeat split; assumption.
  - intros w v (? & ? & ? & ?). repeat split; assumption.
Qed.

Lemma same_db_refl w : same_db w w.
Proof. repeat split; reflexivity. Qed.

Lemma holds_store_at w0 l v : holds (same_db w0) (store_at l v) (fun _ => True).
Proof.
  intros w r w' (H1 & H2 & H3 & H4) Heq. unfold store_at in Heq. inversion Heq; subst.
  split; [repeat split; assumption|auto].
Qed.

Lemma holds_write_field w0 l i x : holds (same_db w0) (write_field D l i x) (fun _ => True).
Proof.
  unfold write_field.
  eapply holds_bind; [apply holds_load; apply _|]. intros s _.
  destruct s; try apply holds_panic. apply holds_store_at.
Qed.

Lemma holds_Set_ w0 fo x : holds (same_db w0) (Set_ D fo x) (fun _ => True).
Proof.
  unfold Set_. destruct fo as [fv|]; [|apply holds_panic].
  destruct (f_of fv); try apply holds_panic.
  destruct (negb _); [apply holds_panic|].
  destruct (type_eqb _ _); [apply holds_write_field|].
  destruct (type_eqb _ _); [apply holds_write_field|apply holds_panic].
Qed.

Lemma holds_scan_into w0 l dests cols i :
  holds (same_db w0) (scan_into D l dests cols i) (fun _ => True).
Proof.
  revert cols i. induction dests as [|[ix f] dests IH]; intros cols i; simpl.
  - apply holds_ret. exact Logic.I.
  - destruct cols as [|col cols]; [apply holds_ret; exact Logic.I|].
    destruct (convertAssign D col (ftype f)); [|apply holds_fail].
    eapply holds_bind; [apply holds_write_field|]. intros _ _. apply IH.
Qed.

Lemma holds_Row_Scan w0 row l dests :
  holds (same_db w0) (Row_Scan D row l dests) (fun _ => True).
Proof.
  unfold Row_Scan. destruct row as [rs|e]; [|apply holds_fail].
  destruct (records rs) as [|cols rest].
  - destruct (rowsErr rs); apply holds_fail.
  - destruct (bool_decide _); [apply holds_scan_into|apply holds_fail].
Qed.

End HeapWrites.

(** ** The users example: Create and Find *)

Section Users.

Context {D : Driver}.
Implicit Types w : World D.

Lemma Create_users c l id0 username w :
  heap w !! l = Some (VStruct Toy.User [VInt id0; VStr username]) ->
  exists out w',
    Create D c (Some (VPtr (TStruct Toy.User) (Some l))) w = (out, w')
    /\ trace w' = trace w ++ [EvExec OnDB "INSERT INTO users (username) VALUES (?)"
                                     [Some (VStr username)]]
    /\ forall r s' id,
         run_exec D "INSERT INTO users (username) VALUES (?)" [Some (VStr username)]
                  (store w) = Good (r, s') ->
         LastInsertId r = Good id ->
         out = Ok tt /\ heap w' !! l = Some (VStruct Toy.User [VInt id; VStr username]).
Proof.
  intros Hh. unfold Create.
  run1. run1. run1. rewrite bind_ret.
  erewrite bind_ok
    by (eapply (QB_Build_single _ "username"); [left; reflexivity | apply insert_empty]).
  change (QueryBuilder.Build _ _)
    with ("INSERT INTO users (username) VALUES (?)", [Some (VStr username)]).
  cbn [fst snd]. unfold bind at 1. unfold DB_ExecContext. cbn [store log tick].
  destruct (run_exec D _ _ (store w)) as [[r s']|e] eqn:Hrun.
  - destruct (LastInsertId r) as [id|e] eqn:Hid.
    + run1. pose proof (Convert_same D (VInt id)) as Hc. simpl in Hc. rewrite Hc.
      erewrite Set_ref by (eauto with run).
      eexists _, _. split; [reflexivity|]. split; [reflexivity|].
      intros r' s'' id' [= <- <-] Hid'. rewrite Hid in Hid'. injection Hid' as <-.
      split; [reflexivity|]. simpl. apply lookup_insert_eq.
    + eexists _, _. split; [reflexivity|]. split; [reflexivity|].
      intros r' s'' id' [= <- <-] Hid'. rewrite Hid in Hid'. discriminate.
  - eexists _, _. split; [reflexivity|]. split; [reflexivity|].
    intros r' s'' id' Hr. discriminate.
Qed.

Lemma Find_users c l id0 username w :
  heap w !! l = Some (VStruct Toy.User [VInt id0; VStr username]) ->
  exists out w',
    Find D c (Some (VPtr (TStruct Toy.User) (Some l))) (Some (VInt 1)) w = (out, w')
    /\ trace w' = trace w ++ [EvQuery OnDB "SELECT * FROM users WHERE id = ?" [Some (VInt 1)]]
    /\ forall rows,
         run_query D "SELECT * FROM users WHERE id = ?" [Some (VInt 1)] (store w) = Good rows ->
         records rows = [] -> rowsErr rows = None -> out = Err ErrNotFound.
Proof.
  intros Hh. unfold Find.
  run1.
  erewrite bind_ok by (apply QB_Build_select; reflexivity).
  change (QueryBuilder.Build _ _)
    with ("SELECT * FROM users WHERE id = ?", [Some (VInt 1)]).
  cbn [fst snd].
  unfold scanRow, bind at 1, DB_QueryRowContext, DB_QueryContext. cbn [store log].
  set (w1 := log D (EvQuery OnDB "SELECT * FROM users WHERE id = ?" [Some (VInt 1)]) w).
  assert (Hh1 : heap w1 !! l = Some (VStruct Toy.User [VInt id0; VStr username])) by exact Hh.
  destruct (run_query D _ _ (store w)) as [rows|e] eqn:Hq;
    rewrite (bind_ok _ _ _ _ _ (load_some _ _ _ Hh1)).
  - destruct (Row_Scan D (Good rows) l (settable_fields (sfields Toy.User) 0) w1)
      as [o w2] eqn:Hscan.
    destruct (holds_Row_Scan w1 _ _ _ _ _ _ (same_db_refl w1) Hscan) as [(Ht & _) _].
    eexists _, w2. split; [reflexivity|]. split; [rewrite Ht; reflexivity|].
    intros rows' [= <-] Hrec Herr.
    unfold Row_Scan in Hscan. rewrite Hrec, Herr in Hscan.
    inversion Hscan; subst. reflexivity.
  - destruct (Row_Scan D (Bad e) l (settable_fields (sfields Toy.User) 0) w1)
      as [o w2] eqn:Hscan.
    destruct (holds_Row_Scan w1 _ _ _ _ _ _ (same_db_refl w1) Hscan) as [(Ht & _) _].
    eexists _, w2. split; [reflexivity|]. split; [rewrite Ht; reflexivity|].
    intros rows' Hr. discriminate.
Qed.

End Users.

(** C2, as the code has it: for the record type mapping to table users
    with auto-increment key id, [Create] sends
    [INSERT INTO users (username) VALUES (?)] whatever the driver of the
    connection, and writes the identifier the database reports into the
    record's ID field; [Find(record, 1)] sends
    [SELECT * FROM users WHERE id = ?] and fails with [ErrNotFound] when no
    row matches. *)
Theorem Create_and_Find_users
    (D : Driver) (c : Connection) (l : loc) (id0 : Z) (username : string) (w : World D) :
  heap w !! l = Some (VStruct Toy.User [VInt id0; VStr username]) ->
  (exists out w',
     Create D c (Some (VPtr (TStruct Toy.User) (Some l))) w = (out, w')
     /\ trace w' = trace w ++ [EvExec OnDB "INSERT INTO users (username) VALUES (?)"
                                      [Some (VStr username)]]
     /\ forall r s' id,
          run_exec D "INSERT INTO users (username) VALUES (?)" [Some (VStr username)]
                   (store w) = Good (r, s') ->
          LastInsertId r = Good id ->
          out = Ok tt /\ heap w' !! l = Some (VStruct Toy.User [VInt id; VStr username]))
  /\ (exists out w',
     Find D c (Some (VPtr (TStruct Toy.User) (Some l))) (Some (VInt 1)) w = (out, w')
     /\ trace w' = trace w ++ [EvQuery OnDB "SELECT * FROM users WHERE id = ?" [Some (VInt 1)]]
     /\ forall rows,
          run_query D "SELECT * FROM users WHERE id = ?" [Some (VInt 1)] (store w) = Good rows ->
          records rows = [] -> rowsErr rows = None -> out = Err ErrNotFound).
Proof.
  intros Hh. split.
  - eapply Create_users. exact Hh.
  - eapply Find_users. exact Hh.
Qed.

Lemma Create_and_Find_users_witness :
  (exists out w',
     Create Toy.driver Toy.conn Toy.user (Toy.world {[1%nat := Toy.jdoe]}) = (out, w')
     /\ trace w' = [] ++ [EvExec OnDB "INSERT INTO users (username) VALUES (?)"
                                 [Some (VStr "jdoe")]]
     /\ forall r s' id,
          run_exec Toy.driver "INSERT INTO users (username) VALUES (?)" [Some (VStr "jdoe")]
                   [] = Good (r, s') ->
          LastInsertId r = Good id ->
          out = Ok tt
          /\ heap w' !! 1%nat = Some (VStruct Toy.User [VInt id; VStr "jdoe"]))
  /\ (exists out w',
     Find Toy.driver Toy.conn Toy.user (Some (VInt 1)) (Toy.world {[1%nat := Toy.jdoe]})
       = (out, w')
     /\ trace w' = [] ++ [EvQuery OnDB "SELECT * FROM users WHERE id = ?" [Some (VInt 1)]]
     /\ forall rows,
          run_query Toy.driver "SELECT * FROM users WHERE id = ?" [Some (VInt 1)] []
            = Good rows ->
          records rows = [] -> rowsErr rows = None -> out = Err ErrNotFound).
Proof.
  apply (Create_and_Find_users Toy.driver Toy.conn 1%nat 0 "jdoe"
           (Toy.world {[1%nat := Toy.jdoe]})).
  reflexivity.
Defined.

(** C2, as stated, fails: on a connection opened with the postgres driver,
    [Create] and [Find] send statements without quoted identifiers and
    with [?] placeholders, not the texts the claim quotes. *)
Lemma Create_Find_postgres_texts_differ :
  ConnectionOptions.Driver (options Toy.conn) = "postgres"
  /\ trace (snd (Create Toy.driver Toy.conn Toy.user (Toy.world {[1%nat := Toy.jdoe]})))
       <> [EvExec OnDB Toy.quoted_insert [Some (VStr "jdoe")]]
  /\ trace (snd (Find Toy.driver Toy.conn Toy.user (Some (VInt 1))
                      (Toy.world {[1%nat := Toy.jdoe]})))
       <> [EvQuery OnDB Toy.quoted_select [Some (VInt 1)]].
Proof.
  split; [reflexivity|]. split; vm_compute; discriminate.
Qed.

(** ** Migrations *)

Section Migrations.

Context {D : Driver}.
Implicit Types w : World D.

Lemma Tx_ExecContext_open tx q args w s :
  txs w !! tx = Some s ->
  Tx_ExecContext D tx q args w
  = match run_exec D q args s with
    | Good (r, s') =>
        (Ok r, set_txs D (<[tx := s']> (txs w)) (log D (EvExec (OnTx tx) q args) w))
    | Bad e => (Err e, log D (EvExec (OnTx tx) q args) w)
    end.
Proof. intros H. unfold Tx_ExecContext. simpl. rewrite H. reflexivity. Qed.

Lemma script_events_app m tx pre post evs1 evs2 :
  script_events m tx pre evs1 -> script_events m tx post evs2 ->
  script_events m tx (pre ++ post) (evs1 ++ evs2).
Proof.
  induction 1; intros H2; simpl; [assumption|].
  constructor. auto.
Qed.

(** The loop of [MigrateUp] touches nothing but the copy of its
    transaction, and ends as [loop_outcome] says. *)
Lemma apply_migrations_spec m tx migs : forall w s out w',
  txs w !! tx = Some s ->
  MigrationManager.apply_migrations D m tx migs w = (out, w') ->
  store w' = store w /\ heap w' = heap w /\ next_tx w' = next_tx w
  /\ (exists s', txs w' !! tx = Some s' /\ delete tx (txs w') = delete tx (txs w))
  /\ exists evs, trace w' = trace w ++ evs /\ loop_outcome m tx migs out evs.
Proof.
  induction migs as [|mg rest IH]; intros w s out w' Hs H.
  - inversion H; subst. repeat split; try reflexivity.
    + exists s. split; [assumption|reflexivity].
    + exists []. rewrite app_nil_r. split; [reflexivity|constructor].
  - simpl in H. unfold MigrationManager.apply_migration in H.
    unfold bind at 1 in H. unfold bind at 1 in H.
    unfold MigrationManager.wrapping at 1 in H.
    rewrite (Tx_ExecContext_open _ _ _ _ _ Hs) in H.
    destruct (run_exec D (Migration.Up mg) [] s) as [[r1 s1]|e1].
    2:{ inversion H; subst. simpl. repeat split; try reflexivity.
        - exists s. split; [assumption|reflexivity].
        - eexists. split; [reflexivity|].
          exists [], mg, rest, [], e1. split; [reflexivity|]. split; [constructor|].
          left. split; reflexivity. }
    unfold bind at 1 in H. unfold time_Now at 1 in H.
    unfold bind at 1 in H. unfold MigrationManager.wrapping at 1 in H.
    erewrite Tx_ExecContext_open in H by (simpl; apply lookup_insert_eq).
    destruct (run_exec D (MigrationManager.markAppliedQuery m) _ s1) as [[r2 s2]|e2].
    2:{ inversion H; subst. simpl. repeat split; try reflexivity.
        - exists s1. split; [apply lookup_insert_eq|]. apply delete_insert_eq.
        - eexists. split; [rewrite <- app_assoc; reflexivity|].
          exists [], mg, rest, [], e2. split; [reflexivity|]. split; [constructor|].
          right. eexists. split; reflexivity. }
    unfold ret in H. cbv beta iota in H.
    match type of H with
    | MigrationManager.apply_migrations D m tx rest ?w2 = _ =>
        destruct (IH w2 s2 out w') as (Hst & Hh & Hn & (s' & Hs' & Hdel) & evs & Htr & Hout);
          [simpl; apply lookup_insert_eq|exact H|]
    end.
    simpl in Hst, Hh, Hn, Hdel, Htr.
    repeat split; try assumption.
    + exists s'. split; [assumption|].
      rewrite Hdel. rewrite !delete_insert_eq. reflexivity.
    + eexists. split; [rewrite Htr, <- !app_assoc; reflexivity|].
      destruct out as [[]|e|p]; simpl in Hout |- *.
      * constructor. exact Hout.
      * destruct Hout as (pre & mg' & post & sevs & e0 & -> & Hpre & Hcase).
        eexists (mg :: pre), mg', post, _, e0.
        split; [reflexivity|]. split; [constructor; exact Hpre|].
        destruct Hcase as [[-> ->]|(now & -> & ->)].
        -- left. split; reflexivity.
        -- right. exists now. split; reflexivity.
      * exact Hout.
Qed.

End Migrations.

Section MigrateUp.

Context {D : Driver}.
Implicit Types w : World D.

Lemma GetPendingMigrations_ok m w migrations w2 :
  MigrationManager.GetPendingMigrations D m w = (Ok migrations, w2) ->
  trace w2 = trace w ++ [EvQuery OnDB (MigrationManager.pendingQuery m) []]
  /\ store w2 = store w /\ txs w2 = txs w /\ next_tx w2 = next_tx w.
Proof.
  unfold MigrationManager.GetPendingMigrations, MigrationManager.load_migrations.
  unfold bind, DB_QueryContext. simpl.
  destruct (run_query D _ _ (store w)) as [rows|e]; [|discriminate].
  destruct (lift _ _) as [[ms|e|p] w3] eqn:Hl; try discriminate.
  unfold lift in Hl. destruct (MigrationManager.scan_migrations D (records rows));
    inversion Hl; subst.
  destruct (rowsErr rows); intros H; inversion H; subst.
  repeat split; reflexivity.
Qed.

Lemma Tx_Rollback_open tx w s :
  txs w !! tx = Some s ->
  Tx_Rollback D tx w = (Ok tt, set_txs D (delete tx (txs w)) (log D (EvRollback tx) w)).
Proof. intros H. unfold Tx_Rollback. simpl. rewrite H. reflexivity. Qed.

Lemma Tx_Rollback_done tx w :
  txs w !! tx = None ->
  Tx_Rollback D tx w = (Err ErrTxDone, log D (EvRollback tx) w).
Proof. intros H. unfold Tx_Rollback. simpl. rewrite H. reflexivity. Qed.

Lemma DB_BeginTx_ok w tx w1 :
  DB_BeginTx D w = (Ok tx, w1) ->
  tx = next_tx w /\ trace w1 = trace w ++ [EvBegin tx] /\ store w1 = store w
  /\ heap w1 = heap w /\ txs w1 = <[tx := store w]> (txs w).
Proof.
  unfold DB_BeginTx. destruct (begin_err D (store w)); [discriminate|].
  intros H. inversion H; subst. repeat split; reflexivity.
Qed.

End MigrateUp.

(** C5: [MigrateUp] loads the pending migrations with the ledger query
    ([WHERE applied_at IS NULL ORDER BY id ASC]) and, when a transaction
    can be begun, sends every up script and every marking update on that
    one transaction, in the order of the loaded list.  When a statement of
    migration [mg] fails, the error names [mg], the transaction is rolled
    back, and the database is left as it was before the run began the
    transaction: nothing of the run is retained. *)
Theorem MigrateUp_one_transaction_all_or_nothing
    (D : Driver) (m : MigrationManager.t) (w w1 w2 : World D)
    (migrations : list Migration.t) :
  MigrationManager.CreateMigrationsTable D m w = (Ok tt, w1) ->
  MigrationManager.GetPendingMigrations D m w1 = (Ok migrations, w2) ->
  forall out w', MigrationManager.MigrateUp D m w = (out, w') ->
    trace w2 = trace w1 ++ [EvQuery OnDB (MigrationManager.pendingQuery m) []]
    /\ store w2 = store w1
    /\ ((exists e, begin_err D (store w2) = Some e /\ out = Err e /\ w' = w2)
        \/ (begin_err D (store w2) = None
            /\ exists evs,
                 trace w' = trace w2 ++ EvBegin (next_tx w2) :: evs ++ [EvRollback (next_tx w2)]
                 /\ txs w' !! next_tx w2 = None
                 /\ ((exists sevs,
                        evs = sevs ++ [EvCommit (next_tx w2)]
                        /\ script_events m (next_tx w2) migrations sevs
                        /\ (out = Ok tt \/ exists e, out = Err e /\ store w' = store w1))
                     \/ (exists e,
                           out = Err e
                           /\ loop_outcome m (next_tx w2) migrations (Err e) evs
                           /\ store w' = store w1)))).
Proof.
  intros Hc Hp out w' H.
  destruct (GetPendingMigrations_ok _ _ _ _ Hp) as (Htr2 & Hst2 & Htx2 & Hn2).
  split; [exact Htr2|]. split; [exact Hst2|].
  unfold MigrationManager.MigrateUp in H.
  rewrite (bind_ok _ _ _ _ _ Hc) in H. rewrite (bind_ok _ _ _ _ _ Hp) in H.
  unfold bind at 1 in H. unfold DB_BeginTx in H.
  destruct (begin_err D (store w2)) as [e|] eqn:Hb.
  { left. inversion H; subst. eauto. }
  right. split; [reflexivity|].
  set (tx := next_tx w2) in *.
  unfold defer in H.
  match type of H with
  | context [bind ?a ?k ?w3] =>
      destruct (bind a k w3) as [r w4] eqn:Hbody; set (w3' := w3) in *
  end.
  destruct (Tx_Rollback D tx w4) as [rr w5] eqn:Hrb.
  inversion H; subst r w5. clear H.
  apply bind_inv in Hbody as [(a & wl & Hloop & Hcommit)|[(e & Hloop & ->)|(p & Hloop & ->)]].
  - (* every statement went through: Commit *)
    destruct (apply_migrations_spec m tx migrations w3' (store w2) _ _
                ltac:(simpl; apply lookup_insert_eq) Hloop)
      as (Hst & Hh & Hn & (s' & Hs' & Hdel) & evs & Htr & Hout).
    simpl in Hout. unfold Tx_Commit in Hcommit. simpl in Hcommit. rewrite Hs' in Hcommit.
    destruct (commit_err D s') as [e|] eqn:Hce; inversion Hcommit; subst out w4; clear Hcommit.
    + rewrite Tx_Rollback_done in Hrb by (simpl; apply lookup_delete_eq).
      inversion Hrb; subst w'. simpl.
      exists (evs ++ [EvCommit tx]). split.
      { rewrite Htr. simpl. rewrite <- !app_assoc. reflexivity. }
      split; [apply lookup_delete_eq|].
      left. exists evs. split; [reflexivity|]. split; [exact Hout|].
      right. exists e. split; [reflexivity|]. rewrite Hst. simpl. exact Hst2.
    + rewrite Tx_Rollback_done in Hrb by (simpl; apply lookup_delete_eq).
      inversion Hrb; subst w'. simpl.
      exists (evs ++ [EvCommit tx]). split.
      { rewrite Htr. simpl. rewrite <- !app_assoc. reflexivity. }
      split; [apply lookup_delete_eq|].
      left. exists evs. split; [reflexivity|]. split; [exact Hout|].
      left. reflexivity.
  - (* a statement failed: Rollback *)
    destruct (apply_migrations_spec m tx migrations w3' (store w2) _ _
                ltac:(simpl; apply lookup_insert_eq) Hloop)
      as (Hst & Hh & Hn & (s' & Hs' & Hdel) & evs & Htr & Hout).
    rewrite (Tx_Rollback_open _ _ _ Hs') in Hrb. inversion Hrb; subst w'. simpl.
    exists evs. split.
    { rewrite Htr. simpl. rewrite <- !app_assoc. reflexivity. }
    split; [apply lookup_delete_eq|].
    right. exists e. split; [reflexivity|]. split; [exact Hout|].
    rewrite Hst. simpl. exact Hst2.
  - exfalso.
    destruct (apply_migrations_spec m tx migrations w3' (store w2) _ _
                ltac:(simpl; apply lookup_insert_eq) Hloop)
      as (_ & _ & _ & _ & evs & _ & Hout).
    exact Hout.
Qed.

Lemma MigrateUp_one_transaction_all_or_nothing_witness :
  let r := MigrationManager.MigrateUp Toy.driver Toy.manager (Toy.world ∅) in
  let out := fst r in
  let w' := snd r in
    trace Toy.loaded
      = trace Toy.created ++ [EvQuery OnDB (MigrationManager.pendingQuery Toy.manager) []]
    /\ store Toy.loaded = store Toy.created
    /\ ((exists e, begin_err Toy.driver (store Toy.loaded) = Some e /\ out = Err e
                   /\ w' = Toy.loaded)
        \/ (begin_err Toy.driver (store Toy.loaded) = None
            /\ exists evs,
                 trace w' = trace Toy.loaded
                              ++ EvBegin (next_tx Toy.loaded) :: evs
                              ++ [EvRollback (next_tx Toy.loaded)]
                 /\ txs w' !! next_tx Toy.loaded = None
                 /\ ((exists sevs,
                        evs = sevs ++ [EvCommit (next_tx Toy.loaded)]
                        /\ script_events Toy.manager (next_tx Toy.loaded) Toy.pending sevs
                        /\ (out = Ok tt
                            \/ exists e, out = Err e /\ store w' = store Toy.created))
                     \/ (exists e,
                           out = Err e
                           /\ loop_outcome Toy.manager (next_tx Toy.loaded) Toy.pending
                                           (Err e) evs
                           /\ store w' = store Toy.created)))).
Proof.
  intros r out w'.
  apply (MigrateUp_one_transaction_all_or_nothing Toy.driver Toy.manager (Toy.world ∅)
           Toy.created Toy.loaded Toy.pending).
  - vm_compute. reflexivity.
  - vm_compute. reflexivity.
  - apply surjective_pairing.
Defined.

(** On the example database the second migration fails: the error names
    it, and the store keeps the ledger table only, although the first
    migration had run both its statements. *)
Example MigrateUp_broken :
  let r := MigrationManager.MigrateUp Toy.driver Toy.manager (Toy.world ∅) in
  fst r = Err (ErrWrap "failed to apply migration broken" (ErrDriver "statement refused"))
  /\ store (snd r) = [MigrationManager.createTableQuery Toy.manager]
  /\ txs (snd r) = ∅.
Proof. vm_compute. repeat split; reflexivity. Qed.

(** ** Transactions *)

Section Transactions.

Context {D : Driver}.
Implicit Types w : World D.

(** [Connection.WithTransaction] rolls back when the function returns an
    error and when it panics, before the error or the panic reaches the
    caller. *)
Lemma WithTransaction_rolls_back c (fn : nat -> M D unit) w tx w1 (r : Out unit) w2 :
  DB_BeginTx D w = (Ok tx, w1) ->
  fn tx w1 = (r, w2) ->
  (forall a, r <> Ok a) ->
  exists w3,
    WithTransaction D c fn w = (r, w3)
    /\ trace w3 = trace w2 ++ [EvRollback tx]
    /\ txs w3 !! tx = None
    /\ store w3 = store w2.
Proof.
  intros Hb Hfn Hr. unfold WithTransaction. rewrite (bind_ok _ _ _ _ _ Hb). rewrite Hfn.
  destruct r as [a|e|p]; [exfalso; eapply Hr; reflexivity| |].
  - destruct (Tx_Rollback D tx w2) as [rr w3] eqn:Hrb. exists w3. split; [reflexivity|].
    unfold Tx_Rollback in Hrb. simpl in Hrb.
    destruct (txs w2 !! tx) eqn:Ht; inversion Hrb; subst; simpl.
    + split; [reflexivity|]. split; [apply lookup_delete_eq|reflexivity].
    + split; [reflexivity|]. split; [exact Ht|reflexivity].
  - destruct (Tx_Rollback D tx w2) as [rr w3] eqn:Hrb. exists w3. split; [reflexivity|].
    unfold Tx_Rollback in Hrb. simpl in Hrb.
    destruct (txs w2 !! tx) eqn:Ht; inversion Hrb; subst; simpl.
    + split; [reflexivity|]. split; [apply lookup_delete_eq|reflexivity].
    + split; [reflexivity|]. split; [exact Ht|reflexivity].
Qed.

(** [Executor.WithTransaction] rolls back when the function returns an
    error. *)
Lemma Executor_WithTransaction_error e (fn : Executor.t -> M D unit) w tx w1 err w2 :
  Executor.db e = true ->
  DB_BeginTx D w = (Ok tx, w1) ->
  fn (Executor.NewTxExecutor tx) w1 = (Err err, w2) ->
  exists w3,
    Executor.WithTransaction D e fn w = (Err err, w3)
    /\ trace w3 = trace w2 ++ [EvRollback tx].
Proof.
  intros Hdb Hb Hfn. unfold Executor.WithTransaction. rewrite Hdb.
  rewrite (bind_ok _ _ _ _ _ Hb). rewrite Hfn.
  destruct (Tx_Rollback D tx w2) as [rr w3] eqn:Hrb. exists w3. split; [reflexivity|].
  unfold Tx_Rollback in Hrb. simpl in Hrb.
  destruct (txs w2 !! tx); inversion Hrb; subst; reflexivity.
Qed.

End Transactions.

(** C6 fails on [Executor.WithTransaction] (package query): when the
    caller-supplied function panics, the panic reaches the caller with the
    world exactly as the function left it: no rollback was sent, and a
    transaction the function left open stays open. *)
Theorem Executor_WithTransaction_panic_without_rollback
    (D : Driver) (e : Executor.t) (fn : Executor.t -> M D unit)
    (w w1 w2 : World D) (tx : nat) (p : string) (s : Store D) :
  Executor.db e = true ->
  DB_BeginTx D w = (Ok tx, w1) ->
  fn (Executor.NewTxExecutor tx) w1 = (Panic p, w2) ->
  txs w2 !! tx = Some s ->
  Executor.WithTransaction D e fn w = (Panic p, w2)
  /\ txs (snd (Executor.WithTransaction D e fn w)) !! tx = Some s
  /\ trace (snd (Executor.WithTransaction D e fn w)) = trace w2.
Proof.
  intros Hdb Hb Hfn Hs.
  assert (H : Executor.WithTransaction D e fn w = (Panic p, w2)).
  { unfold Executor.WithTransaction. rewrite Hdb.
    rewrite (bind_ok _ _ _ _ _ Hb). rewrite Hfn. reflexivity. }
  rewrite H. simpl. auto.
Qed.

Lemma Executor_WithTransaction_panic_without_rollback_witness :
  Executor.WithTransaction Toy.driver Executor.NewExecutor Toy.insert_then_panic (Toy.world ∅)
  = (Panic "index out of range",
     mkWorld Toy.driver ∅
       [EvBegin 0; EvExec (OnTx 0) "INSERT INTO audit (what) VALUES (?)" [Some (VStr "login")]]
       [] {[0%nat := ["INSERT INTO audit (what) VALUES (?)"]]} 1 0)
  /\ txs (snd (Executor.WithTransaction Toy.driver Executor.NewExecutor
                 Toy.insert_then_panic (Toy.world ∅))) !! 0%nat
     = Some ["INSERT INTO audit (what) VALUES (?)"]
  /\ trace (snd (Executor.WithTransaction Toy.driver Executor.NewExecutor
                   Toy.insert_then_panic (Toy.world ∅)))
     = [EvBegin 0; EvExec (OnTx 0) "INSERT INTO audit (what) VALUES (?)" [Some (VStr "login")]].
Proof.
  apply (Executor_WithTransaction_panic_without_rollback Toy.driver Executor.NewExecutor
           Toy.insert_then_panic (Toy.world ∅)
           (mkWorld Toy.driver ∅ [EvBegin 0] [] {[0%nat := []]} 1 0)).
  - reflexivity.
  - vm_compute. reflexivity.
  - vm_compute. reflexivity.
  - vm_compute. reflexivity.
Defined.

(** The same function under [Connection.WithTransaction]: the rollback is
    sent and the transaction is closed before the panic goes on. *)
Example WithTransaction_panic_rolls_back :
  let r := WithTransaction Toy.driver Toy.conn
             (fun tx => Toy.insert_then_panic (Executor.NewTxExecutor tx)) (Toy.world ∅) in
  fst r = Panic "index out of range"
  /\ trace (snd r)
     = [EvBegin 0; EvExec (OnTx 0) "INSERT INTO audit (what) VALUES (?)" [Some (VStr "login")];
        EvRollback 0]
  /\ txs (snd r) = ∅.
Proof. vm_compute. repeat split; reflexivity. Qed.

(** ** Preloading *)

#[export] Hint Resolve holds_store_at holds_write_field holds_Set_ : hoare.

Section PreloadKeepsDatabase.

Context {D : Driver}.
Implicit Types w : World D.

Lemma holds_map_column w0 relValue fields col x :
  holds (same_db w0) (map_column D relValue fields col x) (fun _ => True).
Proof. induction fields as [|field rest IH]; simpl; hoare. Qed.
Hint Resolve holds_map_column : hoare.

Lemma holds_map_columns w0 relValue fields columns values :
  holds (same_db w0) (map_columns D relValue fields columns values) (fun _ => True).
Proof.
  revert values. induction columns as [|col columns IH]; intros values; simpl; hoare.
Qed.
Hint Resolve holds_map_columns : hoare.

Lemma holds_scan_related w0 relType relInfo columns row :
  holds (same_db w0) (scan_related D relType relInfo columns row) (fun _ => True).
Proof. unfold scan_related. hoare. Qed.
Hint Resolve holds_scan_related : hoare.

Lemma holds_collect w0 relType relInfo columns elemT rs newSlice :
  holds (same_db w0) (collect D relType relInfo columns elemT rs newSlice) (fun _ => True).
Proof.
  revert newSlice. induction rs as [|row rs IH]; intros newSlice; simpl; hoare.
  eapply holds_bind with (Q := fun _ => True); [destruct elemT; hoare|].
  intros x _. hoare.
Qed.
Hint Resolve holds_collect : hoare.

Lemma holds_fill_collection w0 sourceValue field relType relInfo rows :
  holds (same_db w0) (fill_collection D sourceValue field relType relInfo rows)
        (fun _ => True).
Proof. unfold fill_collection. hoare. Qed.

Lemma holds_fill_single w0 sourceValue field relType relInfo rows :
  holds (same_db w0) (fill_single D sourceValue field relType relInfo rows)
        (fun _ => True).
Proof. unfold fill_single. hoare. Qed.

End PreloadKeepsDatabase.

(** The steps of a run before its first event: each binding is opened, the
    invariant [quiet_from] is carried over it, and a run that ends there
    contradicts the event [Htr] records. *)
Ltac quiet_carry Hm HI HI' :=
  let Hq := fresh "Hq" in
  match type of HI with
  | quiet_from ?w0 _ =>
      match type of Hm with
      | ?m _ = _ =>
          assert (Hq : holds (quiet_from w0) m (fun _ => True))
            by (first [ solve [eauto with hoare typeclass_instances]
                      | eapply holds_true; solve [eauto with hoare typeclass_instances] ]);
          destruct (Hq _ _ _ HI Hm) as [HI' _]; clear Hq
      end
  end.

Ltac quiet_steps H HI Htr :=
  repeat (
    let a := fresh "a" in
    let w1 := fresh "w1" in
    let Hm := fresh "Hm" in
    let HI' := fresh "HI" in
    apply bind_inv in H as [(a & w1 & Hm & H)|[(? & Hm & ->)|(? & Hm & ->)]];
    [ quiet_carry Hm HI HI'; clear HI; rename HI' into HI
    | exfalso; quiet_carry Hm HI HI'; apply quiet_no_event in Htr; [discriminate|assumption]
    | exfalso; quiet_carry Hm HI HI'; apply quiet_no_event in Htr; [discriminate|assumption] ]).

Section EmptyCollection.

Context {D : Driver}.
Implicit Types w : World D.

Lemma quiet_heap w0 w l v :
  quiet_from w0 w -> heap w0 !! l = Some v -> heap w !! l = Some v.
Proof. intros (_ & _ & _ & _ & Hs) H. eapply lookup_weaken; eauto. Qed.

Lemma DB_QueryContext_inv q args w (r : Out Rows) w' :
  DB_QueryContext D q args w = (r, w') ->
  w' = log D (EvQuery OnDB q args) w
  /\ r = match run_query D q args (store w) with Good rs => Ok rs | Bad e => Err e end.
Proof.
  unfold DB_QueryContext. simpl.
  destruct (run_query D q args (store w)); intros H; inversion H; auto.
Qed.

(** With no record in [rows], the loop adds nothing to the slice made by
    [reflect.MakeSlice(sliceType, 0, 0)], and that slice is stored. *)
Lemma fill_collection_empty l d (vals : list Value) field i fd elemT relType relInfo rows cols w :
  heap w !! l = Some (VStruct d vals) ->
  lookup_field field (sfields d) 0 = Some (i, fd) -> IsExported fd = true ->
  ftype fd = TSlice elemT ->
  Columns rows = Good cols -> records rows = [] -> rowsErr rows = None ->
  fill_collection D (RRef l) field relType relInfo rows w
  = (Ok tt, set_heap D (<[l := VStruct d (<[i := VSlice elemT (Some [])]> vals)]> (heap w)) w).
Proof.
  intros Hh Hl He Ht Hc Hr Herr. unfold fill_collection.
  rewrite Hc. simpl lift. rewrite bind_ret.
  run1. rewrite He. simpl. rewrite Ht. rewrite Hr. simpl collect. rewrite bind_ret.
  erewrite bind_ok.
  2:{ eapply Set_ref; eauto. rewrite Ht. simpl. apply type_eqb_refl. }
  rewrite Herr. reflexivity.
Qed.

End EmptyCollection.

(** C7: a HasMany preload whose query finds no child row succeeds, and the
    destination field holds an empty slice that is not nil.  The source is
    a pointer to the record at [l], [field] is its exported slice field,
    and the run sends exactly one query [q], which the database answers
    with the columns and no record. *)
Theorem preloadHasMany_zero_rows_empty_collection
    (D : Driver) (c : Connection) (t : GoType) (l : loc) (d : StructDecl)
    (vals : list Value) (field : string) (rel : Relationship.t) (w : World D)
    (i : nat) (fd : FieldDecl) (elemT : GoType) (q : string) (args : list any)
    (rows : Rows) (cols : list string) (out : Out unit) (w' : World D) :
  heap w !! l = Some (VStruct d vals) ->
  lookup_field field (sfields d) 0 = Some (i, fd) -> IsExported fd = true ->
  ftype fd = TSlice elemT ->
  preloadHasMany D c (Some (VPtr t (Some l))) field rel w = (out, w') ->
  trace w' = trace w ++ [EvQuery OnDB q args] ->
  run_query D q args (store w) = Good rows ->
  Columns rows = Good cols -> records rows = [] -> rowsErr rows = None ->
  out = Ok tt
  /\ heap w' !! l = Some (VStruct d (<[i := VSlice elemT (Some [])]> vals)).
Proof.
  intros Hh Hl He Ht H Htr Hq Hc Hr Herr.
  pose proof (quiet_from_refl w) as HI.
  unfold preloadHasMany in H. cbn [indirect] in H.
  quiet_steps H HI Htr.
  unfold select_related in H. rewrite bind_assoc in H.
  quiet_steps H HI Htr.
  apply bind_inv in H as [(rows' & wq & Hqq & H)|[(e & Hqq & ->)|(p & Hqq & ->)]];
    apply DB_QueryContext_inv in Hqq as [-> Hres].
  - destruct HI as (Ht0 & Hs0 & _ & _ & Hsub).
    match type of H with
    | fill_collection _ _ _ ?rt ?ri _ (log _ (EvQuery OnDB ?q' ?a') ?wq) = _ =>
        destruct (holds_fill_collection _ (RRef l) field rt ri rows' _ _ _ (same_db_refl _) H)
          as [(Htr' & _) _];
        assert (Hhq : heap (log D (EvQuery OnDB q' a') wq) !! l = Some (VStruct d vals))
          by (simpl; eapply lookup_weaken; eauto)
    end.
    simpl in Htr'. rewrite Ht0, Htr in Htr'. apply app_inv_head in Htr'.
    injection Htr' as Hq1 Hq2. rewrite <- Hq1, <- Hq2, Hs0, Hq in Hres.
    injection Hres as ->.
    erewrite fill_collection_empty in H by eauto.
    injection H as <- <-. split; [reflexivity|]. simpl. apply lookup_insert_eq.
  - exfalso. destruct HI as (Ht0 & Hs0 & _).
    simpl in Htr. rewrite Ht0 in Htr. apply app_inv_head in Htr.
    injection Htr as Hq1 Hq2. rewrite Hq1, Hq2, Hs0, Hq in Hres. discriminate.
  - exfalso. destruct (run_query D _ _ _) in Hres; discriminate.
Qed.

Lemma preloadHasMany_zero_rows_empty_collection_witness :
  let r := preloadHasMany Toy.driver Toy.conn Toy.post "Comments" Toy.comments_of_post
             (Toy.world {[1%nat := Toy.draft]}) in
  fst r = Ok tt
  /\ heap (snd r) !! 1%nat
     = Some (VStruct Toy.Post [VInt 7; VStr "draft"; VSlice (TStruct Toy.Comment) (Some [])]).
Proof.
  apply (preloadHasMany_zero_rows_empty_collection
           Toy.driver Toy.conn (TStruct Toy.Post) 1%nat Toy.Post
           [VInt 7; VStr "draft"; VSlice (TStruct Toy.Comment) None]
           "Comments" Toy.comments_of_post (Toy.world {[1%nat := Toy.draft]})
           2%nat (mkField "Comments" (TSlice (TStruct Toy.Comment)) "-")
           (TStruct Toy.Comment)
           "SELECT * FROM comments WHERE post_id = ?" [Some (VInt 7)]
           (mkRows (Good ["id"]) [] None) ["id"]);
    reflexivity.
Defined.

(** ** Nested deletion and the join table *)

Section JoinRows.

Context {D : Driver}.
Implicit Types w : World D.

Lemma source_key_denotes w model d vals i f :
  denotes w model d vals ->
  lookup_field (toFieldName (ModelInfo.PrimaryKey (modelInfoOf model d))) (sfields d) 0
    = Some (i, f) ->
  source_key D (Some model) (indirect (Some model)) w
  = (Ok (mkFieldValue (indirect (Some model)) i f), w).
Proof.
  intros Hd Hl. unfold source_key.
  rewrite (bind_ok _ _ _ _ _ (extractModelInfo_denotes _ _ _ _ Hd)).
  rewrite (bind_ok _ _ _ _ _ (FieldByName_denotes _ _ _ _ _ Hd)).
  rewrite Hl. reflexivity.
Qed.

Lemma denotes_same_heap w w' model d vals :
  heap w' = heap w -> denotes w model d vals -> denotes w' model d vals.
Proof. intros Hh [->|(t & l & -> & H)]; [left; reflexivity|right]. exists t, l. rewrite Hh. auto. Qed.

Lemma DB_ExecContext_good q args w r s' :
  run_exec D q args (store w) = Good (r, s') ->
  DB_ExecContext D q args w = (Ok r, set_store D s' (log D (EvExec OnDB q args) w)).
Proof. intros H. unfold DB_ExecContext. simpl. rewrite H. reflexivity. Qed.

Lemma DB_ExecContext_bad q args w e :
  run_exec D q args (store w) = Bad e ->
  DB_ExecContext D q args w = (Err e, log D (EvExec OnDB q args) w).
Proof. intros H. unfold DB_ExecContext. simpl. rewrite H. reflexivity. Qed.

Lemma DB_QueryContext_good q args w rows :
  run_query D q args (store w) = Good rows ->
  DB_QueryContext D q args w = (Ok rows, log D (EvQuery OnDB q args) w).
Proof. intros H. unfold DB_QueryContext. simpl. rewrite H. reflexivity. Qed.

Lemma DB_QueryContext_bad q args w e :
  run_query D q args (store w) = Bad e ->
  DB_QueryContext D q args w = (Err e, log D (EvQuery OnDB q args) w).
Proof. intros H. unfold DB_QueryContext. simpl. rewrite H. reflexivity. Qed.


(** What follows the selection of the ids: at most one more statement. *)
Lemma cascade_events (rel : Relationship.t) (r : res (list any)) w :
  exists out w' rest,
    bind (lift (D:=D) r)
         (fun ids =>
            match ids with
            | [] => ret tt
            | _ =>
                bind (relTypeOf D rel) (fun relType =>
                bind (new_model D relType) (fun relModel =>
                bind (extractModelInfo D relModel) (fun relInfo =>
                bind (DB_ExecContext D (deleteRelatedInQuery relInfo ids) ids)
                     (fun _ => ret tt))))
            end) w = (out, w')
    /\ trace w' = trace w ++ rest
    /\ (r = Good [] -> out = Ok tt /\ rest = [] /\ store w' = store w).
Proof.
  destruct r as [[|id ids]|e]; simpl lift.
  - exists (Ok tt), w, []. rewrite app_nil_r. repeat split; reflexivity.
  - rewrite bind_ret.
    match goal with
    | |- context [bind ?m ?k w] => destruct (bind m k w) as [out w'] eqn:H
    end.
    exists out, w'.
    apply bind_inv in H as [(t & w1 & Hm & H)|[(e & Hm & ->)|(p & Hm & ->)]].
    2,3: exists []; rewrite app_nil_r;
         (split; [reflexivity|]); (split; [|discriminate]);
         unfold relTypeOf in Hm; destruct (Relationship.Model rel); inversion Hm; reflexivity.
    assert (Hw1 : w1 = w)
      by (unfold relTypeOf in Hm; destruct (Relationship.Model rel); inversion Hm; reflexivity).
    subst w1.
    apply bind_inv in H as [(m & w1 & Hm1 & H)|[(e & Hm1 & ->)|(p & Hm1 & ->)]].
    2,3: unfold new_model, bind, alloc in Hm1; simpl in Hm1; inversion Hm1.
    assert (Htr1 : trace w1 = trace w).
    { unfold new_model, bind, alloc in Hm1. simpl in Hm1. inversion Hm1. reflexivity. }
    apply bind_inv in H as [(info & w2 & Hm2 & H)|[(e & Hm2 & ->)|(p & Hm2 & ->)]].
    2,3: exists []; rewrite app_nil_r; (split; [reflexivity|]); (split; [|discriminate]);
         destruct (holds_extractModelInfo (same_db w1) _ _ _ _ (same_db_refl w1) Hm2)
           as [(Ht & _) _]; congruence.
    destruct (holds_extractModelInfo (same_db w1) _ _ _ _ (same_db_refl w1) Hm2)
      as [(Ht2 & _) _].
    exists [EvExec OnDB (deleteRelatedInQuery info (id :: ids)) (id :: ids)].
    split; [reflexivity|]. split; [|discriminate].
    unfold bind, DB_ExecContext in H. simpl in H.
    destruct (run_exec D _ _ _) as [[r0 s']|e]; inversion H; simpl; congruence.
  - exists (Err e), w, []. rewrite app_nil_r. repeat split; try reflexivity; discriminate.
Qed.

Lemma nestedDeleteManyToMany_events (c : Connection) (model : Value) (d : StructDecl) (vals : list Value)
    (i : nat) (f : FieldDecl) (x : Value) (field : string) (rel : Relationship.t)
    (opts : NestedOption.t) (w : World D) :
  denotes w model d vals ->
  lookup_field (toFieldName (ModelInfo.PrimaryKey (modelInfoOf model d))) (sfields d) 0
    = Some (i, f) ->
  IsExported f = true ->
  vals !! i = Some x ->
  exists out w' evs,
    nestedDeleteManyToMany D c (Some model) field rel opts w = (out, w')
    /\ trace w' = trace w ++ EvExec OnDB (deleteJoinQuery rel) [ifaceOf x] :: evs
    /\ (forall e, run_exec D (deleteJoinQuery rel) [ifaceOf x] (store w) = Bad e ->
                  out = Err e /\ evs = [])
    /\ (forall r s', run_exec D (deleteJoinQuery rel) [ifaceOf x] (store w) = Good (r, s') ->
          (NestedOption.AutoDelete opts = false -> out = Ok tt /\ evs = [] /\ store w' = s')
          /\ (NestedOption.AutoDelete opts = true ->
              exists rest,
                evs = EvQuery OnDB (selectJoinQuery rel) [ifaceOf x] :: rest
                /\ (forall e, run_query D (selectJoinQuery rel) [ifaceOf x] s' = Bad e ->
                              out = Err e /\ rest = [])
                /\ (forall rows, run_query D (selectJoinQuery rel) [ifaceOf x] s' = Good rows ->
                                 scan_ids (records rows) = Good [] ->
                                 out = Ok tt /\ rest = [] /\ store w' = s'))).
Proof.
  intros Hd Hl He Hx. unfold nestedDeleteManyToMany.
  rewrite (bind_ok _ _ _ _ _ (source_key_denotes _ _ _ _ _ _ Hd Hl)).
  rewrite (bind_ok _ _ _ _ _ (Interface_denotes _ _ _ _ _ _ _ Hd Hx He)).
  destruct (run_exec D (deleteJoinQuery rel) [ifaceOf x] (store w)) as [[r s']|e] eqn:Hex.
  - rewrite (bind_ok _ _ _ _ _ (DB_ExecContext_good _ _ _ _ _ Hex)).
    set (w1 := set_store D s' (log D (EvExec OnDB (deleteJoinQuery rel) [ifaceOf x]) w)).
    assert (Hd1 : denotes w1 model d vals) by (eapply denotes_same_heap; [|exact Hd]; reflexivity).
    destruct (NestedOption.AutoDelete opts) eqn:Hauto.
    + rewrite (bind_ok _ _ _ _ _ (Interface_denotes _ _ _ _ _ _ _ Hd1 Hx He)).
      destruct (run_query D (selectJoinQuery rel) [ifaceOf x] s') as [rows|e] eqn:Hq.
      * rewrite (bind_ok _ _ _ _ _ (DB_QueryContext_good _ _ w1 _ Hq)).
        destruct (cascade_events rel (scan_ids (records rows))
                    (log D (EvQuery OnDB (selectJoinQuery rel) [ifaceOf x]) w1))
          as (out & w' & rest & Hrun & Htr & Hnone).
        exists out, w', (EvQuery OnDB (selectJoinQuery rel) [ifaceOf x] :: rest).
        split; [exact Hrun|]. split.
        { rewrite Htr. simpl. rewrite <- !app_assoc. reflexivity. }
        split; [intros e [=]|].
        intros r0 s0 [= <- <-]. split; [discriminate|]. intros _.
        exists rest. split; [reflexivity|]. split; [intros e; rewrite Hq; discriminate|].
        intros rows0 Hq0 Hs. rewrite Hq in Hq0. injection Hq0 as <-.
        destruct (Hnone Hs) as (-> & -> & Hst). repeat split. exact Hst.
      * rewrite (bind_err _ _ _ _ _ (DB_QueryContext_bad _ _ w1 _ Hq)).
        eexists _, _, [EvQuery OnDB (selectJoinQuery rel) [ifaceOf x]].
        split; [reflexivity|]. split.
        { simpl. rewrite <- !app_assoc. reflexivity. }
        split; [intros e0 [=]|].
        intros r0 s0 [= <- <-]. split; [discriminate|]. intros _.
        exists []. split; [reflexivity|]. split.
        -- intros e0 He0. rewrite Hq in He0. injection He0 as <-. split; reflexivity.
        -- intros rows0 Hq0. rewrite Hq in Hq0. discriminate.
    + eexists _, _, []. split; [reflexivity|]. split; [reflexivity|].
      split; [intros e [=]|].
      intros r0 s0 [= <- <-]. split; [|discriminate]. intros _. repeat split.
  - rewrite (bind_err _ _ _ _ _ (DB_ExecContext_bad _ _ _ _ Hex)).
    eexists _, _, []. split; [reflexivity|]. split; [reflexivity|].
    split; [intros e0 [= <-]; split; reflexivity|]. intros r s' [=].
Qed.
End JoinRows.

(** C9: in the loop of [DeleteNested], a ManyToMany relationship is handed
    to [nestedDeleteManyToMany], which first sends
    [DELETE FROM joinTable WHERE joinForeignKey = ?] with the parent's key,
    whatever the options say ([AutoDelete] false and [NullifyOnDelete] true
    included).  With [AutoDelete] the selection of the related ids is the
    next statement, and it is answered by the store [s'] the deletion left:
    when that store has no join row for the parent, no related record is
    deleted. *)
Theorem DeleteNested_ManyToMany_join_rows_first
    (D : Driver) (c : Connection) (model : Value) (d : StructDecl) (vals : list Value)
    (i : nat) (f : FieldDecl) (x : Value) (field : string) (rel : Relationship.t)
    (opts : NestedOption.t) (others : list (string * Relationship.t)) (w : World D) :
  denotes w model d vals ->
  lookup_field (toFieldName (ModelInfo.PrimaryKey (modelInfoOf model d))) (sfields d) 0
    = Some (i, f) ->
  IsExported f = true ->
  vals !! i = Some x ->
  Relationship.Type_ rel = ManyToMany ->
  exists out w' evs,
    nestedDeleteManyToMany D c (Some model) field rel opts w = (out, w')
    /\ delete_rels D c (Some model) opts ((field, rel) :: others) w
       = match out with
         | Ok _ => delete_rels D c (Some model) opts others w'
         | Err e => (Err e, w')
         | Panic p => (Panic p, w')
         end
    /\ trace w' = trace w ++ EvExec OnDB (deleteJoinQuery rel) [ifaceOf x] :: evs
    /\ (forall e, run_exec D (deleteJoinQuery rel) [ifaceOf x] (store w) = Bad e ->
                  out = Err e /\ evs = [])
    /\ (forall r s', run_exec D (deleteJoinQuery rel) [ifaceOf x] (store w) = Good (r, s') ->
          (NestedOption.AutoDelete opts = false -> out = Ok tt /\ evs = [] /\ store w' = s')
          /\ (NestedOption.AutoDelete opts = true ->
              exists rest,
                evs = EvQuery OnDB (selectJoinQuery rel) [ifaceOf x] :: rest
                /\ (forall e, run_query D (selectJoinQuery rel) [ifaceOf x] s' = Bad e ->
                              out = Err e /\ rest = [])
                /\ (forall rows, run_query D (selectJoinQuery rel) [ifaceOf x] s' = Good rows ->
                                 scan_ids (records rows) = Good [] ->
                                 out = Ok tt /\ rest = [] /\ store w' = s'))).
Proof.
  intros Hd Hl He Hx Hty.
  destruct (nestedDeleteManyToMany_events c model d vals i f x field rel opts w Hd Hl He Hx)
    as (out & w' & evs & Hrun & Hrest).
  exists out, w', evs. split; [exact Hrun|]. split; [|exact Hrest].
  cbn [delete_rels]. rewrite Hty. simpl. unfold bind. rewrite Hrun.
  destruct out as [[]|e|p]; reflexivity.
Qed.

Lemma DeleteNested_ManyToMany_join_rows_first_witness :
  let w := Toy.world {[1%nat := Toy.draft]} in
  let key := [Some (VInt 7)] in
  exists out w' evs,
    nestedDeleteManyToMany Toy.driver Toy.conn Toy.post "Tags" Toy.tags_of_post
                           Toy.keep_related w = (out, w')
    /\ delete_rels Toy.driver Toy.conn Toy.post Toy.keep_related [("Tags", Toy.tags_of_post)] w
       = match out with
         | Ok _ => delete_rels Toy.driver Toy.conn Toy.post Toy.keep_related [] w'
         | Err e => (Err e, w')
         | Panic p => (Panic p, w')
         end
    /\ trace w' = [] ++ EvExec OnDB (deleteJoinQuery Toy.tags_of_post) key :: evs
    /\ (forall e, run_exec Toy.driver (deleteJoinQuery Toy.tags_of_post) key [] = Bad e ->
                  out = Err e /\ evs = [])
    /\ (forall r s', run_exec Toy.driver (deleteJoinQuery Toy.tags_of_post) key [] = Good (r, s') ->
          (NestedOption.AutoDelete Toy.keep_related = false ->
           out = Ok tt /\ evs = [] /\ store w' = s')
          /\ (NestedOption.AutoDelete Toy.keep_related = true ->
              exists rest,
                evs = EvQuery OnDB (selectJoinQuery Toy.tags_of_post) key :: rest
                /\ (forall e, run_query Toy.driver (selectJoinQuery Toy.tags_of_post) key s'
                              = Bad e -> out = Err e /\ rest = [])
                /\ (forall rows, run_query Toy.driver (selectJoinQuery Toy.tags_of_post) key s'
                                 = Good rows ->
                                 scan_ids (records rows) = Good [] ->
                                 out = Ok tt /\ rest = [] /\ store w' = s'))).
Proof.
  apply (DeleteNested_ManyToMany_join_rows_first Toy.driver Toy.conn
           (VPtr (TStruct Toy.Post) (Some 1%nat)) Toy.Post
           [VInt 7; VStr "draft"; VSlice (TStruct Toy.Comment) None]
           0%nat (mkField "Id" TInt64 "id,pk,auto") (VInt 7)
           "Tags" Toy.tags_of_post Toy.keep_related [] (Toy.world {[1%nat := Toy.draft]})).
  - right. exists (TStruct Toy.Post), 1%nat. split; reflexivity.
  - reflexivity.
  - reflexivity.
  - reflexivity.
  - reflexivity.
Defined.

(** The statements of the two policies on the example database: the join
    rows go in both, and with [AutoDelete] the selection follows. *)
Example DeleteNested_join_rows_kept_related :
  trace (snd (nestedDeleteManyToMany Toy.driver Toy.conn Toy.post "Tags" Toy.tags_of_post
                Toy.keep_related (Toy.world {[1%nat := Toy.draft]})))
  = [EvExec OnDB "DELETE FROM post_tags WHERE post_id = ?" [Some (VInt 7)]]
  /\ trace (snd (nestedDeleteManyToMany Toy.driver Toy.conn Toy.post "Tags" Toy.tags_of_post
                   Toy.cascade (Toy.world {[1%nat := Toy.draft]})))
     = [EvExec OnDB "DELETE FROM post_tags WHERE post_id = ?" [Some (VInt 7)];
        EvQuery OnDB "SELECT tag_id FROM post_tags WHERE post_id = ?" [Some (VInt 7)]].
Proof. split; vm_compute; reflexivity. Qed.

(** ** Preloading a slice of records held by value *)

Section Frame.

Context {D : Driver} (h0 : gmap loc Value).
Implicit Types w : World D.

Lemma outside_ref l : l ∉ dom h0 -> outside h0 (RRef l).
Proof. intros H l' [= <-]. exact H. Qed.

Lemma holds_alloc_outside v : holds (above h0) (alloc (D:=D) v) (fun l => l ∉ dom h0).
Proof.
  intros w r w' HI H. unfold alloc in H. inversion H; subst.
  split; [apply stable_alloc; assumption|].
  intros l [= <-]. intros Hin.
  apply (is_fresh (dom (heap w))).
  eapply subseteq_dom in HI. apply HI. exact Hin.
Qed.

Lemma holds_store_at_outside l v :
  l ∉ dom h0 -> holds (above h0) (store_at (D:=D) l v) (fun _ => True).
Proof.
  intros Hl w r w' HI H. unfold store_at in H. inversion H; subst.
  split; [|auto]. unfold above in *. simpl.
  apply insert_subseteq_r; [apply not_elem_of_dom; exact Hl|exact HI].
Qed.

Lemma holds_write_field_outside l i x :
  l ∉ dom h0 -> holds (above h0) (write_field D l i x) (fun _ => True).
Proof.
  intros Hl. unfold write_field.
  eapply holds_bind; [apply holds_load; apply _|]. intros s _.
  destruct s; try apply holds_panic. apply holds_store_at_outside. exact Hl.
Qed.

Lemma holds_Set_outside v fo x :
  outside h0 v -> (forall f, fo = Some f -> f_of f = v) ->
  holds (above h0) (Set_ D fo x) (fun _ => True).
Proof.
  intros Hv Hf. unfold Set_. destruct fo as [fv|]; [|apply holds_panic].
  specialize (Hf fv eq_refl).
  destruct (f_of fv) as [| |l] eqn:Hfo; try apply holds_panic.
  assert (Hl : l ∉ dom h0) by (apply Hv; congruence).
  destruct (negb _); [apply holds_panic|].
  destruct (type_eqb _ _); [apply holds_write_field_outside; exact Hl|].
  destruct (type_eqb _ _); [apply holds_write_field_outside; exact Hl|apply holds_panic].
Qed.

Hint Resolve holds_Set_outside outside_ref : hoare.

Lemma holds_map_column_outside relValue fields col x :
  outside h0 relValue ->
  holds (above h0) (map_column D relValue fields col x) (fun _ => True).
Proof. intros Hv. induction fields as [|field rest IH]; simpl; hoare. Qed.
Hint Resolve holds_map_column_outside : hoare.

Lemma holds_map_columns_outside relValue fields columns values :
  outside h0 relValue ->
  holds (above h0) (map_columns D relValue fields columns values) (fun _ => True).
Proof.
  intros Hv. revert values.
  induction columns as [|col columns IH]; intros values; simpl; hoare.
Qed.
Hint Resolve holds_map_columns_outside : hoare.

Lemma holds_scan_related_outside relType relInfo columns row :
  holds (above h0) (scan_related D relType relInfo columns row) (fun _ => True).
Proof.
  unfold scan_related.
  eapply holds_bind; [apply holds_alloc_outside|]. intros l Hl. hoare.
Qed.
Hint Resolve holds_scan_related_outside : hoare.

Lemma holds_collect_outside relType relInfo columns elemT rs newSlice :
  holds (above h0) (collect D relType relInfo columns elemT rs newSlice) (fun _ => True).
Proof.
  revert newSlice. induction rs as [|row rs IH]; intros newSlice; simpl; hoare.
  eapply holds_bind with (Q := fun _ => True); [destruct elemT; hoare|].
  intros x _. hoare.
Qed.
Hint Resolve holds_collect_outside : hoare.

Lemma holds_fill_collection_outside sourceValue field relType relInfo rows :
  outside h0 sourceValue ->
  holds (above h0) (fill_collection D sourceValue field relType relInfo rows) (fun _ => True).
Proof. intros Hv. unfold fill_collection. hoare. Qed.

Lemma holds_fill_single_outside sourceValue field relType relInfo rows :
  outside h0 sourceValue ->
  holds (above h0) (fill_single D sourceValue field relType relInfo rows) (fun _ => True).
Proof. intros Hv. unfold fill_single. hoare. Qed.
Hint Resolve holds_fill_collection_outside holds_fill_single_outside : hoare.

Lemma holds_select_related relInfo column key :
  holds (above h0) (select_related D relInfo column key) (fun _ => True).
Proof. unfold select_related. hoare. Qed.
Hint Resolve holds_select_related : hoare.

Lemma holds_preloadHasOne_outside c source field rel :
  outside h0 (indirect source) ->
  holds (above h0) (preloadHasOne D c source field rel) (fun _ => True).
Proof. intros Hv. unfold preloadHasOne. hoare. Qed.

Lemma holds_preloadBelongsTo_outside c source field rel :
  outside h0 (indirect source) ->
  holds (above h0) (preloadBelongsTo D c source field rel) (fun _ => True).
Proof. intros Hv. unfold preloadBelongsTo. hoare. Qed.

Lemma holds_preloadHasMany_outside c source field rel :
  outside h0 (indirect source) ->
  holds (above h0) (preloadHasMany D c source field rel) (fun _ => True).
Proof. intros Hv. unfold preloadHasMany. hoare. Qed.

Lemma holds_preloadManyToMany_outside c source field rel :
  outside h0 (indirect source) ->
  holds (above h0) (preloadManyToMany D c source field rel) (fun _ => True).
Proof. intros Hv. unfold preloadManyToMany. hoare. Qed.

Hint Resolve holds_preloadHasOne_outside holds_preloadBelongsTo_outside
  holds_preloadHasMany_outside holds_preloadManyToMany_outside : hoare.

Lemma holds_validateRelationship rel :
  holds (above h0) (validateRelationship D rel) (fun _ => True).
Proof. unfold validateRelationship. hoare. Qed.
Hint Resolve holds_validateRelationship : hoare.

Lemma holds_preload_rels_outside c source rels :
  outside h0 (indirect source) ->
  holds (above h0) (preload_rels D c source (indirect source) rels) (fun _ => True).
Proof.
  intros Hv. induction rels as [|[field rel] rest IH]; simpl; hoare.
  eapply holds_bind with (Q := fun _ => True); [|intros _ _; exact IH].
  repeat case_decide; hoare.
Qed.
Hint Resolve holds_preload_rels_outside : hoare.

Lemma holds_preload_record_outside c source relationships :
  outside h0 (indirect source) ->
  holds (above h0) (preload_record D c source relationships) (fun _ => True).
Proof.
  intros Hv. unfold preload_record.
  eapply holds_bind; [apply holds_range; apply _|]. intros rels _. hoare.
Qed.

(** The elements of a slice of structs held by value: none is a pointer. *)
Lemma holds_preload_elems_by_value c elemType relationships elems :
  Forall (fun e => forall t p, e <> VPtr t p) elems ->
  holds (above h0) (preload_elems D c elemType relationships elems) (fun _ => True).
Proof.
  induction 1 as [|elem rest Hne _ IH]; simpl; [hoare|].
  eapply holds_bind with (Q := fun _ => True); [|intros _ _; exact IH].
  destruct elem; try (exfalso; eapply Hne; reflexivity);
    (eapply holds_bind; [apply holds_alloc_outside|]; intros ptr Hptr;
     apply holds_preload_record_outside; apply outside_ref; exact Hptr).
Qed.

End Frame.

Section PreloadBySlice.

Context {D : Driver}.
Implicit Types w : World D.

Lemma by_value_not_pointer d (elems : list Value) :
  Forall (fun e => typeOf e = TStruct d) elems ->
  Forall (fun e => forall t p, e <> VPtr t p) elems.
Proof.
  intros H. eapply Forall_impl; [exact H|].
  intros e He t p ->. simpl in He. discriminate.
Qed.

Lemma Preload_slice_frame c (source : Value) t elemT (elems : list Value) rels w out w' :
  current D (indirect (Some source)) w = (Ok (Some (VSlice t (Some elems))), w) ->
  (match typeOf source with TPtr t' => t' | t' => t' end) = TSlice elemT ->
  Forall (fun e => forall t p, e <> VPtr t p) elems ->
  Preload D c (Some source) rels w = (out, w') ->
  heap w ⊆ heap w'.
Proof.
  intros Hcur Hty Hel H. unfold Preload in H. rewrite Hty in H.
  destruct (match elemT with TPtr t0 => t0 | _ => elemT end) eqn:Het;
    try (inversion H; subst; reflexivity).
  rewrite (bind_ok _ _ _ _ _ Hcur) in H.
  match type of H with
  | preload_elems _ _ ?et _ _ _ = _ =>
      destruct (holds_preload_elems_by_value (heap w) c et rels elems Hel w out w') as [HI _];
        [unfold above; reflexivity|exact H|exact HI]
  end.
Qed.

End PreloadBySlice.

(** C10: [Preload] on a slice of structs held by value, or on a pointer to
    such a slice, ends (with a result, an error or a panic) in a heap in
    which every variable that existed before holds what it held: the
    variable of the slice, and so its elements, are unchanged.  The
    relationships are loaded onto copies in fresh variables. *)
Theorem Preload_slice_by_value_unchanged
    (D : Driver) (c : Connection) (source : Value) (d : StructDecl) (elems : list Value)
    (relationships : gmap string Relationship.t) (w : World D)
    (out : Out unit) (w' : World D) :
  Forall (fun e => typeOf e = TStruct d) elems ->
  source = VSlice (TStruct d) (Some elems)
  \/ (exists l, source = VPtr (TSlice (TStruct d)) (Some l)
                /\ heap w !! l = Some (VSlice (TStruct d) (Some elems))) ->
  Preload D c (Some source) relationships w = (out, w') ->
  heap w ⊆ heap w'
  /\ forall l, source = VPtr (TSlice (TStruct d)) (Some l) ->
               heap w' !! l = Some (VSlice (TStruct d) (Some elems)).
Proof.
  intros Hel Hsrc H.
  assert (Hsub : heap w ⊆ heap w').
  { apply by_value_not_pointer in Hel.
    destruct Hsrc as [->|(l & -> & Hl)].
    - eapply (Preload_slice_frame c _ (TStruct d) (TStruct d) elems); eauto; reflexivity.
    - eapply (Preload_slice_frame c _ (TStruct d) (TStruct d) elems); eauto; [|reflexivity].
      cbn [indirect]. apply current_ref. exact Hl. }
  split; [exact Hsub|].
  intros l ->. destruct Hsrc as [[=]|(l' & [= <-] & Hl)].
  eapply lookup_weaken; eauto.
Qed.

Lemma Preload_slice_by_value_unchanged_witness :
  let w := Toy.world {[1%nat := Toy.shelf]} in
  let r := Preload Toy.driver Toy.conn Toy.posts Toy.post_rels w in
  heap w ⊆ heap (snd r)
  /\ forall l, VPtr (TSlice (TStruct Toy.Post)) (Some 1%nat)
               = VPtr (TSlice (TStruct Toy.Post)) (Some l) ->
               heap (snd r) !! l = Some (VSlice (TStruct Toy.Post) (Some [Toy.draft])).
Proof.
  intros w r.
  apply (Preload_slice_by_value_unchanged Toy.driver Toy.conn
           (VPtr (TSlice (TStruct Toy.Post)) (Some 1%nat)) Toy.Post [Toy.draft]
           Toy.post_rels w (fst r) (snd r)).
  - repeat constructor.
  - right. exists 1%nat. split; reflexivity.
  - apply surjective_pairing.
Defined.

(** On the example database the comments are loaded onto the copy of the
    post in the fresh variable 2, and the slice in variable 1 still holds
    the post as it was, its collection nil. *)
Example Preload_loads_onto_the_copy :
  let r := Preload Toy.driver Toy.conn Toy.posts Toy.post_rels
             (Toy.world {[1%nat := Toy.shelf]}) in
  fst r = Ok tt
  /\ heap (snd r) !! 1%nat
     = Some (VSlice (TStruct Toy.Post)
               (Some [VStruct Toy.Post [VInt 7; VStr "draft";
                                        VSlice (TStruct Toy.Comment) None]]))
  /\ heap (snd r) !! 2%nat
     = Some (VStruct Toy.Post [VInt 7; VStr "draft"; VSlice (TStruct Toy.Comment) (Some [])]).
Proof. vm_compute. repeat split; reflexivity. Qed.

(** ** Nested creation of a record that belongs to another *)

#[local] Arguments Create : simpl never.
#[local] Arguments Update : simpl never.

Section CreateFrame.

Context {D : Driver} (h0 : gmap loc Value).
Implicit Types w : World D.

Hint Resolve holds_Set_outside outside_ref : hoare.

Lemma holds_set_generated_id_outside v fields id :
  outside h0 v ->
  holds (above h0) (set_generated_id D v fields id) (fun _ => True).
Proof. intros Hv. induction fields as [|field rest IH]; simpl; hoare. Qed.
Hint Resolve holds_set_generated_id_outside : hoare.

Lemma holds_Create_outside c model :
  outside h0 (indirect model) ->
  holds (above h0) (Create D c model) (fun _ => True).
Proof. intros Hv. unfold Create. hoare. Qed.

End CreateFrame.

Section BelongsTo.

Context {D : Driver}.
Implicit Types w : World D.

Lemma Create_keeps c tc lc l v w out w1 :
  lc <> l -> heap w !! l = Some v ->
  Create D c (Some (VPtr tc (Some lc))) w = (out, w1) ->
  heap w1 !! l = Some v.
Proof.
  intros Hne Hl H.
  assert (Ho : outside {[l := v]} (indirect (Some (VPtr tc (Some lc))))).
  { cbn [indirect]. apply outside_ref. rewrite dom_singleton_L. set_solver. }
  assert (Ha : above (D:=D) {[l := v]} w).
  { unfold above. apply map_singleton_subseteq_l. exact Hl. }
  destruct (holds_Create_outside (D:=D) {[l := v]} c _ Ho _ _ _ Ha H) as [HI _].
  unfold above in HI. apply map_singleton_subseteq_l in HI. exact HI.
Qed.

Lemma nestedCreateBelongsTo_steps (c : Connection) (t : GoType) (l : loc) (d : StructDecl)
    (vals : list Value) (field : string) (j : nat) (fdr : FieldDecl) (tc : GoType) (lc : loc)
    (rel : Relationship.t) (opts : NestedOption.t) (w w1 : World D)
    (dc : StructDecl) (valsc : list Value) (k : nat) (fpk : FieldDecl) (pk : Value)
    (m : nat) (ffk : FieldDecl) :
  heap w !! l = Some (VStruct d vals) ->
  lookup_field field (sfields d) 0 = Some (j, fdr) -> IsExported fdr = true ->
  vals !! j = Some (VPtr tc (Some lc)) ->
  lc <> l ->
  Create D c (Some (VPtr tc (Some lc))) w = (Ok tt, w1) ->
  heap w1 !! lc = Some (VStruct dc valsc) ->
  lookup_field (toFieldName (ModelInfo.PrimaryKey (modelInfoOf (VPtr tc (Some lc)) dc)))
               (sfields dc) 0 = Some (k, fpk) ->
  valsc !! k = Some pk ->
  lookup_field (toFieldName (Relationship.ForeignKey rel)) (sfields d) 0 = Some (m, ffk) ->
  IsExported ffk = true ->
  type_eqb (typeOf pk) (ftype ffk) = true ->
  nestedCreateBelongsTo D c (Some (VPtr t (Some l))) field rel opts w
  = Update D c (Some (VPtr t (Some l)))
           (set_heap D (<[l := VStruct d (<[m := pk]> vals)]> (heap w1)) w1).
Proof.
  intros Hl Hf Hef Hj Hne Hc Hlc Hpk Hk Hfk Heffk Hty.
  pose proof (Create_keeps _ _ _ _ _ _ _ _ Hne Hl Hc) as Hl1.
  unfold nestedCreateBelongsTo, relationship_field. cbn [indirect].
  run1. run1. simpl IsNil. run1.
  rewrite (bind_ok _ _ _ _ _ Hc).
  run1. simpl Elem. run1. unfold related_key.
  run1. run1. run1. unfold copy_key. cbn [CanSet f_of f_decl].
  rewrite Heffk. run1.
  erewrite bind_ok by (eapply Set_ref; eauto).
  reflexivity.
Qed.

Lemma create_rels_BelongsTo c model opts field rel others w :
  NestedOption.AutoSave opts = true -> Relationship.Type_ rel = BelongsTo ->
  create_rels D c model opts ((field, rel) :: others) w
  = bind (nestedCreateBelongsTo D c model field rel opts)
         (fun _ => create_rels D c model opts others) w.
Proof. intros Ha Ht. cbn [create_rels]. rewrite Ha, Ht. reflexivity. Qed.
End BelongsTo.

(** C8: in the loop of [CreateNested], with auto-save on, a BelongsTo
    relationship whose field holds a non-nil pointer to the child runs in
    this order: [Create] of the child, which leads from [w] to [w1]; the
    value [pk] the child's key field holds in [w1] is stored in the
    parent's foreign key field; [Update] of the parent runs on the world so
    obtained. *)
Theorem CreateNested_BelongsTo_child_key_parent
    (D : Driver) (c : Connection) (t : GoType) (l : loc) (d : StructDecl)
    (vals : list Value) (field : string) (j : nat) (fdr : FieldDecl) (tc : GoType) (lc : loc)
    (rel : Relationship.t) (opts : NestedOption.t) (others : list (string * Relationship.t))
    (w w1 : World D)
    (dc : StructDecl) (valsc : list Value) (k : nat) (fpk : FieldDecl) (pk : Value)
    (m : nat) (ffk : FieldDecl) :
  NestedOption.AutoSave opts = true -> Relationship.Type_ rel = BelongsTo ->
  heap w !! l = Some (VStruct d vals) ->
  lookup_field field (sfields d) 0 = Some (j, fdr) -> IsExported fdr = true ->
  vals !! j = Some (VPtr tc (Some lc)) ->
  lc <> l ->
  Create D c (Some (VPtr tc (Some lc))) w = (Ok tt, w1) ->
  heap w1 !! lc = Some (VStruct dc valsc) ->
  lookup_field (toFieldName (ModelInfo.PrimaryKey (modelInfoOf (VPtr tc (Some lc)) dc)))
               (sfields dc) 0 = Some (k, fpk) ->
  valsc !! k = Some pk ->
  lookup_field (toFieldName (Relationship.ForeignKey rel)) (sfields d) 0 = Some (m, ffk) ->
  IsExported ffk = true ->
  type_eqb (typeOf pk) (ftype ffk) = true ->
  nestedCreateBelongsTo D c (Some (VPtr t (Some l))) field rel opts w
  = Update D c (Some (VPtr t (Some l)))
           (set_heap D (<[l := VStruct d (<[m := pk]> vals)]> (heap w1)) w1)
  /\ create_rels D c (Some (VPtr t (Some l))) opts ((field, rel) :: others) w
     = bind (Update D c (Some (VPtr t (Some l))))
            (fun _ => create_rels D c (Some (VPtr t (Some l))) opts others)
            (set_heap D (<[l := VStruct d (<[m := pk]> vals)]> (heap w1)) w1).
Proof.
  intros Ha Hrt Hl Hf Hef Hj Hne Hc Hlc Hpk Hk Hfk Heffk Hty.
  pose proof (nestedCreateBelongsTo_steps c t l d vals field j fdr tc lc rel opts w w1
                dc valsc k fpk pk m ffk Hl Hf Hef Hj Hne Hc Hlc Hpk Hk Hfk Heffk Hty) as E.
  split; [exact E|].
  rewrite (create_rels_BelongsTo _ _ _ _ _ _ _ Ha Hrt).
  unfold bind at 1. rewrite E. reflexivity.
Qed.

Lemma CreateNested_BelongsTo_child_key_parent_witness :
  let w := Toy.world Toy.newsroom in
  let w1 := snd (Create Toy.driver Toy.conn Toy.ann w) in
  let w2 := set_heap Toy.driver
              (<[1%nat := VStruct Toy.Article
                            (<[1%nat := VInt 1]>
                               [VInt 5; VInt 0; VPtr (TStruct Toy.Writer) (Some 2%nat)])]>
                 (heap w1)) w1 in
  nestedCreateBelongsTo Toy.driver Toy.conn Toy.article "Author" Toy.author_of_article
                        DefaultNestedOption w
  = Update Toy.driver Toy.conn Toy.article w2
  /\ create_rels Toy.driver Toy.conn Toy.article DefaultNestedOption
                 [("Author", Toy.author_of_article)] w
     = bind (Update Toy.driver Toy.conn Toy.article)
            (fun _ => create_rels Toy.driver Toy.conn Toy.article DefaultNestedOption []) w2.
Proof.
  intros w w1 w2.
  apply (CreateNested_BelongsTo_child_key_parent Toy.driver Toy.conn
           (TStruct Toy.Article) 1%nat Toy.Article
           [VInt 5; VInt 0; VPtr (TStruct Toy.Writer) (Some 2%nat)]
           "Author" 2%nat (mkField "Author" (TPtr (TStruct Toy.Writer)) "-")
           (TStruct Toy.Writer) 2%nat Toy.author_of_article DefaultNestedOption [] w w1
           Toy.Writer [VInt 1; VStr "ann"] 0%nat (mkField "Id" TInt64 "id,pk,auto") (VInt 1)
           1%nat (mkField "AuthorId" TInt64 "author_id"));
    try reflexivity.
  discriminate.
Defined.

(** The statements of [CreateNested] on the example database: the parent,
    then the child, then the parent again with the child's key. *)
Example CreateNested_article_statements :
  let r := CreateNested Toy.driver Toy.conn Toy.article {["Author" := Toy.author_of_article]}
             DefaultNestedOption (Toy.world Toy.newsroom) in
  fst r = Ok tt
  /\ trace (snd r)
     = [EvExec OnDB "INSERT INTO articles (author_id) VALUES (?)" [Some (VInt 0)];
        EvExec OnDB "INSERT INTO writers (name) VALUES (?)" [Some (VStr "ann")];
        EvExec OnDB "UPDATE articles SET author_id = ? WHERE id = ?"
               [Some (VInt 2); Some (VInt 1)]].
Proof. vm_compute. split; reflexivity. Qed.

(** * More properties *)

(** ** Strings: appending, splitting and joining *)

Lemma append_nil (t : string) : "" +:+ t = t.
Proof. reflexivity. Qed.

Lemma append_cons (a : ascii) (s t : string) : String a s +:+ t = String a (s +:+ t).
Proof. reflexivity. Qed.

Lemma append_nil_r (s : string) : s +:+ "" = s.
Proof. induction s as [|a s IH]; [reflexivity|]. rewrite append_cons, IH. reflexivity. Qed.

Lemma append_assoc (s t u : string) : (s +:+ t) +:+ u = s +:+ (t +:+ u).
Proof. induction s as [|a s IH]; [reflexivity|]. rewrite !append_cons, IH. reflexivity. Qed.

Lemma length_append (s t : string) :
  String.length (s +:+ t) = (String.length s + String.length t)%nat.
Proof. induction s as [|a s IH]; [reflexivity|]. rewrite append_cons. simpl. rewrite IH. reflexivity. Qed.

Lemma append_inj_r (s t u : string) : s +:+ u = t +:+ u -> s = t.
Proof.
  revert t. induction s as [|a s IH]; intros [|b t] H.
  - reflexivity.
  - apply (f_equal String.length) in H. rewrite append_nil, length_append in H. simpl in H. lia.
  - apply (f_equal String.length) in H. rewrite append_nil, length_append in H. simpl in H. lia.
  - rewrite !append_cons in H. injection H as -> H. f_equal. apply IH. exact H.
Qed.

(** Doubling a byte is injective. *)
Lemma Replace_double_inj (c : ascii) (s t : string) :
  Str.Replace s c (String c (String c "")) = Str.Replace t c (String c (String c "")) -> s = t.
Proof.
  revert t. induction s as [|a s IH]; intros [|b t] H; simpl in H.
  - reflexivity.
  - case_decide; rewrite ?append_cons in H; discriminate.
  - case_decide; rewrite ?append_cons in H; discriminate.
  - destruct (decide (a = c)) as [->|Ha], (decide (b = c)) as [->|Hb];
      rewrite ?append_cons, ?append_nil in H.
    + injection H as H. f_equal. apply IH. exact H.
    + injection H as H1 H2. congruence.
    + injection H as H1 H2. congruence.
    + injection H as -> H. f_equal. apply IH. exact H.
Qed.

Lemma Quote_injective_known (d : Dialect) (s1 s2 : string) :
  d = PostgresDialect \/ d = MySQLDialect \/ d = SQLiteDialect ->
  Quote d s1 = Quote d s2 -> s1 = s2.
Proof.
  intros [->|[->| ->]] H; simpl in H; unfold Str.dq, Str.bq in H;
    rewrite !append_cons, !append_nil in H; injection H as H;
    apply append_inj_r in H; eapply Replace_double_inj; exact H.
Qed.

(** [Split] and [Join] are inverse to each other. *)
Lemma Split_nonempty (s : string) (c : ascii) : Str.Split s c <> [].
Proof.
  destruct s as [|a s]; simpl; [discriminate|].
  case_decide; [discriminate|]. destruct (Str.Split s c); discriminate.
Qed.

Lemma concat_empty_cons (x : string) (l : list string) :
  String.concat "" (x :: l) = x +:+ String.concat "" l.
Proof. destruct l; simpl; [rewrite append_nil_r; reflexivity|reflexivity]. Qed.

Lemma concat_cons (sep p q : string) (ps : list string) :
  String.concat sep (p :: q :: ps) = p +:+ sep +:+ String.concat sep (q :: ps).
Proof. reflexivity. Qed.

Lemma Join_cons (p : string) (ps : list string) (sep : string) :
  Str.Join (p :: ps) sep = p +:+ String.concat "" (map (fun q => sep +:+ q) ps).
Proof.
  unfold Str.Join. revert p. induction ps as [|q ps IH]; intros p.
  - simpl. rewrite append_nil_r. reflexivity.
  - rewrite concat_cons, IH. cbn [map]. rewrite concat_empty_cons.
    rewrite !append_assoc. reflexivity.
Qed.

Lemma Join_Split (s : string) (c : ascii) :
  Str.Join (Str.Split s c) (String c "") = s.
Proof.
  induction s as [|a s IH]; [reflexivity|]. simpl.
  destruct (Str.Split s c) as [|p ps] eqn:E; [exfalso; eapply Split_nonempty; eauto|].
  case_decide as Ha.
  - subst a. unfold Str.Join in *. rewrite concat_cons, IH. reflexivity.
  - unfold Str.Join in *. destruct ps as [|q ps].
    + simpl in *. rewrite IH. reflexivity.
    + rewrite concat_cons in *. rewrite append_cons, IH. reflexivity.
Qed.

Lemma Contains_append_false (s t : string) (c : ascii) :
  Str.Contains (s +:+ t) c = Str.Contains s c || Str.Contains t c.
Proof.
  induction s as [|a s IH]; [reflexivity|]. rewrite append_cons. simpl.
  case_decide; [reflexivity|exact IH].
Qed.

Lemma Split_free (s : string) (c : ascii) : Str.Contains s c = false -> Str.Split s c = [s].
Proof.
  induction s as [|a s IH]; simpl; [reflexivity|].
  case_decide; [discriminate|]. intros Hs. rewrite (IH Hs). reflexivity.
Qed.

Lemma Split_append (p s : string) (c : ascii) :
  Str.Contains p c = false ->
  Str.Split (p +:+ String c s) c = p :: Str.Split s c.
Proof.
  induction p as [|a p IH].
  - intros _. rewrite append_nil. simpl. case_decide; [reflexivity|contradiction].
  - rewrite append_cons. simpl. case_decide; [discriminate|]. intros Hp. rewrite (IH Hp). reflexivity.
Qed.

Lemma Split_Join (p : string) (ps : list string) (c : ascii) :
  Forall (fun q => Str.Contains q c = false) (p :: ps) ->
  Str.Split (Str.Join (p :: ps) (String c "")) c = p :: ps.
Proof.
  revert p. induction ps as [|q ps IH]; intros p H.
  - unfold Str.Join. simpl. apply Split_free. inversion H; assumption.
  - inversion H as [|? ? Hp Hrest]; subst.
    replace (Str.Join (p :: q :: ps) (String c ""))
      with (p +:+ String c (Str.Join (q :: ps) (String c ""))) by reflexivity.
    rewrite Split_append by exact Hp. rewrite IH by exact Hrest. reflexivity.
Qed.

(** ** The dialect-aware builder: placeholders *)

Lemma number_parts_imap (d : Dialect) (n i : Z) (ps : list string) :
  Builder.number_parts d n i ps
  = String.concat "" (imap (fun k p => Placeholder d (n + i + Z.of_nat k) +:+ p) ps).
Proof.
  revert i. induction ps as [|p ps IH]; intros i; [reflexivity|].
  cbn [Builder.number_parts imap]. rewrite concat_empty_cons, IH.
  rewrite append_assoc. replace (n + i + Z.of_nat 0) with (n + i) by lia.
  do 3 f_equal. apply imap_ext. intros k q _. simpl.
  replace (n + (i + 1) + Z.of_nat k) with (n + i + Z.of_nat (S k)) by lia. reflexivity.
Qed.

Lemma Contains_Join (p0 q : string) (ps : list string) (c : ascii) :
  Str.Contains (Str.Join (p0 :: q :: ps) (String c "")) c = true.
Proof.
  unfold Str.Join. rewrite concat_cons, Contains_append_false.
  rewrite append_cons. simpl. case_decide; [|contradiction]. apply orb_true_r.
Qed.

Lemma rewrite_placeholders_Join (d : Dialect) (n : Z) (p0 : string) (ps : list string) :
  Forall (fun q => Str.Contains q "?" = false) (p0 :: ps) ->
  Builder.rewrite_placeholders d n (Str.Join (p0 :: ps) "?")
  = p0 +:+ String.concat ""
             (imap (fun k p => Placeholder d (n + 1 + Z.of_nat k) +:+ p) ps).
Proof.
  intros H. unfold Builder.rewrite_placeholders.
  destruct ps as [|q ps].
  - unfold Str.Join. simpl String.concat. inversion H as [|? ? Hp _]; subst.
    rewrite Hp. simpl. rewrite append_nil_r. reflexivity.
  - rewrite Contains_Join. rewrite (Split_Join p0 (q :: ps) "?" H).
    rewrite number_parts_imap. reflexivity.
Qed.

Lemma rewrite_placeholders_question (d : Dialect) (n : Z) (cond : string) :
  (forall k, Placeholder d k = "?") ->
  Builder.rewrite_placeholders d n cond = cond.
Proof.
  intros Hq. unfold Builder.rewrite_placeholders.
  destruct (Str.Contains cond "?"); [|reflexivity].
  pose proof (Join_Split cond "?") as HJ.
  destruct (Str.Split cond "?") as [|p0 ps]; [reflexivity|].
  rewrite Join_cons in HJ. rewrite <- HJ. f_equal.
  generalize 1. clear HJ. induction ps as [|p ps IH]; intros i; [reflexivity|].
  cbn [Builder.number_parts map]. rewrite concat_empty_cons, Hq, IH. reflexivity.
Qed.

(** X1: quoting an identifier is injective in each of the three dialects:
    two different identifiers never get the same quoted text (the quote
    character inside an identifier is doubled). *)
Theorem Quote_is_injective :
  Inj (=) (=) (Quote PostgresDialect)
  /\ Inj (=) (=) (Quote MySQLDialect)
  /\ Inj (=) (=) (Quote SQLiteDialect).
Proof.
  split; [|split]; intros s1 s2 H; (eapply Quote_injective_known; [|exact H]); auto.
Qed.

Lemma Builder_Where_tokens (b : Builder.t) (p0 : string) (ps : list string) (args : list any) :
  Forall (fun q => Str.Contains q "?" = false) (p0 :: ps) ->
  Builder.where_ (Builder.Where b (Str.Join (p0 :: ps) "?") args)
  = Builder.where_ b
      ++ [p0 +:+ String.concat ""
                   (imap (fun k p => Placeholder (Builder.dialect b)
                                       (Z.of_nat (length (Builder.whereArgs b)) + 1 + Z.of_nat k)
                                     +:+ p) ps)]
  /\ Builder.whereArgs (Builder.Where b (Str.Join (p0 :: ps) "?") args)
     = Builder.whereArgs b ++ args.
Proof.
  intros H. unfold Builder.Where.
  cbn [Builder.where_ Builder.whereArgs Builder.dialect].
  rewrite rewrite_placeholders_Join by exact H. split; reflexivity.
Qed.

(** X2: [Where] and [Having] of the dialect-aware builder replace exactly
    the [?] tokens of the condition, from left to right: the token number
    [k] (from 0) becomes the dialect's placeholder for position
    [n + 1 + k], where [n] is the number of arguments recorded so far for
    that clause; the text between the tokens and the arguments are kept. *)
Theorem Builder_Where_numbers_the_tokens
    (b : Builder.t) (p0 : string) (ps : list string) (args : list any) :
  Forall (fun q => Str.Contains q "?" = false) (p0 :: ps) ->
  let placed n :=
    p0 +:+ String.concat ""
             (imap (fun k p => Placeholder (Builder.dialect b) (n + 1 + Z.of_nat k) +:+ p) ps) in
  (Builder.where_ (Builder.Where b (Str.Join (p0 :: ps) "?") args)
   = Builder.where_ b ++ [placed (Z.of_nat (length (Builder.whereArgs b)))]
   /\ Builder.whereArgs (Builder.Where b (Str.Join (p0 :: ps) "?") args)
      = Builder.whereArgs b ++ args)
  /\ (Builder.having (Builder.Having b (Str.Join (p0 :: ps) "?") args)
      = Builder.having b ++ [placed (Z.of_nat (length (Builder.havingArgs b)))]
      /\ Builder.havingArgs (Builder.Having b (Str.Join (p0 :: ps) "?") args)
         = Builder.havingArgs b ++ args).
Proof.
  intros H placed. unfold Builder.Where, Builder.Having.
  cbn [Builder.where_ Builder.whereArgs Builder.having Builder.havingArgs Builder.dialect].
  rewrite !rewrite_placeholders_Join by exact H. repeat split.
Qed.

Lemma Builder_Where_numbers_the_tokens_witness :
  Builder.where_
    (Builder.Where
       (Builder.Where (Builder.Select (Builder.NewBuilder PostgresDialect "users") [])
                      "age > ?" [Some (VInt 18)])
       "name = ? OR email = ?" [Some (VStr "a"); Some (VStr "b")])
  = ["age > $1"; "name = $2 OR email = $3"].
Proof.
  pose proof (Builder_Where_numbers_the_tokens
                (Builder.Where (Builder.Select (Builder.NewBuilder PostgresDialect "users") [])
                               "age > ?" [Some (VInt 18)])
                "name = " [" OR email = "; ""] [Some (VStr "a"); Some (VStr "b")]) as H.
  destruct H as [[H _] _].
  - repeat constructor.
  - exact H.
Defined.

(** X3: under the MySQL and SQLite dialects, whose placeholder is [?] at
    every position, [Where] and [Having] record the condition text
    unchanged, whatever it contains. *)
Theorem Builder_Where_keeps_text_under_question_mark_dialects
    (b : Builder.t) (condition : string) (args : list any) :
  Builder.dialect b = MySQLDialect \/ Builder.dialect b = SQLiteDialect ->
  Builder.where_ (Builder.Where b condition args) = Builder.where_ b ++ [condition]
  /\ Builder.having (Builder.Having b condition args) = Builder.having b ++ [condition].
Proof.
  intros Hd. unfold Builder.Where, Builder.Having.
  cbn [Builder.where_ Builder.whereArgs Builder.having Builder.havingArgs Builder.dialect].
  rewrite !rewrite_placeholders_question; [split; reflexivity| |];
    intros k; destruct Hd as [-> | ->]; reflexivity.
Qed.

Lemma Builder_Where_keeps_text_under_question_mark_dialects_witness :
  Builder.where_ (Builder.Where (Builder.NewBuilder MySQLDialect "users") "a = ? AND b = ?" [])
  = [] ++ ["a = ? AND b = ?"]
  /\ Builder.having (Builder.Having (Builder.NewBuilder MySQLDialect "users")
                                    "a = ? AND b = ?" [])
     = [] ++ ["a = ? AND b = ?"].
Proof.
  apply (Builder_Where_keeps_text_under_question_mark_dialects
           (Builder.NewBuilder MySQLDialect "users") "a = ? AND b = ?" []).
  left. reflexivity.
Defined.

Lemma map_range_singleton {V : Type} (k : string) (v : V) (rng : list (string * V)) :
  map_range ({[k := v]} : gmap string V) rng -> rng = [(k, v)].
Proof.
  unfold map_range. rewrite map_to_list_singleton. intros H.
  apply Permutation_singleton_r. exact H.
Qed.

(** X4: in an UPDATE of the dialect-aware builder the placeholders of the
    SET pairs are numbered from 1 when [Build] runs, and the [?] of a WHERE
    condition was numbered from 1 when [Where] ran: with one pair and one
    condition both carry the dialect's placeholder for position 1, while
    the argument list is the value followed by the key. *)
Theorem Builder_update_where_placeholder_restarts
    (d : Dialect) (table col : string) (v key : any) (pre post : string)
    (rng : list (string * any)) :
  Str.Contains pre "?" = false -> Str.Contains post "?" = false ->
  let b := Builder.Where (Builder.Set_ (Builder.Update (Builder.NewBuilder d table)) col v)
                         (pre +:+ "?" +:+ post) [key] in
  map_range (Builder.values b) rng ->
  Builder.Build b rng
  = ("UPDATE " +:+ Quote d table +:+ " SET " +:+ (Quote d col +:+ " = " +:+ Placeholder d 1)
       +:+ " WHERE " +:+ (pre +:+ Placeholder d 1 +:+ post),
     [v; key]).
Proof.
  intros Hpre Hpost b Hrng.
  assert (Hr : rng = [(col, v)]).
  { apply map_range_singleton. unfold b in Hrng. simpl in Hrng.
    rewrite insert_empty in Hrng. exact Hrng. }
  subst rng.
  destruct (Builder_Where_tokens
              (Builder.Set_ (Builder.Update (Builder.NewBuilder d table)) col v)
              pre [post] [key]) as [Hw Ha]; [repeat constructor; assumption|].
  unfold Builder.Build. fold b.
  replace (Str.Join [pre; post] "?") with (pre +:+ "?" +:+ post) in Hw, Ha by reflexivity.
  fold b in Hw, Ha.
  assert (Hop : Builder.operation b = "UPDATE") by reflexivity.
  assert (Hdi : Builder.dialect b = d) by reflexivity.
  assert (Htb : Builder.table b = table) by reflexivity.
  assert (Hret : Builder.returning b = []) by reflexivity.
  rewrite Hop, Hdi, Htb. unfold Builder.where_sql, Builder.returning_sql.
  rewrite Hw, Ha, Hret. simpl. rewrite !append_nil_r. reflexivity.
Qed.

Lemma Builder_update_where_placeholder_restarts_witness :
  Builder.Build
    (Builder.Where
       (Builder.Set_ (Builder.Update (Builder.NewBuilder PostgresDialect "users"))
                     "name" (Some (VStr "jdoe")))
       "id = ?" [Some (VInt 7)])
    [("name", Some (VStr "jdoe"))]
  = ("UPDATE " +:+ Str.dq +:+ "users" +:+ Str.dq +:+ " SET " +:+ Str.dq +:+ "name" +:+ Str.dq
       +:+ " = $1 WHERE id = $1",
     [Some (VStr "jdoe"); Some (VInt 7)]).
Proof.
  apply (Builder_update_where_placeholder_restarts PostgresDialect "users" "name"
           (Some (VStr "jdoe")) (Some (VInt 7)) "id = " ""
           [("name", Some (VStr "jdoe"))]); [reflexivity|reflexivity|].
  unfold map_range. vm_compute. reflexivity.
Defined.

(** X5: a RETURNING list is rendered under the postgres dialect only, and
    never in a SELECT: under any other dialect, and for every SELECT,
    [Returning] does not change what [Build] yields. *)
Theorem Builder_Returning_only_under_postgres
    (b : Builder.t) (cols : list string) (rng : list (string * any)) :
  Name (Builder.dialect b) <> "postgres" \/ Builder.operation b = "SELECT" ->
  Builder.Build (Builder.Returning b cols) rng = Builder.Build b rng.
Proof.
  intros H. unfold Builder.Build, Builder.Returning, Builder.select_sql,
    Builder.where_sql, Builder.returning_sql.
  cbn [Builder.dialect Builder.table Builder.columns Builder.where_ Builder.whereArgs
       Builder.orderBy Builder.limit Builder.offset Builder.joins Builder.groupBy
       Builder.having Builder.havingArgs Builder.operation Builder.values Builder.returning].
  destruct H as [H|H].
  - destruct (decide (Name (Builder.dialect b) = "postgres")) as [E|_]; [contradiction|].
    destruct (map _ cols), (Builder.returning b); reflexivity.
  - rewrite H. reflexivity.
Qed.

Lemma Builder_Returning_only_under_postgres_witness :
  Builder.Build
    (Builder.Returning
       (Builder.Set_ (Builder.Insert (Builder.NewBuilder MySQLDialect "users"))
                     "name" (Some (VStr "jdoe")))
       ["id"])
    [("name", Some (VStr "jdoe"))]
  = Builder.Build
      (Builder.Set_ (Builder.Insert (Builder.NewBuilder MySQLDialect "users"))
                    "name" (Some (VStr "jdoe")))
      [("name", Some (VStr "jdoe"))].
Proof.
  apply (Builder_Returning_only_under_postgres
           (Builder.Set_ (Builder.Insert (Builder.NewBuilder MySQLDialect "users"))
                         "name" (Some (VStr "jdoe")))
           ["id"] [("name", Some (VStr "jdoe"))]).
  left. discriminate.
Defined.

(** ** What is not a record *)

Section NotARecord.

Context {D : Driver}.
Implicit Types w : World D.

Lemma extractModelInfo_not_a_record w model :
  not_a_record w model -> extractModelInfo D model w = (Err ErrNotAStruct, w).
Proof.
  unfold extractModelInfo. destruct model as [v|]; [|reflexivity].
  destruct v as [n|s|b|o|t [l|]|t s|d vals]; simpl; try reflexivity.
  - intros (x & Hx & Hns). unfold bind, current, bind. rewrite (load_some _ _ _ Hx).
    destruct x; try reflexivity. exfalso. eapply Hns. reflexivity.
  - intros [].
Qed.

End NotARecord.

(** X6: [Create], [Update], [Delete], [Find] and [First] answer
    [ErrNotAStruct] for a model that is nil, a nil pointer, not a struct,
    or a pointer to something that is not a struct; nothing is sent to the
    database and nothing changes. *)
Theorem CRUD_rejects_what_is_not_a_record
    (D : Driver) (c : Connection) (model id : any) (conditions : string) (args : list any)
    (w : World D) :
  not_a_record w model ->
  Create D c model w = (Err ErrNotAStruct, w)
  /\ Update D c model w = (Err ErrNotAStruct, w)
  /\ Delete D c model w = (Err ErrNotAStruct, w)
  /\ Find D c model id w = (Err ErrNotAStruct, w)
  /\ First D c model conditions args w = (Err ErrNotAStruct, w).
Proof.
  intros H. pose proof (extractModelInfo_not_a_record w model H) as E.
  unfold Create, Update, Delete, Find, First.
  rewrite !(bind_err _ _ _ _ _ E). repeat split.
Qed.

Lemma CRUD_rejects_what_is_not_a_record_witness :
  let w := Toy.world {[1%nat := VInt 5]} in
  let model := Some (VPtr TInt64 (Some 1%nat)) in
  Create Toy.driver Toy.conn model w = (Err ErrNotAStruct, w)
  /\ Update Toy.driver Toy.conn model w = (Err ErrNotAStruct, w)
  /\ Delete Toy.driver Toy.conn model w = (Err ErrNotAStruct, w)
  /\ Find Toy.driver Toy.conn model (Some (VInt 1)) w = (Err ErrNotAStruct, w)
  /\ First Toy.driver Toy.conn model "" [] w = (Err ErrNotAStruct, w).
Proof.
  intros w model.
  apply (CRUD_rejects_what_is_not_a_record Toy.driver Toy.conn model (Some (VInt 1)) "" [] w).
  exists (VInt 5). split; [reflexivity|discriminate].
Defined.

(** X7: [Find] and [First] on a record handed over by value fail with
    "model must be a non-nil pointer" before any query is sent. *)
Theorem Find_by_value_sends_nothing
    (D : Driver) (c : Connection) (d : StructDecl) (vals : list Value) (id : any)
    (conditions : string) (args : list any) (w : World D) :
  Find D c (Some (VStruct d vals)) id w
  = (Err (ErrNew "model must be a non-nil pointer"), w)
  /\ First D c (Some (VStruct d vals)) conditions args w
     = (Err (ErrNew "model must be a non-nil pointer"), w).
Proof.
  unfold Find, First.
  assert (E : extractModelInfo D (Some (VStruct d vals)) w
              = (Ok (modelInfoOf (VStruct d vals) d), w)).
  { apply (extractModelInfo_denotes w _ d vals). left. reflexivity. }
  rewrite !(bind_ok _ _ _ _ _ E). split.
  - erewrite bind_ok; [reflexivity|]. apply QB_Build_select. reflexivity.
  - erewrite bind_ok; [reflexivity|]. apply QB_Build_select.
    destruct (decide (conditions = "")); reflexivity.
Qed.

(** ** Keys come from the [pk] option only *)

Lemma tag_options_key (opts : list string) (dbName : string) (acc : bool * bool * option string) :
  (tag_options opts dbName acc).1.1 = true -> acc.1.1 = true \/ "pk" ∈ opts.
Proof.
  revert acc. induction opts as [|opt opts IH]; intros [[k a] p] H; simpl in H.
  - left. exact H.
  - case_decide as Hpk.
    + right. subst opt. apply elem_of_cons. left. reflexivity.
    + case_decide.
      * apply IH in H as [H|H]; [left; exact H|right; apply elem_of_cons; right; exact H].
      * apply IH in H as [H|H]; [left; exact H|right; apply elem_of_cons; right; exact H].
Qed.

Lemma model_fields_keys (fs : list FieldDecl) (pk : string) (acc : list FieldInfo.t)
    (fi : FieldInfo.t) :
  fi ∈ (model_fields fs pk acc).2 -> FieldInfo.IsKey fi = true ->
  fi ∈ acc \/ exists f, f ∈ fs /\ "pk" ∈ tail (Str.Split (ftag f) ",").
Proof.
  revert pk acc. induction fs as [|f fs IH]; intros pk acc H Hk; simpl in H.
  - left. exact H.
  - destruct (IsExported f); simpl in H.
    + case_decide.
      * destruct (IH _ _ H Hk) as [?|(g & ? & ?)]; [left; assumption|].
        right. exists g. split; [apply elem_of_cons; right; assumption|assumption].
      * destruct (tag_options _ _ _) as [[isKey isAuto] pk'] eqn:Et.
        destruct (IH _ _ H Hk) as [Hin|(g & ? & ?)].
        -- apply elem_of_app in Hin as [?|Hin]; [left; assumption|].
           apply list_elem_of_singleton in Hin. subst fi. simpl in Hk. subst isKey.
           right. exists f. split; [apply elem_of_cons; left; reflexivity|].
           match type of Et with
           | tag_options ?o ?n ?a = _ => pose proof (tag_options_key o n a) as Ht
           end.
           rewrite Et in Ht. destruct (Ht eq_refl) as [?|?]; [discriminate|assumption].
        -- right. exists g. split; [apply elem_of_cons; right; assumption|assumption].
    + destruct (IH _ _ H Hk) as [?|(g & ? & ?)]; [left; assumption|].
      right. exists g. split; [apply elem_of_cons; right; assumption|assumption].
Qed.

Section DeleteKey.

Context {D : Driver}.
Implicit Types w : World D.

Lemma delete_key_none v (fields : list FieldInfo.t) w :
  (forall fi, fi ∈ fields -> FieldInfo.IsKey fi = false) ->
  delete_key D v fields w = (Ok None, w).
Proof.
  induction fields as [|field rest IH]; intros H; simpl; [reflexivity|].
  rewrite (H field) by (apply elem_of_cons; left; reflexivity).
  apply IH. intros fi Hin. apply H. apply elem_of_cons. right. exact Hin.
Qed.

End DeleteKey.

(** X8: [Delete] of a record none of whose fields carries the option [pk]
    in its tag fails with [ErrNoID] and sends nothing, whatever the name of
    the primary key column is (the default [id], or the one the [Model]
    interface gives). *)
Theorem Delete_needs_a_pk_tag
    (D : Driver) (c : Connection) (model : Value) (d : StructDecl) (vals : list Value)
    (w : World D) :
  denotes w model d vals ->
  Forall (fun f => "pk" ∉ tail (Str.Split (ftag f) ",")) (sfields d) ->
  Delete D c (Some model) w = (Err ErrNoID, w).
Proof.
  intros Hd Hpk. unfold Delete.
  rewrite (bind_ok _ _ _ _ _ (extractModelInfo_denotes _ _ _ _ Hd)).
  assert (Hnone : delete_key D (indirect (Some model))
                    (ModelInfo.Fields (modelInfoOf model d)) w = (Ok None, w)).
  { apply delete_key_none.
    intros fi Hin. destruct (FieldInfo.IsKey fi) eqn:Hk; [|reflexivity]. exfalso.
    unfold modelInfoOf in Hin. simpl in Hin.
    destruct (model_fields_keys _ _ _ _ Hin Hk) as [Hacc|(f & Hf & Hin')]; [inversion Hacc|].
    rewrite Forall_forall in Hpk. eapply Hpk; eauto. }
  rewrite (bind_ok _ _ _ _ _ Hnone). reflexivity.
Qed.

Lemma Delete_needs_a_pk_tag_witness :
  Delete Toy.driver Toy.conn Toy.note (Toy.world {[1%nat := Toy.memo]})
  = (Err ErrNoID, Toy.world {[1%nat := Toy.memo]}).
Proof.
  apply (Delete_needs_a_pk_tag Toy.driver Toy.conn (VPtr (TStruct Toy.Note) (Some 1%nat))
           Toy.Note [VStr "buy milk"] (Toy.world {[1%nat := Toy.memo]})).
  - right. exists (TStruct Toy.Note), 1%nat. split; reflexivity.
  - repeat constructor. vm_compute. intros H. inversion H.
Defined.

Section ExecInversion.

Context {D : Driver}.
Implicit Types w : World D.

Lemma DB_ExecContext_inv q args w (r : Out ExecResult) w' :
  DB_ExecContext D q args w = (r, w') ->
  match run_exec D q args (store w) with
  | Good (res, s') => r = Ok res /\ w' = set_store D s' (log D (EvExec OnDB q args) w)
  | Bad e => r = Err e /\ w' = log D (EvExec OnDB q args) w
  end.
Proof.
  unfold DB_ExecContext. simpl.
  destruct (run_exec D q args (store w)) as [[res s']|e]; intros H; inversion H; auto.
Qed.

End ExecInversion.

Section GeneratedId.

Context {D : Driver}.
Implicit Types w : World D.

Lemma holds_set_generated_id_db w0 v fields id :
  holds (same_db w0) (set_generated_id D v fields id) (fun _ => True).
Proof. induction fields as [|field rest IH]; simpl; hoare. Qed.

End GeneratedId.

(** X9: [Create] sends one INSERT.  When the database executes it but the
    driver cannot report the last inserted id, [Create] still returns nil:
    the failure of [LastInsertId] is dropped, and every variable, the
    record included, keeps its value. *)
Theorem Create_drops_LastInsertId_failure
    (D : Driver) (c : Connection) (model : any) (w : World D)
    (q : string) (args : list any) (r : ExecResult) (s' : Store D) (e : error)
    (out : Out unit) (w' : World D) :
  Create D c model w = (out, w') ->
  trace w' = trace w ++ [EvExec OnDB q args] ->
  run_exec D q args (store w) = Good (r, s') ->
  LastInsertId r = Bad e ->
  out = Ok tt /\ heap w ⊆ heap w' /\ store w' = s'.
Proof.
  intros H Htr Hrun Hid.
  pose proof (quiet_from_refl w) as HI.
  unfold Create in H.
  quiet_steps H HI Htr.
  destruct HI as (Ht0 & Hs0 & _ & _ & Hsub).
  apply bind_inv in H as [(res & wq & Hq & H)|[(e' & Hq & ->)|(p & Hq & ->)]];
    apply DB_ExecContext_inv in Hq;
    match type of Hq with
    | match run_exec D ?q' ?a' ?s with _ => _ end =>
        destruct (run_exec D q' a' s) as [[res' s'']|e''] eqn:Hrun'; destruct Hq as [Hr ->];
          try discriminate
    end.
  - injection Hr as ->.
    assert (Hdb : same_db (set_store D s'' (log D (EvExec OnDB a1.1 a1.2) w2)) w').
    { destruct (LastInsertId res') as [id|e'] eqn:Hl.
      - eapply (holds_set_generated_id_db _ _ _ _ _ _ _ (same_db_refl _) H).
      - inversion H; subst. apply same_db_refl. }
    destruct Hdb as (Htr' & Hst' & _).
    simpl in Htr'. rewrite Ht0, Htr in Htr'. apply app_inv_head in Htr'.
    injection Htr' as Hq1 Hq2. rewrite <- Hq1, <- Hq2, Hs0, Hrun in Hrun'.
    injection Hrun' as <- <-. rewrite Hid in H. inversion H; subst.
    split; [reflexivity|]. split; [exact Hsub|reflexivity].
  - exfalso. simpl in Htr. rewrite Ht0 in Htr. apply app_inv_head in Htr.
    injection Htr as Hq1 Hq2. rewrite Hq1, Hq2, Hs0, Hrun in Hrun'. discriminate.
Qed.

Lemma Create_drops_LastInsertId_failure_witness :
  let r := Create Pq.driver Toy.conn Toy.user (Pq.world {[1%nat := Toy.jdoe]}) in
  fst r = Ok tt
  /\ heap (Pq.world {[1%nat := Toy.jdoe]}) ⊆ heap (snd r)
  /\ store (snd r) = ["INSERT INTO users (username) VALUES (?)"].
Proof.
  intros r.
  apply (Create_drops_LastInsertId_failure Pq.driver Toy.conn Toy.user
           (Pq.world {[1%nat := Toy.jdoe]})
           "INSERT INTO users (username) VALUES (?)" [Some (VStr "jdoe")]
           (mkResult (Bad (ErrDriver "LastInsertId is not supported by this driver")) (Good 1))
           ["INSERT INTO users (username) VALUES (?)"]
           (ErrDriver "LastInsertId is not supported by this driver")).
  - apply surjective_pairing.
  - vm_compute. reflexivity.
  - reflexivity.
  - reflexivity.
Defined.


(** ** All *)

Section AllRows.

Context {D : Driver}.
Implicit Types w : World D.

Global Instance record_at_stable l d : Stable (record_at (D:=D) l d).
Proof.
  split.
  - intros w H. exact H.
  - intros w v [vals H]. exists vals. simpl.
    rewrite lookup_insert_ne; [exact H|].
    intros <-. apply (is_fresh (dom (heap w))). apply elem_of_dom. eauto.
Qed.

Lemma holds_write_field_record l d l' i x :
  holds (record_at l d) (write_field D l' i x) (fun _ => True).
Proof.
  intros w r w' [vals HI] H. unfold write_field, bind, load, store_at in H.
  destruct (heap w !! l') as [s|] eqn:Hl'; [|inversion H; subst; split; [exists vals; exact HI|auto]].
  destruct s; inversion H; subst; (split; [|auto]); try (exists vals; exact HI).
  destruct (decide (l' = l)) as [->|Hne].
  - rewrite HI in Hl'. injection Hl' as <- <-. eexists. simpl. apply lookup_insert_eq.
  - exists vals. simpl. rewrite lookup_insert_ne; [exact HI|exact Hne].
Qed.

Lemma holds_Set_record l d fo x :
  holds (record_at l d) (Set_ D fo x) (fun _ => True).
Proof.
  unfold Set_. destruct fo as [fv|]; [|apply holds_panic].
  destruct (f_of fv); try apply holds_panic.
  destruct (negb _); [apply holds_panic|].
  destruct (type_eqb _ _); [apply holds_write_field_record|].
  destruct (type_eqb _ _); [apply holds_write_field_record|apply holds_panic].
Qed.

Hint Resolve holds_Set_record : hoare.

Lemma holds_map_column_record l d relValue fields col x :
  holds (record_at l d) (map_column D relValue fields col x) (fun _ => True).
Proof. induction fields as [|field rest IH]; simpl; hoare. Qed.
Hint Resolve holds_map_column_record : hoare.

Lemma holds_map_columns_record l d relValue fields columns values :
  holds (record_at l d) (map_columns D relValue fields columns values) (fun _ => True).
Proof.
  revert values. induction columns as [|col columns IH]; intros values; simpl; hoare.
Qed.

(** A scanned record is a record of the type that was asked for. *)
Lemma scan_related_record d relInfo columns row w le w' :
  scan_related D (TStruct d) relInfo columns row w = (Ok le, w') ->
  record_at le d w'.
Proof.
  unfold scan_related. intros H.
  apply bind_inv in H as [(l & w1 & Ha & H)|[(? & _ & [=])|(? & _ & [=])]].
  assert (H1 : record_at l d w1).
  { unfold alloc in Ha. inversion Ha; subst. eexists. simpl. apply lookup_insert_eq. }
  destruct (bool_decide _); [|discriminate].
  apply bind_inv in H as [(u & w2 & Hm & H)|[(? & _ & [=])|(? & _ & [=])]].
  inversion H; subst.
  eapply (holds_map_columns_record _ _ _ _ _ _ _ _ _ H1 Hm).
Qed.

Lemma scan_related_keeps l v relType relInfo columns row w (r : Out loc) w' :
  heap w !! l = Some v ->
  scan_related D relType relInfo columns row w = (r, w') ->
  heap w' !! l = Some v /\ same_db w w'.
Proof.
  intros Hl Hs. split.
  - assert (HI : above (D:=D) {[l := v]} w).
    { unfold above. apply map_singleton_subseteq_l. exact Hl. }
    destruct (holds_scan_related_outside {[l := v]} _ _ _ _ w _ w' HI Hs) as [Ha _].
    unfold above in Ha. apply map_singleton_subseteq_l in Ha. exact Ha.
  - destruct (holds_scan_related w _ _ _ _ _ _ _ (same_db_refl w) Hs) as [Hdb _].
    destruct Hdb as (? & ? & ? & ?). repeat split; congruence.
Qed.

(** The loop of [All] appends a record for each row to what the slice
    holds, and asks the database nothing. *)
Lemma all_rows_appends l d info columns rs : forall w t es out w',
  heap w !! l = Some (VSlice t es) ->
  all_rows D l (TStruct d) info columns rs w = (out, w') ->
  same_db w w'
  /\ exists xs,
       heap w' !! l = Some (VSlice t (match xs with [] => es | _ => Some (default [] es ++ xs) end))
       /\ Forall (fun x => typeOf x = TStruct d) xs
       /\ (out = Ok tt -> length xs = length rs).
Proof.
  induction rs as [|row rs IH]; intros w t es out w' Hl H.
  - inversion H; subst. split; [apply same_db_refl|]. exists []. auto.
  - simpl in H.
    apply bind_inv in H as [(le & w1 & Hs & H)|[(e & Hs & ->)|(p & Hs & ->)]];
      destruct (scan_related_keeps _ _ _ _ _ _ _ _ _ Hl Hs) as [Hl1 Hdb1].
    + destruct (scan_related_record _ _ _ _ _ _ _ Hs) as [vals Hle].
      unfold load at 1 in H. unfold bind at 1 in H. rewrite Hle in H.
      unfold load at 1 in H. unfold bind at 1 in H. rewrite Hl1 in H.
      unfold bind at 1, store_at at 1 in H.
      eapply IH in H; [|simpl; apply lookup_insert_eq].
      destruct H as [Hdb2 (xs & Hh & Hty & Hlen)].
      split.
      { destruct Hdb1 as (? & ? & ? & ?). destruct Hdb2 as (? & ? & ? & ?). simpl in *.
        repeat split; congruence. }
      exists (VStruct d vals :: xs). split; [|split].
      * rewrite Hh. f_equal. f_equal. simpl.
        destruct xs; simpl; [reflexivity|]. rewrite <- app_assoc. reflexivity.
      * constructor; [reflexivity|exact Hty].
      * intros Ho. simpl. f_equal. auto.
    + split; [exact Hdb1|].
      exists []. split; [exact Hl1|split; [constructor|discriminate]].
    + split; [exact Hdb1|].
      exists []. split; [exact Hl1|split; [constructor|discriminate]].
Qed.

End AllRows.

Section AllRun.

Context {D : Driver}.
Implicit Types w : World D.

Lemma All_not_records c l elemType conditions args w :
  (forall d, elemType <> TStruct d) ->
  exists w',
    All D c (Some (VPtr (TSlice elemType) (Some l))) conditions args w = (Err ErrNotAStruct, w')
    /\ same_db w w' /\ heap w ⊆ heap w'.
Proof.
  intros Hne. unfold All, new_model. rewrite bind_assoc.
  unfold bind at 1. unfold alloc at 1. rewrite bind_ret.
  eexists. split.
  - apply bind_err. unfold extractModelInfo. cbn [indirect]. unfold current.
    erewrite bind_ok.
    2:{ erewrite bind_ok; [reflexivity|]. apply load_some. simpl. apply lookup_insert_eq. }
    destruct elemType; try reflexivity. exfalso. eapply Hne. reflexivity.
  - split; [repeat split; reflexivity|]. simpl.
    apply insert_subseteq, not_elem_of_dom, is_fresh.
Qed.

Lemma All_records c l d conditions args w (out : Out unit) w' :
  All D c (Some (VPtr (TSlice (TStruct d)) (Some l))) conditions args w = (out, w') ->
  let l' := fresh (dom (heap w)) in
  let w1 := log D (EvQuery OnDB (fst (all_query d conditions args))
                           (snd (all_query d conditions args)))
                (set_heap D (<[l' := zero (TStruct d)]> (heap w)) w) in
  match run_query D (fst (all_query d conditions args)) (snd (all_query d conditions args))
                  (store w) with
  | Bad e => out = Err e /\ w' = w1
  | Good rows =>
      match Columns rows with
      | Bad e => out = Err e /\ w' = w1
      | Good columns =>
          exists o w2,
            all_rows D l (TStruct d) (modelInfoOf (VPtr (TStruct d) None) d) columns
                     (records rows) w1 = (o, w2)
            /\ match o with
               | Ok _ => w' = w2 /\ out = match rowsErr rows with Some e => Err e | None => Ok tt end
               | _ => w' = w2 /\ out = o
               end
      end
  end.
Proof.
  intros H l' w1. unfold All, new_model in H. rewrite bind_assoc in H.
  unfold bind at 1 in H. unfold alloc at 1 in H. rewrite bind_ret in H. fold l' in H.
  erewrite bind_ok in H.
  2:{ apply extractModelInfo_ref with (vals := map (fun f => zero (ftype f)) (sfields d)).
      simpl. apply lookup_insert_eq. }
  change (modelInfoOf (VPtr (TStruct d) (Some l')) d)
    with (modelInfoOf (VPtr (TStruct d) None) d) in H.
  erewrite bind_ok in H.
  2:{ apply QB_Build_select. destruct (decide (conditions = "")); reflexivity. }
  fold (all_query d conditions args) in H.
  apply bind_inv in H as [(rows & wq & Hq & H)|[(e & Hq & ->)|(p & Hq & ->)]];
    apply DB_QueryContext_inv in Hq as [-> Hr]; simpl store in Hr;
    destruct (run_query D _ _ (store w)) as [rows'|e']; try discriminate.
  - injection Hr as ->. fold w1 in H.
    destruct (Columns rows') as [columns|e]; simpl lift in H.
    2:{ inversion H; subst. auto. }
    rewrite bind_ret in H.
    apply bind_inv in H as [(u & w2 & Ha & H)|[(e & Ha & ->)|(p & Ha & ->)]].
    + exists (Ok u), w2. split; [exact Ha|].
      destruct (rowsErr rows'); inversion H; subst; auto.
    + exists (Err e), w'. auto.
    + exists (Panic p), w'. auto.
  - injection Hr as ->. auto.
Qed.

End AllRun.

(** X10: [All] takes its metadata from a new value of the slice's element
    type.  When that type is not a struct, a pointer to a struct included,
    [All] returns [ErrNotAStruct] before anything is sent, and the
    variables that existed keep their values. *)
Theorem All_rejects_elements_that_are_not_records
    (D : Driver) (c : Connection) (l : loc) (elemType : GoType)
    (conditions : string) (args : list any) (w : World D) :
  (forall d, elemType <> TStruct d) ->
  let r := All D c (Some (VPtr (TSlice elemType) (Some l))) conditions args w in
  fst r = Err ErrNotAStruct
  /\ trace (snd r) = trace w /\ store (snd r) = store w /\ heap w ⊆ heap (snd r).
Proof.
  intros Hne r.
  destruct (All_not_records c l elemType conditions args w Hne) as (w' & H & Hdb & Hh).
  subst r. rewrite H. simpl. destruct Hdb as (? & ? & _). auto.
Qed.

Lemma All_rejects_elements_that_are_not_records_witness :
  let w := Toy.world {[1%nat := VSlice (TPtr (TStruct Toy.User)) None]} in
  let r := All Toy.driver Toy.conn (Some (VPtr (TSlice (TPtr (TStruct Toy.User))) (Some 1%nat)))
               "" [] w in
  fst r = Err ErrNotAStruct
  /\ trace (snd r) = trace w /\ store (snd r) = store w /\ heap w ⊆ heap (snd r).
Proof.
  apply (All_rejects_elements_that_are_not_records Toy.driver Toy.conn 1%nat
           (TPtr (TStruct Toy.User)) "" []
           (Toy.world {[1%nat := VSlice (TPtr (TStruct Toy.User)) None]})).
  intros d. discriminate.
Defined.

Lemma All_slice
    (D : Driver) (c : Connection) (l : loc) (d : StructDecl)
    (conditions : string) (args : list any) (w : World D)
    (t : GoType) (es : option (list Value)) (out : Out unit) (w' : World D) :
  heap w !! l = Some (VSlice t es) ->
  All D c (Some (VPtr (TSlice (TStruct d)) (Some l))) conditions args w = (out, w') ->
  trace w' = trace w ++ [EvQuery OnDB (fst (all_query d conditions args))
                                 (snd (all_query d conditions args))]
  /\ store w' = store w
  /\ exists xs,
       heap w' !! l
       = Some (VSlice t (match xs with [] => es | _ => Some (default [] es ++ xs) end))
       /\ Forall (fun x => typeOf x = TStruct d) xs
       /\ (out = Ok tt ->
           exists rows,
             run_query D (fst (all_query d conditions args)) (snd (all_query d conditions args))
                       (store w) = Good rows
             /\ length xs = length (records rows)).
Proof.
  intros Hl H. apply All_records in H. cbv zeta in H.
  assert (Hl1 : heap (log D (EvQuery OnDB (fst (all_query d conditions args))
                                     (snd (all_query d conditions args)))
                        (set_heap D (<[fresh (dom (heap w)) := zero (TStruct d)]> (heap w)) w))
                  !! l = Some (VSlice t es)).
  { simpl. rewrite lookup_insert_ne; [exact Hl|].
    intros Heq. apply (is_fresh (dom (heap w))). rewrite Heq. apply elem_of_dom. eauto. }
  destruct (run_query D _ _ (store w)) as [rows|e].
  2:{ destruct H as [-> ->]. simpl. split; [reflexivity|]. split; [reflexivity|].
      exists []. split; [exact Hl1|]. split; [constructor|discriminate]. }
  destruct (Columns rows) as [columns|e].
  2:{ destruct H as [-> ->]. simpl. split; [reflexivity|]. split; [reflexivity|].
      exists []. split; [exact Hl1|]. split; [constructor|discriminate]. }
  destruct H as (o & w2 & Ha & H).
  destruct (all_rows_appends _ _ _ _ _ _ _ _ _ _ Hl1 Ha) as [Hdb (xs & Hh & Hty & Hlen)].
  assert (Hw : w' = w2) by (destruct o; destruct H; assumption). subst w2.
  destruct Hdb as (Htr & Hst & _). simpl in Htr, Hst.
  split; [exact Htr|]. split; [exact Hst|].
  exists xs. split; [exact Hh|]. split; [exact Hty|].
  intros ->. exists rows. split; [reflexivity|].
  destruct o as [[]|e|p]; destruct H as [_ Ho];
    [apply Hlen; reflexivity|discriminate|discriminate].
Qed.

(** X11: [All] appends to what the destination slice holds: the elements
    that were there stay, in their places, and one record of the element
    type is added for each row the query returned.  The one statement
    sent is the SELECT of the element type's table. *)
Theorem All_appends_to_the_slice
    (D : Driver) (c : Connection) (l : loc) (d : StructDecl)
    (conditions : string) (args : list any) (w : World D)
    (t : GoType) (es : option (list Value)) (out : Out unit) (w' : World D) :
  heap w !! l = Some (VSlice t es) ->
  All D c (Some (VPtr (TSlice (TStruct d)) (Some l))) conditions args w = (out, w') ->
  trace w' = trace w ++ [EvQuery OnDB (fst (all_query d conditions args))
                                 (snd (all_query d conditions args))]
  /\ store w' = store w
  /\ exists xs,
       heap w' !! l
       = Some (VSlice t (match xs with [] => es | _ => Some (default [] es ++ xs) end))
       /\ Forall (fun x => typeOf x = TStruct d) xs
       /\ (out = Ok tt ->
           exists rows,
             run_query D (fst (all_query d conditions args)) (snd (all_query d conditions args))
                       (store w) = Good rows
             /\ length xs = length (records rows)).
Proof. apply All_slice. Qed.

Lemma All_appends_to_the_slice_witness :
  let w := Pq.world {[1%nat := VSlice (TStruct Toy.User) (Some [Toy.jdoe])]} in
  let r := All Pq.driver Toy.conn (Some (VPtr (TSlice (TStruct Toy.User)) (Some 1%nat))) "" [] w in
  trace (snd r) = trace w ++ [EvQuery OnDB (fst (all_query Toy.User "" []))
                                      (snd (all_query Toy.User "" []))]
  /\ store (snd r) = store w
  /\ exists xs,
       heap (snd r) !! 1%nat
       = Some (VSlice (TStruct Toy.User)
                 (match xs with [] => Some [Toy.jdoe] | _ => Some ([Toy.jdoe] ++ xs) end))
       /\ Forall (fun x => typeOf x = TStruct Toy.User) xs
       /\ (fst r = Ok tt ->
           exists rows,
             run_query Pq.driver (fst (all_query Toy.User "" [])) (snd (all_query Toy.User "" []))
                       (store w) = Good rows
             /\ length xs = length (records rows)).
Proof.
  intros w r.
  apply (All_appends_to_the_slice Pq.driver Toy.conn 1%nat Toy.User "" [] w
           (TStruct Toy.User) (Some [Toy.jdoe]) (fst r) (snd r)).
  - reflexivity.
  - apply surjective_pairing.
Defined.

(** On the example database, whose table [users] holds two rows, the
    slice that held one user holds three afterwards. *)
Example All_users :
  let r := All Pq.driver Toy.conn (Some (VPtr (TSlice (TStruct Toy.User)) (Some 1%nat))) "" []
               (Pq.world {[1%nat := VSlice (TStruct Toy.User) (Some [Toy.jdoe])]}) in
  fst r = Ok tt
  /\ trace (snd r) = [EvQuery OnDB "SELECT * FROM users" []]
  /\ heap (snd r) !! 1%nat
     = Some (VSlice (TStruct Toy.User)
               (Some [Toy.jdoe; VStruct Toy.User [VInt 1; VStr "ann"];
                      VStruct Toy.User [VInt 2; VStr "bob"]])).
Proof. vm_compute. repeat split; reflexivity. Qed.

Section AllNestedFrame.

Context {D : Driver}.
Implicit Types w : World D.

Lemma AllNested_frame c l elemType rels conditions args w es (out : Out unit) w' :
  heap w !! l = Some (VSlice elemType es) ->
  Forall (fun e => typeOf e = elemType) (default [] es) ->
  AllNested D c (Some (VPtr (TSlice elemType) (Some l))) rels conditions args w = (out, w') ->
  exists out1 w1,
    All D c (Some (VPtr (TSlice elemType) (Some l))) conditions args w = (out1, w1)
    /\ heap w1 ⊆ heap w'.
Proof.
  intros Hl Hes H. unfold AllNested in H.
  destruct (All D c (Some (VPtr (TSlice elemType) (Some l))) conditions args w)
    as [out1 w1] eqn:HA.
  exists out1, w1. split; [reflexivity|].
  unfold bind in H. rewrite HA in H.
  destruct out1 as [[]|e|p]; [|inversion H; subst; reflexivity..].
  assert (Hd : exists d, elemType = TStruct d).
  { destruct elemType; eauto;
      match type of HA with
      | All D c (Some (VPtr (TSlice ?t) _)) _ _ _ = _ =>
          destruct (All_not_records c l t conditions args w) as (? & HA' & _);
            [intros d; discriminate|rewrite HA' in HA; discriminate]
      end. }
  destruct Hd as [d ->].
  destruct (All_slice D c l d conditions args w _ _ _ _ Hl HA) as (_ & _ & xs & Hh & Hty & _).
  destruct (match xs with [] => es | _ => Some (default [] es ++ xs) end) as [elems|] eqn:Hel.
  - eapply (Preload_slice_frame c _ (TStruct d) (TStruct d) elems); [| | |exact H].
    + cbn [indirect]. apply current_ref. exact Hh.
    + reflexivity.
    + apply (by_value_not_pointer d).
      destruct xs; [subst es; exact Hes|].
      injection Hel as <-. apply Forall_app. split; assumption.
  - unfold Preload in H. cbn in H. erewrite bind_ok in H by (apply current_ref; exact Hh).
    inversion H; subst. reflexivity.
Qed.

End AllNestedFrame.

(** X12: [AllNested] runs [All] and then [Preload] on the pointer to the
    slice.  Whatever [Preload] does, every variable that existed when
    [All] returned holds afterwards what it held then: the slice and the
    records in it are exactly as [All] left them, so no relationship is
    loaded onto them. *)
Theorem AllNested_leaves_the_records_as_All_left_them
    (D : Driver) (c : Connection) (l : loc) (elemType : GoType)
    (rels : gmap string Relationship.t) (conditions : string) (args : list any)
    (w : World D) (es : option (list Value)) (out : Out unit) (w' : World D) :
  heap w !! l = Some (VSlice elemType es) ->
  Forall (fun e => typeOf e = elemType) (default [] es) ->
  AllNested D c (Some (VPtr (TSlice elemType) (Some l))) rels conditions args w = (out, w') ->
  exists out1 w1,
    All D c (Some (VPtr (TSlice elemType) (Some l))) conditions args w = (out1, w1)
    /\ heap w1 ⊆ heap w'
    /\ heap w' !! l = heap w1 !! l.
Proof.
  intros Hl Hes H.
  destruct (AllNested_frame c l elemType rels conditions args w es out w' Hl Hes H)
    as (out1 & w1 & HA & Hsub).
  exists out1, w1. split; [exact HA|]. split; [exact Hsub|].
  assert (Hin : is_Some (heap w1 !! l)).
  { assert (Hd : (exists d, elemType = TStruct d) \/ forall d, elemType <> TStruct d)
      by (destruct elemType; eauto; right; intros d0; discriminate).
    destruct Hd as [[d ->]|Hne].
    - destruct (All_slice D c l _ conditions args w _ _ _ _ Hl HA) as (_ & _ & xs & Hh & _).
      eauto.
    - destruct (All_not_records c l _ conditions args w Hne) as (wx & HA' & _ & Hs).
      rewrite HA' in HA. injection HA as _ <-.
      eexists. eapply lookup_weaken; eauto. }
  destruct Hin as [v Hv]. rewrite Hv. eapply lookup_weaken; eauto.
Qed.

Lemma AllNested_leaves_the_records_as_All_left_them_witness :
  let w := Pq.world {[1%nat := Toy.shelf]} in
  let r := AllNested Pq.driver Toy.conn Toy.posts Toy.post_rels "" [] w in
  exists out1 w1,
    All Pq.driver Toy.conn Toy.posts "" [] w = (out1, w1)
    /\ heap w1 ⊆ heap (snd r)
    /\ heap (snd r) !! 1%nat = heap w1 !! 1%nat.
Proof.
  intros w r.
  apply (AllNested_leaves_the_records_as_All_left_them Pq.driver Toy.conn 1%nat
           (TStruct Toy.Post) Toy.post_rels "" [] w (Some [Toy.draft]) (fst r) (snd r)).
  - reflexivity.
  - repeat constructor.
  - apply surjective_pairing.
Defined.

(** ** Transactions: how [WithTransaction] ends *)

Section TransactionEnds.

Context {D : Driver}.
Implicit Types w : World D.

Lemma Tx_Commit_open tx w s :
  txs w !! tx = Some s ->
  Tx_Commit D tx w
  = match commit_err D s with
    | Some e => (Err e, set_txs D (delete tx (txs w)) (log D (EvCommit tx) w))
    | None => (Ok tt, set_store D s (set_txs D (delete tx (txs w)) (log D (EvCommit tx) w)))
    end.
Proof. intros H. unfold Tx_Commit. simpl. rewrite H. reflexivity. Qed.

End TransactionEnds.

(** X13: [Connection.WithTransaction], for a function that leaves its
    transaction open.  When the function returns nil, one COMMIT is sent
    and nothing after it: the store becomes the transaction's copy, or,
    when the commit fails, the commit's error is returned and the store
    stays.  When the function returns an error or panics, one ROLLBACK is
    sent, the store stays, and the error or the panic reaches the caller
    unchanged.  The transaction is closed in every case. *)
Theorem WithTransaction_commits_or_rolls_back
    (D : Driver) (c : Connection) (fn : nat -> M D unit)
    (w w1 w2 : World D) (tx : nat) (r : Out unit) (s : Store D) :
  DB_BeginTx D w = (Ok tx, w1) ->
  fn tx w1 = (r, w2) ->
  txs w2 !! tx = Some s ->
  let res := WithTransaction D c fn w in
  txs (snd res) !! tx = None
  /\ heap (snd res) = heap w2
  /\ match r with
     | Ok _ =>
         trace (snd res) = trace w2 ++ [EvCommit tx]
         /\ match commit_err D s with
            | None => fst res = Ok tt /\ store (snd res) = s
            | Some e => fst res = Err e /\ store (snd res) = store w2
            end
     | _ =>
         fst res = r
         /\ trace (snd res) = trace w2 ++ [EvRollback tx]
         /\ store (snd res) = store w2
     end.
Proof.
  intros Hb Hfn Hs res. subst res. unfold WithTransaction.
  rewrite (bind_ok _ _ _ _ _ Hb). rewrite Hfn.
  destruct r as [[]|e|p].
  - rewrite (Tx_Commit_open _ _ _ Hs).
    destruct (commit_err D s); simpl;
      (split; [apply lookup_delete_eq|]); (split; [reflexivity|]); auto.
  - rewrite (Tx_Rollback_open _ _ _ Hs). simpl.
    split; [apply lookup_delete_eq|]. auto.
  - rewrite (Tx_Rollback_open _ _ _ Hs). simpl.
    split; [apply lookup_delete_eq|]. auto.
Qed.

Lemma WithTransaction_commits_or_rolls_back_witness :
  let res := WithTransaction Toy.driver Toy.conn
               (fun tx => Toy.insert_then_panic (Executor.NewTxExecutor tx)) (Toy.world ∅) in
  txs (snd res) !! 0%nat = None
  /\ heap (snd res) = ∅
  /\ fst res = Panic "index out of range"
  /\ trace (snd res)
     = [EvBegin 0; EvExec (OnTx 0) "INSERT INTO audit (what) VALUES (?)" [Some (VStr "login")]]
         ++ [EvRollback 0]
  /\ store (snd res) = [].
Proof.
  apply (WithTransaction_commits_or_rolls_back Toy.driver Toy.conn
           (fun tx => Toy.insert_then_panic (Executor.NewTxExecutor tx)) (Toy.world ∅)
           (mkWorld Toy.driver ∅ [EvBegin 0] [] {[0%nat := []]} 1 0)
           (mkWorld Toy.driver ∅
              [EvBegin 0; EvExec (OnTx 0) "INSERT INTO audit (what) VALUES (?)"
                                 [Some (VStr "login")]]
              [] {[0%nat := ["INSERT INTO audit (what) VALUES (?)"]]} 1 0)
           0%nat (Panic "index out of range") ["INSERT INTO audit (what) VALUES (?)"]).
  - vm_compute. reflexivity.
  - vm_compute. reflexivity.
  - vm_compute. reflexivity.
Defined.

(** X14: an executor made for a transaction has no database handle, so
    [Executor.WithTransaction] called on it, as a function running under
    [Executor.WithTransaction] would do to nest transactions, panics on
    the nil handle; the panic leaves the outer transaction open, with no
    rollback sent. *)
Theorem Executor_WithTransaction_nested_panics
    (D : Driver) (e : Executor.t) (fn : Executor.t -> M D unit) (w : World D) :
  Executor.db e = true ->
  begin_err D (store w) = None ->
  let res := Executor.WithTransaction D e
               (fun inner => Executor.WithTransaction D inner fn) w in
  fst res = Panic "invalid memory address or nil pointer dereference"
  /\ trace (snd res) = trace w ++ [EvBegin (next_tx w)]
  /\ txs (snd res) !! next_tx w = Some (store w).
Proof.
  intros Hdb Hb res.
  assert (H : res = (Panic "invalid memory address or nil pointer dereference",
                     log D (EvBegin (next_tx w))
                         (mkWorld D (heap w) (trace w) (store w)
                                  (<[next_tx w := store w]> (txs w)) (S (next_tx w)) (ticks w)))).
  { subst res. unfold Executor.WithTransaction at 1. rewrite Hdb.
    unfold bind, DB_BeginTx. rewrite Hb. reflexivity. }
  rewrite H. simpl.
  split; [reflexivity|]. split; [reflexivity|]. apply lookup_insert_eq.
Qed.

Lemma Executor_WithTransaction_nested_panics_witness :
  let res := Executor.WithTransaction Toy.driver Executor.NewExecutor
               (fun inner => Executor.WithTransaction Toy.driver inner Toy.insert_then_panic)
               (Toy.world ∅) in
  fst res = Panic "invalid memory address or nil pointer dereference"
  /\ trace (snd res) = [] ++ [EvBegin 0]
  /\ txs (snd res) !! 0%nat = Some [].
Proof.
  apply (Executor_WithTransaction_nested_panics Toy.driver Executor.NewExecutor
           Toy.insert_then_panic (Toy.world ∅)); reflexivity.
Defined.

(** ** MigrateDown *)

(** X15: [MigrateDown] reverts the first migration of the list the ledger
    query returns (applied ones, latest first) and no other.  With an
    empty list it fails before a transaction is begun.  Otherwise the down
    script and the update that marks the migration unapplied run on one
    transaction; when one of them or the commit fails, the error is
    returned and the store is left as it was. *)
Theorem MigrateDown_reverts_the_latest_or_nothing
    (D : Driver) (m : MigrationManager.t) (w w1 : World D)
    (migrations : list Migration.t) (out : Out unit) (w' : World D) :
  MigrationManager.GetAppliedMigrations D m w = (Ok migrations, w1) ->
  MigrationManager.MigrateDown D m w = (out, w') ->
  match migrations with
  | [] => out = Err (ErrNew "no migrations to revert") /\ w' = w1
  | lastMigration :: _ =>
      match begin_err D (store w1) with
      | Some e => out = Err e /\ w' = w1
      | None =>
          let tx := next_tx w1 in
          let down := EvExec (OnTx tx) (Migration.Down lastMigration) [] in
          let mark := EvExec (OnTx tx) (MigrationManager.markUnappliedQuery m)
                             [Some (VInt (Migration.ID lastMigration))] in
          txs w' !! tx = None
          /\ match run_exec D (Migration.Down lastMigration) [] (store w1) with
             | Bad e =>
                 out = Err (ErrWrap ("failed to revert migration "
                                       +:+ Migration.Name lastMigration) e)
                 /\ trace w' = trace w1 ++ [EvBegin tx; down; EvRollback tx]
                 /\ store w' = store w1
             | Good (_, s1) =>
                 match run_exec D (MigrationManager.markUnappliedQuery m)
                                [Some (VInt (Migration.ID lastMigration))] s1 with
                 | Bad e =>
                     out = Err (ErrWrap ("failed to mark migration "
                                           +:+ Migration.Name lastMigration
                                           +:+ " as unapplied") e)
                     /\ trace w' = trace w1 ++ [EvBegin tx; down; mark; EvRollback tx]
                     /\ store w' = store w1
                 | Good (_, s2) =>
                     trace w'
                     = trace w1 ++ [EvBegin tx; down; mark; EvCommit tx; EvRollback tx]
                     /\ match commit_err D s2 with
                        | None => out = Ok tt /\ store w' = s2
                        | Some e => out = Err e /\ store w' = store w1
                        end
                 end
             end
      end
  end.
Proof.
  intros Hg H. unfold MigrationManager.MigrateDown in H.
  rewrite (bind_ok _ _ _ _ _ Hg) in H.
  destruct migrations as [|lastMigration rest]; [inversion H; auto|].
  unfold bind at 1 in H. unfold DB_BeginTx in H.
  destruct (begin_err D (store w1)) as [e|]; [inversion H; auto|].
  cbv zeta. unfold defer in H.
  unfold bind at 1 in H. unfold MigrationManager.wrapping at 1 in H.
  erewrite Tx_ExecContext_open in H by (simpl; apply lookup_insert_eq).
  destruct (run_exec D (Migration.Down lastMigration) [] (store w1)) as [[r1 s1]|e1].
  2:{ erewrite Tx_Rollback_open in H by (simpl; apply lookup_insert_eq).
      inversion H; subst. simpl. split; [apply lookup_delete_eq|].
      split; [reflexivity|]. split; [rewrite <- !app_assoc; reflexivity|reflexivity]. }
  unfold bind at 1 in H. unfold MigrationManager.wrapping at 1 in H.
  erewrite Tx_ExecContext_open in H by (simpl; apply lookup_insert_eq).
  destruct (run_exec D (MigrationManager.markUnappliedQuery m) _ s1) as [[r2 s2]|e2].
  2:{ erewrite Tx_Rollback_open in H by (simpl; apply lookup_insert_eq).
      inversion H; subst. simpl. split; [apply lookup_delete_eq|].
      split; [reflexivity|]. split; [rewrite <- !app_assoc; reflexivity|reflexivity]. }
  erewrite Tx_Commit_open in H by (simpl; apply lookup_insert_eq).
  destruct (commit_err D s2) as [e|].
  - erewrite Tx_Rollback_done in H by (simpl; apply lookup_delete_eq).
    inversion H; subst. simpl. split; [apply lookup_delete_eq|].
    split; [rewrite <- !app_assoc; reflexivity|]. auto.
  - erewrite Tx_Rollback_done in H by (simpl; apply lookup_delete_eq).
    inversion H; subst. simpl. split; [apply lookup_delete_eq|].
    split; [rewrite <- !app_assoc; reflexivity|]. auto.
Qed.

Lemma MigrateDown_reverts_the_latest_or_nothing_witness :
  let r := MigrationManager.MigrateDown Toy.driver Toy.manager (Toy.world ∅) in
  let w1 := snd (MigrationManager.GetAppliedMigrations Toy.driver Toy.manager (Toy.world ∅)) in
  txs (snd r) !! 0%nat = None
  /\ trace (snd r)
     = trace w1 ++ [EvBegin 0; EvExec (OnTx 0) "DROP TABLE users" [];
                    EvExec (OnTx 0) (MigrationManager.markUnappliedQuery Toy.manager)
                           [Some (VInt 1)];
                    EvCommit 0; EvRollback 0]
  /\ fst r = Ok tt
  /\ store (snd r) = ["DROP TABLE users"; MigrationManager.markUnappliedQuery Toy.manager].
Proof.
  intros r w1.
  apply (MigrateDown_reverts_the_latest_or_nothing Toy.driver Toy.manager (Toy.world ∅) w1
           Toy.pending (fst r) (snd r)).
  - vm_compute. reflexivity.
  - apply surjective_pairing.
Defined.

(** ** Preloading one record: no row *)

Section SingleNoRow.

Context {D : Driver}.
Implicit Types w : World D.

(** The end of [preloadHasOne] and [preloadBelongsTo]: the query, and
    what is done with an answer that holds no record. *)
Lemma select_then_fill_no_row relInfo column key sourceValue field relType w0 w
    q args rows (out : Out unit) w' :
  quiet_from w0 w ->
  (rows' <- select_related D relInfo column key ;;
   fill_single D sourceValue field relType relInfo rows') w = (out, w') ->
  trace w' = trace w0 ++ [EvQuery OnDB q args] ->
  run_query D q args (store w0) = Good rows -> records rows = [] ->
  out = Ok tt /\ heap w0 ⊆ heap w'.
Proof.
  intros HI H Htr Hq Hr.
  unfold select_related in H. rewrite bind_assoc in H.
  quiet_steps H HI Htr.
  destruct HI as (Ht0 & Hs0 & _ & _ & Hsub).
  apply bind_inv in H as [(rows' & wq & Hqq & H)|[(e & Hqq & ->)|(p & Hqq & ->)]];
    apply DB_QueryContext_inv in Hqq as [-> Hres].
  - destruct (holds_fill_single _ _ _ _ _ _ _ _ _ (same_db_refl _) H) as [(Htr' & _) _].
    simpl in Htr'. rewrite Ht0, Htr in Htr'. apply app_inv_head in Htr'.
    injection Htr' as Hq1 Hq2. rewrite <- Hq1, <- Hq2, Hs0, Hq in Hres.
    injection Hres as ->.
    unfold fill_single in H. rewrite Hr in H. inversion H; subst.
    split; [reflexivity|exact Hsub].
  - exfalso. simpl in Htr. rewrite Ht0 in Htr. apply app_inv_head in Htr.
    injection Htr as Hq1 Hq2. rewrite Hq1, Hq2, Hs0, Hq in Hres. discriminate.
  - exfalso. destruct (run_query D _ _ _) in Hres; discriminate.
Qed.

Lemma preloadHasOne_no_row c source field rel w q args rows (out : Out unit) w' :
  preloadHasOne D c source field rel w = (out, w') ->
  trace w' = trace w ++ [EvQuery OnDB q args] ->
  run_query D q args (store w) = Good rows -> records rows = [] ->
  out = Ok tt /\ heap w ⊆ heap w'.
Proof.
  intros H Htr Hq Hr.
  pose proof (quiet_from_refl w) as HI.
  unfold preloadHasOne in H.
  quiet_steps H HI Htr.
  eapply select_then_fill_no_row; eauto.
Qed.

Lemma preloadBelongsTo_no_row c source field rel w q args rows (out : Out unit) w' :
  preloadBelongsTo D c source field rel w = (out, w') ->
  trace w' = trace w ++ [EvQuery OnDB q args] ->
  run_query D q args (store w) = Good rows -> records rows = [] ->
  out = Ok tt /\ heap w ⊆ heap w'.
Proof.
  intros H Htr Hq Hr.
  pose proof (quiet_from_refl w) as HI.
  unfold preloadBelongsTo in H.
  quiet_steps H HI Htr.
  match type of H with
  | match ?fk with _ => _ end _ = _ => destruct fk as [fk'|]
  end.
  2:{ exfalso. inversion H; subst. apply quiet_no_event in Htr; [discriminate|assumption]. }
  quiet_steps H HI Htr.
  eapply select_then_fill_no_row; eauto.
Qed.

End SingleNoRow.

(** X16: when the query of [preloadHasOne] or [preloadBelongsTo] returns
    no record, the preload returns nil, not [ErrNotFound], and every
    variable that existed keeps its value: the relationship field of the
    source is left as it was, whatever it held. *)
Theorem preload_of_one_record_without_row_leaves_the_field
    (D : Driver) (c : Connection) (source : any) (field : string) (rel : Relationship.t)
    (w : World D) (q : string) (args : list any) (rows : Rows)
    (out : Out unit) (w' : World D) :
  preloadHasOne D c source field rel w = (out, w')
  \/ preloadBelongsTo D c source field rel w = (out, w') ->
  trace w' = trace w ++ [EvQuery OnDB q args] ->
  run_query D q args (store w) = Good rows ->
  records rows = [] ->
  out = Ok tt /\ heap w ⊆ heap w'.
Proof.
  intros [H|H] Htr Hq Hr.
  - eapply preloadHasOne_no_row; eauto.
  - eapply preloadBelongsTo_no_row; eauto.
Qed.

Lemma preload_of_one_record_without_row_leaves_the_field_witness :
  let w := Toy.world {[1%nat := Toy.draft]} in
  let r := preloadHasOne Toy.driver Toy.conn Toy.post "Comments" Toy.comments_of_post w in
  fst r = Ok tt /\ heap w ⊆ heap (snd r).
Proof.
  intros w r.
  apply (preload_of_one_record_without_row_leaves_the_field Toy.driver Toy.conn Toy.post
           "Comments" Toy.comments_of_post w
           "SELECT * FROM comments WHERE post_id = ?" [Some (VInt 7)]
           (mkRows (Good ["id"]) [] None) (fst r) (snd r)).
  - left. apply surjective_pairing.
  - vm_compute. reflexivity.
  - reflexivity.
  - reflexivity.
Defined.

(** On the example database no writer is found for the article: its
    [Author] field still points to the record it pointed to. *)
Example preloadBelongsTo_keeps_the_old_pointer :
  let r := preloadBelongsTo Toy.driver Toy.conn Toy.article "Author" Toy.author_of_article
             (Toy.world Toy.newsroom) in
  fst r = Ok tt
  /\ heap (snd r) !! 1%nat = Toy.newsroom !! 1%nat.
Proof. vm_compute. split; reflexivity. Qed.

(** ** The join table *)

Section JoinTable.

Context {D : Driver}.
Implicit Types w : World D.

Lemma exec_ignoring_result w0 w q' args' q args r s' (out : Out unit) w' :
  quiet_from w0 w ->
  (DB_ExecContext D q' args' ;;; ret tt) w = (out, w') ->
  trace w' = trace w0 ++ [EvExec OnDB q args] ->
  run_exec D q args (store w0) = Good (r, s') ->
  out = Ok tt /\ q' = q /\ args' = args /\ store w' = s' /\ heap w0 ⊆ heap w'.
Proof.
  intros (Ht0 & Hs0 & _ & _ & Hsub) H Htr Hrun.
  unfold bind, DB_ExecContext in H. simpl in H.
  destruct (run_exec D q' args' (store w)) as [[r' s'']|e] eqn:Hrun';
    inversion H; subst; simpl in Htr; rewrite Ht0 in Htr; apply app_inv_head in Htr;
    injection Htr as -> ->; rewrite Hs0, Hrun in Hrun'; [|discriminate].
  injection Hrun' as <- <-. simpl. auto.
Qed.

Lemma Dissociate_one_statement c source field target rel w q args r s' (out : Out unit) w' :
  Dissociate D c source field target rel w = (out, w') ->
  trace w' = trace w ++ [EvExec OnDB q args] ->
  run_exec D q args (store w) = Good (r, s') ->
  out = Ok tt
  /\ q = "DELETE FROM " +:+ Relationship.JoinTable rel +:+ " WHERE "
           +:+ Relationship.JoinForeignKey rel +:+ " = ? AND "
           +:+ Relationship.JoinRefKey rel +:+ " = ?"
  /\ store w' = s' /\ heap w ⊆ heap w'.
Proof.
  intros H Htr Hrun.
  pose proof (quiet_from_refl w) as HI.
  unfold Dissociate in H.
  destruct (negb _).
  { exfalso. inversion H; subst. apply quiet_no_event in Htr; [discriminate|assumption]. }
  quiet_steps H HI Htr.
  match type of H with
  | match ?f with _ => _ end _ = _ => destruct f
  end.
  2:{ exfalso. inversion H; subst. apply quiet_no_event in Htr; [discriminate|assumption]. }
  quiet_steps H HI Htr.
  match type of H with
  | match ?f with _ => _ end _ = _ => destruct f
  end.
  2:{ exfalso. inversion H; subst. apply quiet_no_event in Htr; [discriminate|assumption]. }
  quiet_steps H HI Htr.
  destruct (exec_ignoring_result _ _ _ _ _ _ _ _ _ _ HI H Htr Hrun) as (-> & <- & _ & Hst & Hh).
  auto.
Qed.

Lemma Associate_one_statement c source field target rel w q args r s' (out : Out unit) w' :
  Associate D c source field target rel w = (out, w') ->
  trace w' = trace w ++ [EvExec OnDB q args] ->
  run_exec D q args (store w) = Good (r, s') ->
  out = Ok tt
  /\ q = "INSERT INTO " +:+ Relationship.JoinTable rel +:+ " ("
           +:+ Relationship.JoinForeignKey rel +:+ ", "
           +:+ Relationship.JoinRefKey rel +:+ ") VALUES (?, ?)"
  /\ store w' = s' /\ heap w ⊆ heap w'.
Proof.
  intros H Htr Hrun.
  pose proof (quiet_from_refl w) as HI.
  unfold Associate in H.
  destruct (negb _).
  { exfalso. inversion H; subst. apply quiet_no_event in Htr; [discriminate|assumption]. }
  quiet_steps H HI Htr.
  match type of H with
  | match ?f with _ => _ end _ = _ => destruct f
  end.
  2:{ exfalso. inversion H; subst. apply quiet_no_event in Htr; [discriminate|assumption]. }
  quiet_steps H HI Htr.
  match type of H with
  | match ?f with _ => _ end _ = _ => destruct f
  end.
  2:{ exfalso. inversion H; subst. apply quiet_no_event in Htr; [discriminate|assumption]. }
  quiet_steps H HI Htr.
  destruct (exec_ignoring_result _ _ _ _ _ _ _ _ _ _ HI H Htr Hrun) as (-> & <- & _ & Hst & Hh).
  auto.
Qed.

End JoinTable.

(** X17: [Associate] and [Dissociate] send one statement on the join
    table, with literal [?] placeholders whatever the driver, and return
    nil as soon as the database executes it: the result is not looked at,
    so removing an association that does not exist reports success. *)
Theorem Associate_Dissociate_ignore_the_result
    (D : Driver) (c : Connection) (source target : any) (field : string)
    (rel : Relationship.t) (w : World D) (q : string) (args : list any)
    (r : ExecResult) (s' : Store D) (out : Out unit) (w' : World D) :
  Associate D c source field target rel w = (out, w')
  \/ Dissociate D c source field target rel w = (out, w') ->
  trace w' = trace w ++ [EvExec OnDB q args] ->
  run_exec D q args (store w) = Good (r, s') ->
  out = Ok tt
  /\ store w' = s'
  /\ heap w ⊆ heap w'
  /\ (q = "INSERT INTO " +:+ Relationship.JoinTable rel +:+ " ("
            +:+ Relationship.JoinForeignKey rel +:+ ", "
            +:+ Relationship.JoinRefKey rel +:+ ") VALUES (?, ?)"
      \/ q = "DELETE FROM " +:+ Relationship.JoinTable rel +:+ " WHERE "
               +:+ Relationship.JoinForeignKey rel +:+ " = ? AND "
               +:+ Relationship.JoinRefKey rel +:+ " = ?").
Proof.
  intros [H|H] Htr Hrun.
  - destruct (Associate_one_statement _ _ _ _ _ _ _ _ _ _ _ _ H Htr Hrun) as (? & ? & ? & ?).
    auto.
  - destruct (Dissociate_one_statement _ _ _ _ _ _ _ _ _ _ _ _ H Htr Hrun) as (? & ? & ? & ?).
    auto.
Qed.

Lemma Associate_Dissociate_ignore_the_result_witness :
  let rel := Relationship.mk ManyToMany (Some (zero (TStruct Toy.Tag))) "" "" "ghosts"
                             "post_id" "tag_id" false in
  let w := Toy.world {[1%nat := Toy.draft; 2%nat := VStruct Toy.Tag [VInt 3; VStr "go"]]} in
  let res := Dissociate Toy.driver Toy.conn Toy.post "Tags"
               (Some (VPtr (TStruct Toy.Tag) (Some 2%nat))) rel w in
  RowsAffected (mkResult (Good 1) (Good 0)) = Good 0
  /\ fst res = Ok tt
  /\ store (snd res) = ["DELETE FROM ghosts WHERE post_id = ? AND tag_id = ?"]
  /\ heap w ⊆ heap (snd res)
  /\ ("DELETE FROM ghosts WHERE post_id = ? AND tag_id = ?"
      = "INSERT INTO " +:+ Relationship.JoinTable rel +:+ " ("
          +:+ Relationship.JoinForeignKey rel +:+ ", "
          +:+ Relationship.JoinRefKey rel +:+ ") VALUES (?, ?)"
      \/ "DELETE FROM ghosts WHERE post_id = ? AND tag_id = ?"
         = "DELETE FROM " +:+ Relationship.JoinTable rel +:+ " WHERE "
             +:+ Relationship.JoinForeignKey rel +:+ " = ? AND "
             +:+ Relationship.JoinRefKey rel +:+ " = ?").
Proof.
  intros rel w res. split; [reflexivity|].
  apply (Associate_Dissociate_ignore_the_result Toy.driver Toy.conn Toy.post
           (Some (VPtr (TStruct Toy.Tag) (Some 2%nat))) "Tags" rel w
           "DELETE FROM ghosts WHERE post_id = ? AND tag_id = ?"
           [Some (VInt 7); Some (VInt 3)]
           (mkResult (Good 1) (Good 0))
           ["DELETE FROM ghosts WHERE post_id = ? AND tag_id = ?"] (fst res) (snd res)).
  - right. apply surjective_pairing.
  - vm_compute. reflexivity.
  - reflexivity.
Defined.

(** ** The key field of the source *)

Section KeyField.

Context {D : Driver}.
Implicit Types w : World D.

Lemma source_key_missing w model d vals :
  denotes w model d vals ->
  lookup_field (toFieldName (ModelInfo.PrimaryKey (modelInfoOf model d))) (sfields d) 0 = None ->
  source_key D (Some model) (indirect (Some model)) w
  = (Err (ErrNew ("primary key field " +:+ ModelInfo.PrimaryKey (modelInfoOf model d)
                    +:+ " not found in source model")), w).
Proof.
  intros Hd Hl. unfold source_key.
  rewrite (bind_ok _ _ _ _ _ (extractModelInfo_denotes _ _ _ _ Hd)).
  rewrite (bind_ok _ _ _ _ _ (FieldByName_denotes _ _ _ _ _ Hd)).
  rewrite Hl. reflexivity.
Qed.

Lemma require_struct_denotes w model d vals :
  denotes w model d vals ->
  require_struct D (indirect (Some model)) w = (Ok tt, w).
Proof.
  intros Hd. unfold require_struct.
  rewrite (bind_ok _ _ _ _ _ (current_denotes _ _ _ _ Hd)). reflexivity.
Qed.

End KeyField.

(** X18: the preloads that start from the source's key look its field up
    under the name [toFieldName] makes of the key column ([id] gives
    [Id], [user_id] gives [UserId]).  A record whose key field bears
    another name, [ID] for instance, cannot be preloaded: the three
    preloads fail before anything is sent. *)
Theorem preload_looks_the_key_field_up_by_converted_name
    (D : Driver) (c : Connection) (model : Value) (d : StructDecl) (vals : list Value)
    (field : string) (rel : Relationship.t) (w : World D) :
  denotes w model d vals ->
  lookup_field (toFieldName (ModelInfo.PrimaryKey (modelInfoOf model d))) (sfields d) 0 = None ->
  let e := Err (ErrNew ("primary key field " +:+ ModelInfo.PrimaryKey (modelInfoOf model d)
                          +:+ " not found in source model")) in
  preloadHasOne D c (Some model) field rel w = (e, w)
  /\ preloadHasMany D c (Some model) field rel w = (e, w)
  /\ preloadManyToMany D c (Some model) field rel w = (e, w).
Proof.
  intros Hd Hl e.
  pose proof (require_struct_denotes w model d vals Hd) as Hr.
  pose proof (source_key_missing w model d vals Hd Hl) as Hk.
  unfold preloadHasOne, preloadHasMany, preloadManyToMany.
  rewrite !(bind_ok _ _ _ _ _ Hr). rewrite !(bind_err _ _ _ _ _ Hk). auto.
Qed.

Lemma preload_looks_the_key_field_up_by_converted_name_witness :
  let w := Toy.world {[1%nat := Toy.jdoe]} in
  let e := Err (ErrNew "primary key field id not found in source model") in
  toFieldName "id" = "Id"
  /\ preloadHasOne Toy.driver Toy.conn Toy.user "Posts" Toy.comments_of_post w = (e, w)
  /\ preloadHasMany Toy.driver Toy.conn Toy.user "Posts" Toy.comments_of_post w = (e, w)
  /\ preloadManyToMany Toy.driver Toy.conn Toy.user "Posts" Toy.comments_of_post w = (e, w).
Proof.
  intros w e. split; [reflexivity|].
  apply (preload_looks_the_key_field_up_by_converted_name Toy.driver Toy.conn
           (VPtr (TStruct Toy.User) (Some 1%nat)) Toy.User [VInt 0; VStr "jdoe"]
           "Posts" Toy.comments_of_post w).
  - right. exists (TStruct Toy.User), 1%nat. split; reflexivity.
  - reflexivity.
Defined.

(** ** Nested operations with the options off *)

Section OptionsOff.

Context {D : Driver}.
Implicit Types w : World D.

Lemma create_rels_without_AutoSave c model opts rels w :
  NestedOption.AutoSave opts = false ->
  create_rels D c model opts rels w = (Ok tt, w).
Proof.
  intros Ho. induction rels as [|[field rel] rest IH]; simpl; [reflexivity|].
  rewrite Ho. simpl. exact IH.
Qed.

Lemma delete_rels_nothing_to_do c model opts rels w :
  NestedOption.AutoDelete opts = false ->
  Forall (fun fr => Relationship.Type_ (snd fr) <> ManyToMany) rels ->
  delete_rels D c model opts rels w = (Ok tt, w).
Proof.
  intros Ho. induction 1 as [|[field rel] rest Hne _ IH]; simpl; [reflexivity|].
  simpl in Hne. unfold nestedDeleteHasOne, nestedDeleteHasMany, nestedDeleteOwned.
  rewrite Ho. simpl.
  repeat case_decide; try contradiction; rewrite bind_ret; exact IH.
Qed.

End OptionsOff.

(** X19: with [AutoSave] off, [CreateNested] does what [Create] does and
    nothing more: the same result, the same statement, the same values in
    the variables.  The relationships are not looked at, so a map with an
    unsupported kind of relationship raises no error. *)
Theorem CreateNested_without_AutoSave_is_Create
    (D : Driver) (c : Connection) (model : any)
    (relationships : gmap string Relationship.t) (opts : NestedOption.t) (w : World D) :
  NestedOption.AutoSave opts = false ->
  let r := CreateNested D c model relationships opts w in
  let r0 := Create D c model w in
  fst r = fst r0
  /\ trace (snd r) = trace (snd r0)
  /\ store (snd r) = store (snd r0)
  /\ heap (snd r) = heap (snd r0).
Proof.
  intros Ho r r0. subst r r0. unfold CreateNested, bind, range.
  destruct (Create D c model w) as [[[]|e|p] w1]; [|simpl; auto..].
  rewrite create_rels_without_AutoSave by exact Ho. simpl. auto.
Qed.

Lemma CreateNested_without_AutoSave_is_Create_witness :
  let w := Toy.world Toy.newsroom in
  let opts := NestedOption.mk false false false false false in
  let rels : gmap string Relationship.t :=
    {["Author" := Relationship.mk 7 None "" "" "" "" "" false]} in
  let r := CreateNested Toy.driver Toy.conn Toy.article rels opts w in
  let r0 := Create Toy.driver Toy.conn Toy.article w in
  fst r = fst r0
  /\ trace (snd r) = trace (snd r0)
  /\ store (snd r) = store (snd r0)
  /\ heap (snd r) = heap (snd r0).
Proof.
  intros w opts rels.
  apply (CreateNested_without_AutoSave_is_Create Toy.driver Toy.conn Toy.article rels opts w).
  reflexivity.
Defined.

(** X20: [DeleteNested] skips the relationships that are neither HasOne,
    HasMany nor ManyToMany, and with [AutoDelete] off, as in the default
    options, it does nothing for HasOne and HasMany.  So when no
    relationship is ManyToMany the run is that of [Delete] after the
    enumeration of the map: the related records stay in the database. *)
Theorem DeleteNested_without_AutoDelete_is_Delete
    (D : Driver) (c : Connection) (model : any)
    (relationships : gmap string Relationship.t) (opts : NestedOption.t) (w : World D) :
  NestedOption.AutoDelete opts = false ->
  map_Forall (fun _ rel => Relationship.Type_ rel <> ManyToMany) relationships ->
  DeleteNested D c model relationships opts w = Delete D c model (tick D w).
Proof.
  intros Ho Hr. unfold DeleteNested.
  unfold bind at 1. unfold range at 1.
  rewrite (bind_ok _ _ _ tt (tick D w)); [reflexivity|].
  apply delete_rels_nothing_to_do; [exact Ho|].
  eapply Forall_forall. intros [field rel] Hin.
  rewrite (range_order_perm D _ (ticks w) (map_to_list relationships)) in Hin.
  apply elem_of_map_to_list in Hin. exact (Hr _ _ Hin).
Qed.

Lemma DeleteNested_without_AutoDelete_is_Delete_witness :
  let w := Toy.world {[1%nat := Toy.draft]} in
  DeleteNested Toy.driver Toy.conn Toy.post Toy.post_rels DefaultNestedOption w
  = Delete Toy.driver Toy.conn Toy.post (tick Toy.driver w).
Proof.
  intros w.
  apply (DeleteNested_without_AutoDelete_is_Delete Toy.driver Toy.conn Toy.post
           Toy.post_rels DefaultNestedOption w).
  - reflexivity.
  - apply map_Forall_singleton. discriminate.
Defined.

(** The comments of the post are still in the database: the run sends the
    DELETE of the post and nothing else. *)
Example DeleteNested_default_options_orphans :
  trace (snd (DeleteNested Toy.driver Toy.conn Toy.post Toy.post_rels DefaultNestedOption
                (Toy.world {[1%nat := Toy.draft]})))
  = [EvExec OnDB "DELETE FROM posts WHERE id = ?" [Some (VInt 7)]].
Proof. vm_compute. reflexivity. Qed.

(** ** Field names and column names *)

Lemma upper_lower_char a : Str.is_upper a = true -> Str.upper_char (Str.lower_char a) = a.
Proof.
  destruct a as [b0 b1 b2 b3 b4 b5 b6 b7].
  destruct b0, b1, b2, b3, b4, b5, b6, b7; vm_compute; intros H; congruence.
Qed.

Lemma lower_char_no_separator a :
  is_alnum a = true ->
  Str.is_separator (Str.lower_char a) = false /\ Str.lower_char a <> "_"%char.
Proof.
  destruct a as [b0 b1 b2 b3 b4 b5 b6 b7].
  destruct b0, b1, b2, b3, b4, b5, b6, b7; vm_compute; intros H; split; congruence.
Qed.

Lemma lower_char_not_upper a : Str.is_upper a = false -> Str.lower_char a = a.
Proof. unfold Str.lower_char. intros ->. reflexivity. Qed.

Lemma Split_cons_inv s sep : exists p ps, Str.Split s sep = p :: ps.
Proof.
  induction s as [|a s IH]; simpl; [eauto|].
  destruct IH as (p & ps & ->). case_decide; eauto.
Qed.

(** The parts of the snake-cased tail of a name: capitalised, and the
    first one left as it is, they give the tail back. *)
Lemma snake_tail_parts s :
  all_alnum s = true ->
  exists p ps,
    Str.Split (Str.ToLower (snake_go false s)) "_" = p :: ps
    /\ Str.Title_go false p +:+ String.concat "" (map Str.Title ps) = s.
Proof.
  induction s as [|a s IH]; intros Ha.
  - exists "", []. split; reflexivity.
  - simpl in Ha. apply andb_prop in Ha as [Ha Hs].
    destruct (IH Hs) as (p & ps & Hsp & Hj).
    destruct (lower_char_no_separator a Ha) as [Hsep Hne].
    simpl snake_go. destruct (Str.is_upper a) eqn:Hu; simpl.
    + rewrite Hsp. destruct (decide (Str.lower_char a = "_"%char)) as [|_]; [contradiction|].
      exists "", (String (Str.lower_char a) p :: ps). split; [reflexivity|].
      cbn [map]. rewrite concat_empty_cons.
      unfold Str.Title at 1. simpl. rewrite Hsep, (upper_lower_char a Hu).
      change (String a (Str.Title_go false p) +:+ String.concat "" (map Str.Title ps))
        with (String a (Str.Title_go false p +:+ String.concat "" (map Str.Title ps))).
      rewrite Hj. reflexivity.
    + rewrite Hsp. destruct (decide (Str.lower_char a = "_"%char)) as [|_]; [contradiction|].
      exists (String (Str.lower_char a) p), ps. split; [reflexivity|].
      simpl. rewrite Hsep, (lower_char_not_upper a Hu).
      change (String a (Str.Title_go false p) +:+ String.concat "" (map Str.Title ps))
        with (String a (Str.Title_go false p +:+ String.concat "" (map Str.Title ps))).
      rewrite Hj. reflexivity.
Qed.

(** X21: [toFieldName] undoes [toSnakeCase] on the name of an exported
    field made of ASCII letters and digits.  So the column name that
    [extractModelInfo] derives from a field name, [i_d] for [ID] or
    [user_name] for [UserName], leads the preloads back to that field. *)
Theorem toFieldName_undoes_toSnakeCase (f : FieldDecl) :
  IsExported f = true ->
  all_alnum (fname f) = true ->
  toFieldName (toSnakeCase (fname f)) = fname f.
Proof.
  unfold IsExported. destruct (fname f) as [|a s]; [discriminate|].
  intros Hu Ha. simpl in Ha. apply andb_prop in Ha as [Ha Hs].
  destruct (snake_tail_parts s Hs) as (p & ps & Hsp & Hj).
  destruct (lower_char_no_separator a Ha) as [Hsep Hne].
  unfold toFieldName, toSnakeCase, Str.Join. simpl.
  rewrite Hsp. destruct (decide (Str.lower_char a = "_"%char)) as [|_]; [contradiction|].
  cbn [map]. rewrite concat_empty_cons.
  unfold Str.Title at 1. simpl. rewrite Hsep, (upper_lower_char a Hu).
  change (String a (Str.Title_go false p) +:+ String.concat "" (map Str.Title ps))
    with (String a (Str.Title_go false p +:+ String.concat "" (map Str.Title ps))).
  rewrite Hj. reflexivity.
Qed.

Lemma toFieldName_undoes_toSnakeCase_witness :
  toSnakeCase "UserID2" = "user_i_d2"
  /\ toFieldName (toSnakeCase (fname (mkField "UserID2" TInt64 ""))) = "UserID2".
Proof.
  split; [reflexivity|].
  apply (toFieldName_undoes_toSnakeCase (mkField "UserID2" TInt64 "")); reflexivity.
Defined.

(** ** Schema: tables built from structs *)

Section SchemaColumns.

Variable Sscanf_d : string -> option Z.

Lemma option_prefix_keeps (column : Column.t) (opt : string) :
  let c' := option_default
              (option_scale Sscanf_d
                 (option_precision Sscanf_d (option_size Sscanf_d column opt) opt) opt) opt in
  Column.Name c' = Column.Name column
  /\ Column.Type_ c' = Column.Type_ column
  /\ Column.IsPrimaryKey c' = Column.IsPrimaryKey column
  /\ Column.IsAutoIncrement c' = Column.IsAutoIncrement column.
Proof.
  unfold option_default, option_scale, option_precision, option_size.
  destruct (HasPrefix opt "default:"), (HasPrefix opt "scale:"),
    (HasPrefix opt "precision:"), (HasPrefix opt "size:"); repeat split; reflexivity.
Qed.

Lemma column_option_spec (column : Column.t) (opt : string) :
  let c' := column_option Sscanf_d column opt in
  Column.Name c' = Column.Name column
  /\ Column.Type_ c' = Column.Type_ column
  /\ Column.IsPrimaryKey c'
     = (if decide (opt = "pk") then true else Column.IsPrimaryKey column)
  /\ Column.IsAutoIncrement c'
     = (if decide (opt = "pk") then Column.IsAutoIncrement column
        else if decide (opt = "auto") then true else Column.IsAutoIncrement column).
Proof.
  unfold column_option.
  destruct (option_prefix_keeps (option_switch column opt) opt) as (-> & -> & -> & ->).
  unfold option_switch.
  destruct (decide (opt = "pk")); [repeat split; reflexivity|].
  destruct (decide (opt = "auto")); [repeat split; reflexivity|].
  destruct (decide (opt = "nullable")); [repeat split; reflexivity|].
  destruct (decide (opt = "unique")); repeat split; reflexivity.
Qed.

(** The options of a tag, as [extractModelInfo] and as [BuildFromStruct]
    read them. *)
Lemma column_options_agree (opts : list string) (dbName : string) :
  forall (column : Column.t) (isKey isAuto : bool) (pk : option string),
    Column.Name column = dbName ->
    Column.IsPrimaryKey column = isKey ->
    Column.IsAutoIncrement column = isAuto ->
    (isKey = true -> pk = Some dbName) ->
    let c' := fold_left (column_option Sscanf_d) opts column in
    let r := tag_options opts dbName (isKey, isAuto, pk) in
    Column.Name c' = dbName
    /\ Column.Type_ c' = Column.Type_ column
    /\ Column.IsPrimaryKey c' = r.1.1
    /\ Column.IsAutoIncrement c' = r.1.2
    /\ (r.1.1 = true -> r.2 = Some dbName)
    /\ (r.1.1 = false -> r.2 = pk).
Proof.
  induction opts as [|opt opts IH]; intros column isKey isAuto pk Hn Hk Ha Hp; simpl.
  - repeat split; auto.
  - destruct (column_option_spec column opt) as (Hn' & Ht' & Hk' & Ha').
    case_decide as Hpk.
    + destruct (IH (column_option Sscanf_d column opt) true isAuto (Some dbName))
        as (? & ? & ? & ? & ? & Hf); try congruence.
      repeat split; auto; try congruence.
      intros Hfalse. exfalso.
      assert (Hkey : (tag_options opts dbName (true, isAuto, Some dbName)).1.1 = true).
      { clear. generalize isAuto (Some dbName).
        induction opts as [|o os IHo]; intros a p; simpl; [reflexivity|].
        repeat case_decide; apply IHo. }
      congruence.
    + case_decide as Hauto.
      * destruct (IH (column_option Sscanf_d column opt) isKey true pk)
          as (? & ? & ? & ? & ? & ?); try congruence; try assumption.
        repeat split; auto; congruence.
      * destruct (IH (column_option Sscanf_d column opt) isKey isAuto pk)
          as (? & ? & ? & ? & ? & ?); try congruence; try assumption.
        repeat split; auto; congruence.
Qed.

Lemma build_columns_agree (fs : list FieldDecl) :
  forall (table : Table.t) (pk : string) (acc : list FieldInfo.t),
    agree table pk acc ->
    agree (build_columns Sscanf_d fs table) (model_fields fs pk acc).1
          (model_fields fs pk acc).2.
Proof.
  induction fs as [|f fs IH]; intros table pk acc H; [exact H|].
  cbn [build_columns model_fields].
  destruct (IsExported f); cbn [negb]; [|apply IH; exact H].
  case_decide; [apply IH; exact H|].
  cbv zeta.
  set (opts := tail (Str.Split (ftag f) ",")).
  set (dbName := match Str.Split (ftag f) "," with
                 | [] => toSnakeCase (fname f)
                 | p0 :: _ => if decide (p0 = "") then toSnakeCase (fname f) else p0
                 end).
  pose proof (column_options_agree opts dbName (NewColumn dbName "") false false None
                eq_refl eq_refl eq_refl ltac:(discriminate)) as Hc.
  cbv zeta in Hc.
  destruct (tag_options opts dbName (false, false, None)) as [[isKey isAuto] pko] eqn:Et.
  cbn [fst snd] in Hc. destruct Hc as (Hn & Hty & Hk & Ha & Hp & Hnp).
  apply IH. destruct H as (H1 & H2 & H3 & H4 & H5).
  unfold agree, AddColumn. cbn [Table.Columns Table.PrimaryKey]. rewrite !map_app.
  cbn [map FieldInfo.DBName FieldInfo.IsKey FieldInfo.IsAuto].
  rewrite H1, H2, H3, Hn, Hk, Ha.
  repeat split; try reflexivity.
  - apply Forall_app. split; [exact H4|]. constructor; [exact Hty|constructor].
  - intros c Hc. destruct isKey.
    + injection Hc as <-. rewrite (Hp eq_refl). exact Hn.
    + rewrite (Hnp eq_refl). apply H5. exact Hc.
Qed.

Lemma build_columns_name (fs : list FieldDecl) :
  forall table : Table.t, Table.Name (build_columns Sscanf_d fs table) = Table.Name table.
Proof.
  induction fs as [|f fs IH]; intros table; [reflexivity|].
  cbn [build_columns]. destruct (IsExported f); cbn [negb]; [|apply IH].
  case_decide; [apply IH|]. cbv zeta. rewrite IH. reflexivity.
Qed.

Lemma build_columns_no_key (fs : list FieldDecl) :
  forall table : Table.t,
    Table.PrimaryKey table = None ->
    Forall (fun f => "pk" ∉ tail (Str.Split (ftag f) ",")) fs ->
    Table.PrimaryKey (build_columns Sscanf_d fs table) = None.
Proof.
  induction fs as [|f fs IH]; intros table Ht Hf; simpl; [exact Ht|].
  apply Forall_cons in Hf as [Hpk Hf].
  destruct (IsExported f); simpl; [|apply IH; assumption].
  case_decide; [apply IH; assumption|].
  apply IH; [|exact Hf]. unfold AddColumn. simpl.
  match goal with
  | |- context [fold_left _ ?o (NewColumn ?n "")] =>
      pose proof (column_options_agree o n (NewColumn n "") false false None
                    eq_refl eq_refl eq_refl ltac:(discriminate)) as Hc;
        pose proof (tag_options_key o n (false, false, None)) as Hkey
  end.
  cbv zeta in Hc. destruct Hc as (_ & _ & Hk & _).
  rewrite Hk.
  destruct ((tag_options _ _ _).1.1) eqn:E; [|exact Ht].
  destruct (Hkey eq_refl) as [?|?]; [discriminate|contradiction].
Qed.

End SchemaColumns.

Section SchemaRun.

Context {D : Driver}.
Variable Sscanf_d : string -> option Z.
Implicit Types w : World D.

Lemma BuildFromStruct_denotes w model d vals tableName :
  denotes w model d vals ->
  BuildFromStruct D Sscanf_d (Some model) tableName w
  = (Ok (build_columns Sscanf_d (sfields d) (NewTable tableName)), w).
Proof.
  intros Hd. unfold BuildFromStruct.
  rewrite (bind_ok _ _ _ _ _ (current_denotes _ _ _ _ Hd)). reflexivity.
Qed.

Lemma BuildFromStruct_inv model tableName w t w' :
  BuildFromStruct D Sscanf_d model tableName w = (Ok t, w') ->
  exists d, t = build_columns Sscanf_d (sfields d) (NewTable tableName).
Proof.
  unfold BuildFromStruct. intros H.
  apply bind_inv in H as [(v & w1 & _ & H)|[(? & _ & [=])|(? & _ & [=])]].
  destruct v as [[]|]; inversion H; subst. eauto.
Qed.

End SchemaRun.

(** X22: [BuildFromStruct] never fills in the type of a column: every
    column of the table it returns has the empty type, so the definition
    [GenerateCreateTableSQL] renders for a column that is not
    auto-increment is the quoted name and a space followed at once by the
    NOT NULL and DEFAULT parts, with no type. *)
Theorem BuildFromStruct_leaves_the_column_types_empty
    (D : Driver) (Sscanf_d : string -> option Z) (model : any) (tableName : string)
    (w : World D) (t : Table.t) (w' : World D) :
  BuildFromStruct D Sscanf_d model tableName w = (Ok t, w') ->
  Table.Name t = tableName
  /\ Forall (fun c => Column.Type_ c = "") (Table.Columns t)
  /\ forall (d : SchemaDialect) (c : Column.t),
       c ∈ Table.Columns t -> Column.IsAutoIncrement c = false ->
       columnDef d c
       = (Quote (quoting d) (Column.Name c) +:+ " ")
           +:+ (if Column.Nullable c then "" else " NOT NULL")
           +:+ (if decide (Column.Default c = "") then ""
                else " DEFAULT " +:+ Column.Default c).
Proof.
  intros H. apply BuildFromStruct_inv in H as [d ->].
  pose proof (build_columns_agree Sscanf_d (sfields d) (NewTable tableName) "" []) as Ha.
  destruct Ha as (_ & _ & _ & Hty & _).
  { unfold agree. simpl. repeat split; auto. discriminate. }
  split; [apply build_columns_name|].
  split; [exact Hty|].
  intros dl c Hin Hauto. rewrite Forall_forall in Hty. specialize (Hty c Hin).
  unfold columnDef. rewrite Hauto, Hty.
  destruct (Column.Nullable c); simpl; case_decide;
    rewrite ?append_nil_r, ?append_assoc, ?append_nil; reflexivity.
Qed.

Lemma BuildFromStruct_leaves_the_column_types_empty_witness :
  let t := Table.mk "products"
             [Column.mk "id" "" 0 0 0 false false "" true true;
              Column.mk "name" "" 80 0 0 false true "" false false;
              Column.mk "price" "" 0 0 0 false false "0" false false]
             (Some (Column.mk "id" "" 0 0 0 false false "" true true)) [] [] [] in
  Table.Name t = "products"
  /\ Forall (fun c => Column.Type_ c = "") (Table.Columns t)
  /\ forall (d : SchemaDialect) (c : Column.t),
       c ∈ Table.Columns t -> Column.IsAutoIncrement c = false ->
       columnDef d c
       = (Quote (quoting d) (Column.Name c) +:+ " ")
           +:+ (if Column.Nullable c then "" else " NOT NULL")
           +:+ (if decide (Column.Default c = "") then ""
                else " DEFAULT " +:+ Column.Default c).
Proof.
  intros t.
  apply (BuildFromStruct_leaves_the_column_types_empty Toy.driver Shop.Sscanf_d Shop.product
           "products" (Toy.world {[1%nat := Shop.pen]}) t (Toy.world {[1%nat := Shop.pen]})).
  vm_compute. reflexivity.
Defined.

(** The table of the example struct under postgres: the columns [name]
    and [price] have no type. *)
Example Product_table_text :
  GenerateCreateTableSQL
    (build_columns Shop.Sscanf_d (sfields Shop.Product) (NewTable "products")) PostgresSchema
  = Ok ("CREATE TABLE IF NOT EXISTS " +:+ Str.dq +:+ "products" +:+ Str.dq +:+ " (" +:+ Str.nl
          +:+ "  " +:+ Str.dq +:+ "id" +:+ Str.dq +:+ " SERIAL NOT NULL," +:+ Str.nl
          +:+ "  " +:+ Str.dq +:+ "name" +:+ Str.dq +:+ "  NOT NULL," +:+ Str.nl
          +:+ "  " +:+ Str.dq +:+ "price" +:+ Str.dq +:+ "  NOT NULL DEFAULT 0," +:+ Str.nl
          +:+ "  PRIMARY KEY (" +:+ Str.dq +:+ "id" +:+ Str.dq +:+ ")" +:+ Str.nl +:+ ")").
Proof. vm_compute. reflexivity. Qed.

(** X23: [BuildFromStruct] (package schema) and [extractModelInfo]
    (package sage) read the [db] tags of a struct alike: the columns of
    the table are the fields of the metadata, in the same order, under the
    same names and with the same key and auto-increment marks; and when
    the table has a primary key, it is the column the metadata names. *)
Theorem BuildFromStruct_agrees_with_extractModelInfo
    (D : Driver) (Sscanf_d : string -> option Z) (model : Value) (d : StructDecl)
    (vals : list Value) (tableName : string) (w : World D) :
  denotes w model d vals ->
  exists t,
    BuildFromStruct D Sscanf_d (Some model) tableName w = (Ok t, w)
    /\ extractModelInfo D (Some model) w = (Ok (modelInfoOf model d), w)
    /\ map Column.Name (Table.Columns t)
       = map FieldInfo.DBName (ModelInfo.Fields (modelInfoOf model d))
    /\ map Column.IsPrimaryKey (Table.Columns t)
       = map FieldInfo.IsKey (ModelInfo.Fields (modelInfoOf model d))
    /\ map Column.IsAutoIncrement (Table.Columns t)
       = map FieldInfo.IsAuto (ModelInfo.Fields (modelInfoOf model d))
    /\ forall c, Table.PrimaryKey t = Some c ->
                 Column.Name c = ModelInfo.PrimaryKey (modelInfoOf model d).
Proof.
  intros Hd. eexists. split; [apply (BuildFromStruct_denotes Sscanf_d w model d vals); exact Hd|].
  split; [apply (extractModelInfo_denotes w _ d vals); exact Hd|].
  unfold modelInfoOf. cbn [ModelInfo.Fields ModelInfo.PrimaryKey].
  match goal with
  | |- context [model_fields (sfields d) ?pk []] =>
      destruct (build_columns_agree Sscanf_d (sfields d) (NewTable tableName) pk [])
        as (H1 & H2 & H3 & _ & H5)
  end.
  { unfold agree. simpl. repeat split; auto. discriminate. }
  auto.
Qed.

Lemma BuildFromStruct_agrees_with_extractModelInfo_witness :
  let w := Toy.world {[1%nat := Shop.pen]} in
  let model := VPtr (TStruct Shop.Product) (Some 1%nat) in
  exists t,
    BuildFromStruct Toy.driver Shop.Sscanf_d (Some model) "products" w = (Ok t, w)
    /\ extractModelInfo Toy.driver (Some model) w = (Ok (modelInfoOf model Shop.Product), w)
    /\ map Column.Name (Table.Columns t)
       = map FieldInfo.DBName (ModelInfo.Fields (modelInfoOf model Shop.Product))
    /\ map Column.IsPrimaryKey (Table.Columns t)
       = map FieldInfo.IsKey (ModelInfo.Fields (modelInfoOf model Shop.Product))
    /\ map Column.IsAutoIncrement (Table.Columns t)
       = map FieldInfo.IsAuto (ModelInfo.Fields (modelInfoOf model Shop.Product))
    /\ forall c, Table.PrimaryKey t = Some c ->
                 Column.Name c = ModelInfo.PrimaryKey (modelInfoOf model Shop.Product).
Proof.
  intros w model.
  apply (BuildFromStruct_agrees_with_extractModelInfo Toy.driver Shop.Sscanf_d model
           Shop.Product [VInt 1; VStr "pen"; VInt 2; VStr "x"; VStr ""] "products" w).
  right. exists (TStruct Shop.Product), 1%nat. split; reflexivity.
Defined.

(** X24: a table built by [BuildFromStruct] from a struct none of whose
    fields carries the option [pk] has no primary key, and
    [GenerateCreateTableSQL] panics on it under every dialect: its last
    statement reads the name of the primary key without the test the
    PRIMARY KEY clause is guarded by. *)
Theorem GenerateCreateTableSQL_panics_without_a_pk_tag
    (D : Driver) (Sscanf_d : string -> option Z) (model : Value) (d : StructDecl)
    (vals : list Value) (tableName : string) (w : World D) (dl : SchemaDialect) :
  denotes w model d vals ->
  Forall (fun f => "pk" ∉ tail (Str.Split (ftag f) ",")) (sfields d) ->
  exists t,
    BuildFromStruct D Sscanf_d (Some model) tableName w = (Ok t, w)
    /\ Table.PrimaryKey t = None
    /\ GenerateCreateTableSQL t dl = Panic "invalid memory address or nil pointer dereference".
Proof.
  intros Hd Hpk. eexists. split; [apply (BuildFromStruct_denotes Sscanf_d w model d vals); exact Hd|].
  assert (Hn : Table.PrimaryKey (build_columns Sscanf_d (sfields d) (NewTable tableName)) = None)
    by (apply build_columns_no_key; [reflexivity|exact Hpk]).
  split; [exact Hn|]. unfold GenerateCreateTableSQL. rewrite Hn. reflexivity.
Qed.

Lemma GenerateCreateTableSQL_panics_without_a_pk_tag_witness :
  let w := Toy.world {[1%nat := Toy.memo]} in
  exists t,
    BuildFromStruct Toy.driver Shop.Sscanf_d (Some (VPtr (TStruct Toy.Note) (Some 1%nat)))
                    "notes" w = (Ok t, w)
    /\ Table.PrimaryKey t = None
    /\ GenerateCreateTableSQL t PostgresSchema
       = Panic "invalid memory address or nil pointer dereference".
Proof.
  intros w.
  apply (GenerateCreateTableSQL_panics_without_a_pk_tag Toy.driver Shop.Sscanf_d
           (VPtr (TStruct Toy.Note) (Some 1%nat)) Toy.Note [VStr "buy milk"] "notes" w
           PostgresSchema).
  - right. exists (TStruct Toy.Note), 1%nat. split; reflexivity.
  - repeat constructor. vm_compute. intros H. inversion H.
Defined.

(** X25: under the SQLite dialect, whose auto-increment keyword is
    [INTEGER PRIMARY KEY AUTOINCREMENT], the text generated for a table
    whose primary key column is auto-increment declares the primary key
    twice: in the definition of the column and in the PRIMARY KEY clause. *)
Theorem SQLite_auto_increment_key_is_declared_twice (t : Table.t) (pk : Column.t) :
  Table.PrimaryKey t = Some pk ->
  pk ∈ Table.Columns t ->
  Column.IsAutoIncrement pk = true ->
  GenerateCreateTableSQL t SQLiteSchema
  = Ok (create_table_if_not_exists SQLiteDialect (Table.Name t) (columnDefs t SQLiteSchema))
  /\ (exists rest,
        (Quote SQLiteDialect (Column.Name pk) +:+ " INTEGER PRIMARY KEY AUTOINCREMENT" +:+ rest)
          ∈ columnDefs t SQLiteSchema)
  /\ ("PRIMARY KEY (" +:+ Quote SQLiteDialect (Column.Name pk) +:+ ")")
       ∈ columnDefs t SQLiteSchema.
Proof.
  intros Hpk Hin Hauto. split; [|split].
  - unfold GenerateCreateTableSQL. rewrite Hpk. reflexivity.
  - exists ((if Column.Nullable pk then "" else " NOT NULL")
            +:+ (if decide (Column.Default pk = "") then ""
                 else " DEFAULT " +:+ Column.Default pk)).
    unfold columnDefs. apply elem_of_app. left.
    apply list_elem_of_fmap. exists pk. split; [|exact Hin].
    unfold columnDef. rewrite Hauto. cbn [quoting AutoIncrementKeyword SQLiteSchema].
    destruct (Column.Nullable pk); simpl; case_decide;
      rewrite ?append_nil_r, ?append_assoc, ?append_nil; reflexivity.
  - unfold columnDefs. rewrite Hpk. apply elem_of_app. right.
    apply elem_of_app. left. apply list_elem_of_singleton. reflexivity.
Qed.

Lemma SQLite_auto_increment_key_is_declared_twice_witness :
  let t := build_columns Shop.Sscanf_d (sfields Shop.Product) (NewTable "products") in
  let pk := Column.mk "id" "" 0 0 0 false false "" true true in
  GenerateCreateTableSQL t SQLiteSchema
  = Ok (create_table_if_not_exists SQLiteDialect (Table.Name t) (columnDefs t SQLiteSchema))
  /\ (exists rest,
        (Quote SQLiteDialect (Column.Name pk) +:+ " INTEGER PRIMARY KEY AUTOINCREMENT" +:+ rest)
          ∈ columnDefs t SQLiteSchema)
  /\ ("PRIMARY KEY (" +:+ Quote SQLiteDialect (Column.Name pk) +:+ ")")
       ∈ columnDefs t SQLiteSchema.
Proof.
  intros t pk.
  apply (SQLite_auto_increment_key_is_declared_twice t pk).
  - vm_compute. reflexivity.
  - vm_compute. apply elem_of_cons. left. reflexivity.
  - reflexivity.
Defined.

(** ** Counting the statements of a run *)

Section Sends.

Context {D : Driver}.
Implicit Types w : World D.













End Sends.



(** On the example database the author is inserted and the article
    receives the author's key in memory; the article itself is not sent. *)
Example nestedUpdateBelongsTo_article :
  let r := nestedUpdateBelongsTo Toy.driver Toy.conn Toy.article "Author"
             Toy.author_of_article DefaultNestedOption (Toy.world Toy.newsroom) in
  fst r = Ok tt
  /\ trace (snd r) = [EvExec OnDB "INSERT INTO writers (name) VALUES (?)" [Some (VStr "ann")]]
  /\ heap (snd r) !! 1%nat
     = Some (VStruct Toy.Article [VInt 5; VInt 1; VPtr (TStruct Toy.Writer) (Some 2%nat)]).
Proof. vm_compute. repeat split; reflexivity. Qed.

(** ** Find and the fields that are not columns *)

Lemma model_fields_length (fs : list FieldDecl) :
  forall (pk : string) (acc : list FieldInfo.t) (i : nat),
    (length (model_fields fs pk acc).2 <= length acc + length (settable_fields fs i))%nat
    /\ (Exists (fun f => IsExported f = true /\ ftag f = "-") fs ->
        (length (model_fields fs pk acc).2 < length acc + length (settable_fields fs i))%nat).
Proof.
  induction fs as [|f fs IH]; intros pk acc i.
  - simpl. split; [lia|]. intros H. inversion H.
  - cbn [model_fields settable_fields].
    destruct (IsExported f) eqn:He; cbn [negb].
    + simpl length.
      destruct (decide (ftag f = "-")) as [Ht|Ht].
      * destruct (IH pk acc (S i)) as [Hle _]. split; [lia|]. intros _. lia.
      * destruct (tag_options _ _ _) as [[isKey isAuto] pko].
        match goal with
        | |- context [model_fields fs ?p ?a] => destruct (IH p a (S i)) as [Hle Hlt]
        end.
        rewrite length_app in Hle, Hlt. simpl in Hle, Hlt.
        split; [lia|]. intros Hex. apply Exists_cons in Hex as [[_ Hx]|Hex]; [contradiction|].
        specialize (Hlt Hex). lia.
    + destruct (IH pk acc (S i)) as [Hle Hlt]. split; [exact Hle|].
      intros Hex. apply Exists_cons in Hex as [[Hx _]|Hex]; [congruence|]. auto.
Qed.

Section FindScan.

Context {D : Driver}.
Implicit Types w : World D.

(** [scanRow] on a pointer to a record: the query, then the scan into
    every exported field. *)
Lemma scanRow_ref c t l d vals q args w :
  heap w !! l = Some (VStruct d vals) ->
  scanRow D c (Some (VPtr t (Some l))) q args w
  = (let w1 := log D (EvQuery OnDB q args) w in
     let row := match run_query D q args (store w) with
                | Good rs => Good rs
                | Bad e => Bad e
                end in
     let '(r, w2) := Row_Scan D row l (settable_fields (sfields d) 0) w1 in
     (no_rows_is_not_found r, w2)).
Proof.
  intros Hh. unfold scanRow, bind at 1, DB_QueryRowContext, DB_QueryContext.
  cbn [store log]. cbv zeta.
  assert (Hh1 : heap (log D (EvQuery OnDB q args) w) !! l = Some (VStruct d vals)) by exact Hh.
  destruct (run_query D q args (store w)) as [rows|e];
    rewrite (bind_ok _ _ _ _ _ (load_some _ _ _ Hh1)); reflexivity.
Qed.

Lemma scanRow_column_count c t l d vals q' args' q args w rows cols rest (out : Out unit) w' :
  heap w !! l = Some (VStruct d vals) ->
  scanRow D c (Some (VPtr t (Some l))) q' args' w = (out, w') ->
  trace w' = trace w ++ [EvQuery OnDB q args] ->
  run_query D q args (store w) = Good rows ->
  records rows = cols :: rest ->
  length cols <> length (settable_fields (sfields d) 0) ->
  out = Err (ErrNew ("sql: expected " +:+ pretty (length cols)
                       +:+ " destination arguments in Scan, not "
                       +:+ pretty (length (settable_fields (sfields d) 0))))
  /\ heap w' = heap w.
Proof.
  intros Hh H Htr Hq Hr Hne.
  rewrite (scanRow_ref c t l d vals q' args' w Hh) in H. cbv zeta in H.
  destruct (Row_Scan D _ l _ _) as [r w2] eqn:Hscan.
  injection H as <- <-.
  destruct (holds_Row_Scan _ _ _ _ _ _ _ (same_db_refl _) Hscan) as [(Ht & _) _].
  simpl in Ht. rewrite Htr in Ht. apply app_inv_head in Ht. injection Ht as -> ->.
  rewrite Hq in Hscan. unfold Row_Scan in Hscan. rewrite Hr in Hscan.
  rewrite bool_decide_eq_false_2 in Hscan by congruence.
  inversion Hscan; subst. split; reflexivity.
Qed.

End FindScan.

(** X27: [Find] and [First] scan the row into every exported field of the
    record, the fields tagged [-] included, while the metadata, and so the
    INSERT of [Create], leave those fields out.  For a record with such a
    field, a relationship for instance, a row that has one column for each
    field of the metadata cannot be loaded: the scan fails on the number
    of destinations and the record is left as it was. *)
Theorem Find_scans_into_the_fields_tagged_out
    (D : Driver) (c : Connection) (t : GoType) (l : loc) (d : StructDecl)
    (vals : list Value) (id : any) (conditions : string) (args0 : list any) (w : World D)
    (q : string) (args : list any) (rows : Rows) (cols : list any) (rest : list (list any))
    (out : Out unit) (w' : World D) :
  heap w !! l = Some (VStruct d vals) ->
  Find D c (Some (VPtr t (Some l))) id w = (out, w')
  \/ First D c (Some (VPtr t (Some l))) conditions args0 w = (out, w') ->
  trace w' = trace w ++ [EvQuery OnDB q args] ->
  run_query D q args (store w) = Good rows ->
  records rows = cols :: rest ->
  length cols = length (ModelInfo.Fields (modelInfoOf (VPtr t (Some l)) d)) ->
  Exists (fun f => IsExported f = true /\ ftag f = "-") (sfields d) ->
  out = Err (ErrNew ("sql: expected " +:+ pretty (length cols)
                       +:+ " destination arguments in Scan, not "
                       +:+ pretty (length (settable_fields (sfields d) 0))))
  /\ heap w' = heap w.
Proof.
  intros Hh H Htr Hq Hr Hlen Hex.
  assert (Hne : length cols <> length (settable_fields (sfields d) 0)).
  { rewrite Hlen. unfold modelInfoOf. cbn [ModelInfo.Fields].
    match goal with
    | |- context [model_fields (sfields d) ?pk []] =>
        destruct (model_fields_length (sfields d) pk [] 0%nat) as [_ Hlt]
    end.
    specialize (Hlt Hex). cbn [length Nat.add] in Hlt. lia. }
  destruct H as [H|H].
  - unfold Find in H.
    rewrite (bind_ok _ _ _ _ _ (extractModelInfo_ref _ _ _ _ _ Hh)) in H.
    erewrite bind_ok in H by (apply QB_Build_select; reflexivity).
    eapply scanRow_column_count; eauto.
  - unfold First in H.
    rewrite (bind_ok _ _ _ _ _ (extractModelInfo_ref _ _ _ _ _ Hh)) in H.
    erewrite bind_ok in H
      by (apply QB_Build_select; destruct (decide (conditions = "")); reflexivity).
    eapply scanRow_column_count; eauto.
Qed.

Lemma Find_scans_into_the_fields_tagged_out_witness :
  let w := Pq.world {[1%nat := Toy.draft]} in
  let r := Find Pq.driver Toy.conn Toy.post (Some (VInt 7)) w in
  fst r = Err (ErrNew "sql: expected 2 destination arguments in Scan, not 3")
  /\ heap (snd r) = heap w.
Proof.
  intros w r.
  apply (Find_scans_into_the_fields_tagged_out Pq.driver Toy.conn (TStruct Toy.Post) 1%nat
           Toy.Post [VInt 7; VStr "draft"; VSlice (TStruct Toy.Comment) None]
           (Some (VInt 7)) "" [] w
           "SELECT * FROM posts WHERE id = ?" [Some (VInt 7)]
           (mkRows (Good ["id"; "title"]) [ [Some (VInt 7); Some (VStr "draft")] ] None)
           [Some (VInt 7); Some (VStr "draft")] [] (fst r) (snd r)).
  - reflexivity.
  - left. apply surjective_pairing.
  - vm_compute. reflexivity.
  - reflexivity.
  - reflexivity.
  - reflexivity.
  - apply Exists_cons. right. apply Exists_cons. right. apply Exists_cons. left.
    split; reflexivity.
Defined.

(** ** Runs that write to no variable *)

Section KeepsHeap.

Context {D : Driver}.
Implicit Types w : World D.

Lemma keeps_ret {A : Type} (a : A) : keeps_heap (ret (D:=D) a).
Proof. intros w out w' H. inversion H; reflexivity. Qed.

Lemma keeps_fail {A : Type} (e : error) : keeps_heap (fail (D:=D) (A:=A) e).
Proof. intros w out w' H. inversion H; reflexivity. Qed.

Lemma keeps_panic {A : Type} (p : string) : keeps_heap (panic (D:=D) (A:=A) p).
Proof. intros w out w' H. inversion H; reflexivity. Qed.

Lemma keeps_bind {A B : Type} (m : M D A) (k : A -> M D B) :
  keeps_heap m -> (forall a, keeps_heap (k a)) -> keeps_heap (bind m k).
Proof.
  intros Hm Hk w out w' H.
  apply bind_inv in H as [(a & w1 & H1 & H2)|[(e & H1 & ->)|(p & H1 & ->)]].
  - rewrite (Hk a _ _ _ H2). exact (Hm _ _ _ H1).
  - exact (Hm _ _ _ H1).
  - exact (Hm _ _ _ H1).
Qed.

Lemma keeps_load l : keeps_heap (load (D:=D) l).
Proof. intros w out w' H. unfold load in H. destruct (heap w !! l); inversion H; reflexivity. Qed.

Lemma keeps_lift {A : Type} (r : res A) : keeps_heap (lift (D:=D) r).
Proof. destruct r; [apply keeps_ret|apply keeps_fail]. Qed.

Lemma keeps_range {A : Type} (entries : list A) : keeps_heap (range (D:=D) entries).
Proof. intros w out w' H. unfold range in H. inversion H; reflexivity. Qed.

Lemma keeps_DB_ExecContext q args : keeps_heap (DB_ExecContext D q args).
Proof.
  intros w out w' H. apply DB_ExecContext_inv in H.
  destruct (run_exec D q args (store w)) as [[r s]|e]; destruct H as [_ ->]; reflexivity.
Qed.

Lemma keeps_DB_QueryContext q args : keeps_heap (DB_QueryContext D q args).
Proof. intros w out w' H. apply DB_QueryContext_inv in H as [-> _]. reflexivity. Qed.

Create HintDb keeps discriminated.
Hint Resolve keeps_ret keeps_fail keeps_panic keeps_load keeps_lift keeps_range
  keeps_DB_ExecContext keeps_DB_QueryContext : keeps.

Ltac keeps_step :=
  first
    [ solve [eauto with keeps]
    | apply keeps_bind; [|intros ?]
    | match goal with
      | |- keeps_heap (match ?x with _ => _ end) => destruct x
      | |- keeps_heap (if ?b then _ else _) => destruct b
      end ].
Ltac keeps := repeat keeps_step.

Lemma keeps_current rv : keeps_heap (current D rv).
Proof. unfold current. keeps. Qed.
Hint Resolve keeps_current : keeps.

Lemma keeps_extractModelInfo model : keeps_heap (extractModelInfo D model).
Proof. unfold extractModelInfo. keeps. Qed.

Lemma keeps_FieldByName v name : keeps_heap (FieldByName D v name).
Proof. unfold FieldByName. keeps. Qed.

Lemma keeps_field_value f : keeps_heap (field_value D f).
Proof. unfold field_value. keeps. Qed.
Hint Resolve keeps_extractModelInfo keeps_FieldByName keeps_field_value : keeps.

Lemma keeps_Interface fo : keeps_heap (Interface D fo).
Proof. unfold Interface. keeps. Qed.

Lemma keeps_QB_Build qb : keeps_heap (QB_Build D qb).
Proof. unfold QB_Build. repeat case_decide; keeps. Qed.
Hint Resolve keeps_Interface keeps_QB_Build : keeps.

Lemma keeps_create_sets v fields qb : keeps_heap (create_sets D v fields qb).
Proof. revert qb. induction fields as [|field rest IH]; intros qb; simpl; keeps. Qed.

Lemma keeps_update_sets v fields idValue qb : keeps_heap (update_sets D v fields idValue qb).
Proof.
  revert idValue qb. induction fields as [|field rest IH]; intros idValue qb; simpl; keeps.
Qed.

Lemma keeps_delete_key v fields : keeps_heap (delete_key D v fields).
Proof. induction fields as [|field rest IH]; simpl; keeps. Qed.

Lemma keeps_exec_affecting q args : keeps_heap (exec_affecting D q args).
Proof. unfold exec_affecting. keeps. Qed.
Hint Resolve keeps_create_sets keeps_update_sets keeps_delete_key keeps_exec_affecting : keeps.

Lemma FieldByName_by_value (x : Value) name w (fo : option Field) w' :
  FieldByName D (RVal x) name w = (Ok fo, w') -> CanSet fo = false.
Proof.
  unfold FieldByName, current. rewrite bind_ret.
  destruct x; try discriminate.
  destruct (lookup_field _ _ _) as [[i f]|]; intros H; inversion H; reflexivity.
Qed.

(** A struct handed over by value cannot receive the generated key. *)
Lemma keeps_set_generated_id_by_value (x : Value) fields id :
  keeps_heap (set_generated_id D (RVal x) fields id).
Proof.
  induction fields as [|field rest IH]; simpl; [keeps|].
  destruct (_ && _); [|exact IH].
  intros w out w' H.
  apply bind_inv in H as [(fo & w1 & H1 & H2)|[(e & H1 & ->)|(p & H1 & ->)]];
    try exact (keeps_FieldByName _ _ _ _ _ H1).
  rewrite (FieldByName_by_value _ _ _ _ _ H1) in H2. inversion H2; subst.
  exact (keeps_FieldByName _ _ _ _ _ H1).
Qed.

Lemma keeps_Create_by_value c d vals : keeps_heap (Create D c (Some (VStruct d vals))).
Proof.
  unfold Create. cbn [indirect]. keeps. apply keeps_set_generated_id_by_value.
Qed.

Lemma keeps_Update c model : keeps_heap (Update D c model).
Proof. unfold Update. keeps. Qed.

Lemma keeps_Delete c model : keeps_heap (Delete D c model).
Proof. unfold Delete. keeps. Qed.

End KeepsHeap.

(** X28: [Update] and [Delete] write to no variable, and [Create] writes
    only through a pointer: handed a struct by value, it sends its INSERT
    like any other, but the key the database generated is stored nowhere,
    and every variable is left as it was. *)
Theorem Create_by_value_loses_the_generated_key
    (D : Driver) (c : Connection) (d : StructDecl) (vals : list Value) (model : any)
    (w : World D) :
  heap (snd (Create D c (Some (VStruct d vals)) w)) = heap w
  /\ heap (snd (Update D c model w)) = heap w
  /\ heap (snd (Delete D c model w)) = heap w.
Proof.
  split; [|split].
  - eapply keeps_Create_by_value. apply surjective_pairing.
  - eapply keeps_Update. apply surjective_pairing.
  - eapply keeps_Delete. apply surjective_pairing.
Qed.

(** On the example database the user handed over by value is inserted
    (into the table of the default name, since the methods of [Model] are
    on the pointer), and the key it received is stored nowhere. *)
Example Create_user_by_value :
  let r := Create Toy.driver Toy.conn (Some Toy.jdoe) (Toy.world ∅) in
  fst r = Ok tt
  /\ trace (snd r) = [EvExec OnDB "INSERT INTO user (username) VALUES (?)" [Some (VStr "jdoe")]]
  /\ heap (snd r) = ∅.
Proof. vm_compute. repeat split; reflexivity. Qed.

(** ** QueryOne and the fields that are not exported *)

Lemma forallb_IsExported_false (fs : list FieldDecl) :
  Exists (fun f => IsExported f = false) fs -> forallb IsExported fs = false.
Proof.
  induction 1 as [f fs H|f fs _ IH]; simpl.
  - rewrite H. reflexivity.
  - rewrite IH. apply andb_false_r.
Qed.

Section QueryOneRun.

Context {D : Driver}.
Implicit Types w : World D.

Lemma QueryRow_sends e q args w :
  (Executor.tx e = None -> Executor.db e = true) ->
  exists row w1,
    QueryRow D e q args w = (Ok row, w1)
    /\ heap w1 = heap w
    /\ trace w1 = trace w ++ [EvQuery (match Executor.tx e with
                                       | Some id => OnTx id
                                       | None => OnDB
                                       end) q args].
Proof.
  intros He. unfold QueryRow. destruct (Executor.tx e) as [id|].
  - unfold Tx_QueryRowContext, Tx_QueryContext. cbn [txs log].
    destruct (txs w !! id) as [s|]; [destruct (run_query D q args s)|];
      eexists _, _; (split; [reflexivity|]); split; reflexivity.
  - rewrite (He eq_refl). unfold DB_QueryRowContext, DB_QueryContext. cbn [store log].
    destruct (run_query D q args (store w));
      eexists _, _; (split; [reflexivity|]); split; reflexivity.
Qed.

End QueryOneRun.

(** X29: [Executor.QueryOne] takes the address of every field of the
    destination struct and turns it into an interface value, which the
    reflect package refuses for a field that is not exported.  So for a
    destination with such a field [QueryOne] sends its query and then
    panics, whatever the database answers; the destination is left as it
    was.  ([Connection.Find] skips such fields.) *)
Theorem QueryOne_panics_on_an_unexported_field
    (D : Driver) (e : Executor.t) (t : GoType) (l : loc) (d : StructDecl)
    (vals : list Value) (q : string) (args : list any) (w : World D) :
  heap w !! l = Some (VStruct d vals) ->
  Exists (fun f => IsExported f = false) (sfields d) ->
  (Executor.tx e = None -> Executor.db e = true) ->
  let r := QueryOne D e (Some (VPtr t (Some l))) q args w in
  fst r = Panic "reflect.Value.Interface: cannot return value obtained from unexported field or method"
  /\ trace (snd r) = trace w ++ [EvQuery (match Executor.tx e with
                                          | Some id => OnTx id
                                          | None => OnDB
                                          end) q args]
  /\ heap (snd r) = heap w.
Proof.
  intros Hh Hex He r. subst r. unfold QueryOne.
  rewrite (bind_ok _ _ _ _ _ (load_some _ _ _ Hh)).
  destruct (QueryRow_sends e q args w He) as (row & w1 & Hq & Hh1 & Ht1).
  rewrite (bind_ok _ _ _ _ _ Hq).
  unfold scanStruct.
  assert (Hl1 : heap w1 !! l = Some (VStruct d vals)) by (rewrite Hh1; exact Hh).
  rewrite (bind_ok _ _ _ _ _ (load_some _ _ _ Hl1)).
  rewrite (forallb_IsExported_false _ Hex). simpl. auto.
Qed.

Lemma QueryOne_panics_on_an_unexported_field_witness :
  let w := Toy.world {[1%nat := Shop.pen]} in
  let r := QueryOne Toy.driver Executor.NewExecutor Shop.product
             "SELECT id, name, price FROM products LIMIT 1" [] w in
  fst r = Panic "reflect.Value.Interface: cannot return value obtained from unexported field or method"
  /\ trace (snd r) = trace w ++ [EvQuery OnDB "SELECT id, name, price FROM products LIMIT 1" []]
  /\ heap (snd r) = heap w.
Proof.
  intros w.
  apply (QueryOne_panics_on_an_unexported_field Toy.driver Executor.NewExecutor
           (TStruct Shop.Product) 1%nat Shop.Product
           [VInt 1; VStr "pen"; VInt 2; VStr "x"; VStr ""]
           "SELECT id, name, price FROM products LIMIT 1" [] w).
  - reflexivity.
  - apply Exists_cons. right. apply Exists_cons. right. apply Exists_cons. right.
    apply Exists_cons. left. reflexivity.
  - reflexivity.
Defined.
